(** * pysocialforce: scene state (PedState, EnvState) and snapshot production

    A shallow embedding of [pysocialforce/scene.py] and of
    [to_visualizable_state] from [pysocialforce/sim_view.py].

    Conventions of the embedding.
    - float64 values are idealised as real numbers [R]; [==], [np.minimum],
      [int(...)] and [%] are the corresponding operations on reals.  The one
      place where the code divides by a value that may be zero, the capping
      inside [step], is followed a second time over float64 with its
      infinities and NaN, in the module [F64].
    - A 2-D numpy array is a [matrix]: its column count and its rows.  A 1-D
      array and a 3-D array (a stack of matrices) are the other two shapes that
      occur in the code.
    - Python objects that are shared and mutated in place (numpy arrays, the
      list of groups) live in a [heap] and are passed by reference ([loc]).
      Fresh arrays that never escape ([max_speeds], [initial_speeds],
      [desired_velocity]) are kept by value.
    - Exceptions are the [Raises] outcome.  Binary numpy operations are taken
      at equal shapes, as the simulator calls them; unequal shapes give
      [ValueError] (numpy's broadcasting of other shapes is not modelled,
      except for the assignment of a 1-D array to a slice, which
      [_update_obstacles_raw] relies on).
    - Functions of numpy and [math] ([np.linspace], [np.linalg.norm],
      [math.atan2], ...) follow their documented behaviour. *)

From Stdlib Require Import Reals Lra Lia ZArith List.
From stdpp Require Import base list.
Import ListNotations.

Open Scope R_scope.

(** ** Outcomes and the heap *)

Inductive exn : Type :=
| ValueError
| TypeError
| AttributeError.

Inductive outcome (A : Type) : Type :=
| Returns (a : A)
| Raises (e : exn).

Arguments Returns {A} a.
Arguments Raises {A} e.

Definition obind {A B} (x : outcome A) (f : A -> outcome B) : outcome B :=
  match x with
  | Returns a => f a
  | Raises e => Raises e
  end.

Record matrix : Type := Matrix { ncols : nat; rows : list (list R) }.

Definition nrows (m : matrix) : nat := length (rows m).

(** Every row of a numpy array has the array's column count. *)
Definition wf_matrix (m : matrix) : Prop :=
  Forall (fun r => length r = ncols m) (rows m).

Inductive ndarray : Type :=
| Arr1 (v : list R)
| Arr2 (m : matrix)
| Arr3 (planes : list matrix).

Abbreviation Group := (list Z) (only parsing).

Inductive obj : Type :=
| ONd (a : ndarray)
| OList (gs : list Group).

Abbreviation loc := nat (only parsing).
Abbreviation heap := (list obj) (only parsing).

(** Computations that read and write the heap and may raise. *)
Definition M (A : Type) : Type := heap -> outcome (A * heap).

Definition ret {A} (a : A) : M A := fun h => Returns (a, h).
Definition raise {A} (e : exn) : M A := fun _ => Raises e.
Definition bind {A B} (x : M A) (f : A -> M B) : M B :=
  fun h => match x h with
           | Returns (a, h') => f a h'
           | Raises e => Raises e
           end.
Definition lift {A} (x : outcome A) : M A :=
  fun h => match x with
           | Returns a => Returns (a, h)
           | Raises e => Raises e
           end.

Notation "'do' x <- c1 ; c2" := (bind c1 (fun x => c2))
  (at level 10, x name, c1 at level 100, c2 at level 200).

(** A fresh object is placed at the end of the heap. *)
Definition alloc (o : obj) : M loc :=
  fun h => Returns (length h, h ++ [o]).

(** Reading a 2-D array through a reference; anything else at that reference
    has no [shape] with two entries. *)
Definition get_matrix (l : loc) : M matrix :=
  fun h => match h !! l with
           | Some (ONd (Arr2 m)) => Returns (m, h)
           | _ => Raises AttributeError
           end.

Definition put_matrix (l : loc) (m : matrix) : M unit :=
  fun h => Returns (tt, <[l := ONd (Arr2 m)]> h).

Definition get_list (l : loc) : M (list Group) :=
  fun h => match h !! l with
           | Some (OList gs) => Returns (gs, h)
           | _ => Raises TypeError
           end.

(** ** numpy kernels *)

(** [r[lo:hi]] *)
Definition slice (lo hi : nat) (r : list R) : list R :=
  take (hi - lo) (drop lo r).

(** [a[:, lo:hi]] *)
Definition cols (lo hi : nat) (a : matrix) : matrix :=
  Matrix (Nat.min hi (ncols a) - lo) (map (slice lo hi) (rows a)).

Definition same_shape (a b : matrix) : bool :=
  (ncols a =? ncols b)%nat && (nrows a =? nrows b)%nat.

(** [a + b] *)
Definition mat_add (a b : matrix) : outcome matrix :=
  if same_shape a b
  then Returns (Matrix (ncols a) (zip_with (zip_with Rplus) (rows a) (rows b)))
  else Raises ValueError.

(** [k * a] for a scalar [k] *)
Definition scale_l (k : R) (a : matrix) : matrix :=
  Matrix (ncols a) (map (map (fun x => k * x)) (rows a)).

(** [a * k] for a scalar [k] *)
Definition scale_r (a : matrix) (k : R) : matrix :=
  Matrix (ncols a) (map (map (fun x => x * k)) (rows a)).

Definition sum_sq (r : list R) : R :=
  fold_right (fun x acc => x * x + acc) 0 r.

(** [np.linalg.norm] of one row *)
Definition norm (r : list R) : R := sqrt (sum_sq r).

(** [np.linalg.norm(a, axis=1)] *)
Definition row_norms (a : matrix) : list R := map norm (rows a).

(** [np.full((n), x)] *)
Definition np_full (n : nat) (x : R) : list R := repeat x n.

(** [np.concatenate((a, np.expand_dims(v, -1)), axis=-1)] *)
Definition concat_col (a : matrix) (v : list R) : outcome matrix :=
  if (length v =? nrows a)%nat
  then Returns (Matrix (S (ncols a)) (zip_with (fun r x => r ++ [x]) (rows a) v))
  else Raises ValueError.

(** [a[:, lo:hi] += d], on the array's contents *)
Definition iadd_cols (lo hi : nat) (a d : matrix) : outcome matrix :=
  if same_shape (cols lo hi a) d
  then Returns (Matrix (ncols a)
         (zip_with (fun r dr => take lo r ++ zip_with Rplus (slice lo hi r) dr ++ drop hi r)
                   (rows a) (rows d)))
  else Raises ValueError.

(** [a[:, lo:hi] = d], on the array's contents *)
Definition set_cols (lo hi : nat) (a d : matrix) : outcome matrix :=
  if same_shape (cols lo hi a) d
  then Returns (Matrix (ncols a)
         (zip_with (fun r dr => take lo r ++ dr ++ drop hi r) (rows a) (rows d)))
  else Raises ValueError.

(** ** PedState *)

(** Modelled from the spec: [SceneConfig] lives in [pysocialforce/config.py],
    which is not among the sources; these are the four fields that
    [PedState.__init__] reads from it. *)
Module SceneConfig.
Record t : Type := Make {
  tau : R;
  dt_secs : R;
  agent_radius : R;
  max_speed_multiplier : R }.
End SceneConfig.

(** The attributes of a [PedState] object.  [_state] and [_groups] do not exist
    before the first assignment, which is [None] here. *)
Record PedState : Type := MkPedState {
  default_tau : R;
  d_t : R;
  agent_radius : R;
  max_speed_multiplier : R;
  max_speeds : option (list R);
  initial_speeds : option (list R);
  _state : option loc;
  _groups : option loc }.

Definition with_state (self : PedState) (l : loc) : PedState :=
  MkPedState (default_tau self) (d_t self) (agent_radius self)
    (max_speed_multiplier self) (max_speeds self) (initial_speeds self)
    (Some l) (_groups self).

Definition with_groups (self : PedState) (l : loc) : PedState :=
  MkPedState (default_tau self) (d_t self) (agent_radius self)
    (max_speed_multiplier self) (max_speeds self) (initial_speeds self)
    (_state self) (Some l).

Definition with_initial_speeds (self : PedState) (v : list R) : PedState :=
  MkPedState (default_tau self) (d_t self) (agent_radius self)
    (max_speed_multiplier self) (max_speeds self) (Some v)
    (_state self) (_groups self).

Definition with_max_speeds (self : PedState) (v : list R) : PedState :=
  MkPedState (default_tau self) (d_t self) (agent_radius self)
    (max_speed_multiplier self) (Some v) (initial_speeds self)
    (_state self) (_groups self).

Definition attr {A} (a : option A) : M A :=
  match a with
  | Some x => ret x
  | None => raise AttributeError
  end.

(** The [state] property. *)
Definition state (self : PedState) : M loc := attr (_state self).

(** The [groups] property. *)
Definition groups (self : PedState) : M loc := attr (_groups self).

Definition pos (self : PedState) : M matrix :=
  do st <- state self; do a <- get_matrix st; ret (cols 0 2 a).

Definition vel (self : PedState) : M matrix :=
  do st <- state self; do a <- get_matrix st; ret (cols 2 4 a).

Definition size (self : PedState) : M nat :=
  do st <- state self; do a <- get_matrix st; ret (nrows a).

Definition speeds (self : PedState) : M (list R) :=
  do v <- vel self; ret (row_norms v).

Definition _update_state (self : PedState) (state : loc) : M PedState :=
  do a <- get_matrix state;
  let tau := np_full (nrows a) (default_tau self) in
  do st <- (if (ncols a <? 7)%nat
            then do a' <- lift (concat_col a tau); alloc (ONd (Arr2 a'))
            else ret state);
  let self := with_state self st in
  do self <- match initial_speeds self with
             | None => do sp <- speeds self; ret (with_initial_speeds self sp)
             | Some _ => ret self
             end;
  match initial_speeds self with
  | Some is0 =>
      ret (with_max_speeds self (map (fun s => max_speed_multiplier self * s) is0))
  | None => raise TypeError
  end.

(** The [groups] setter. *)
Definition set_groups (self : PedState) (groups : option loc) : M PedState :=
  match groups with
  | None => do l <- alloc (OList []); ret (with_groups self l)
  | Some g => ret (with_groups self g)
  end.

Definition update (self : PedState) (state : loc) (groups : option loc)
  : M PedState :=
  do self <- _update_state self state;
  set_groups self groups.

Definition __init__ (state : loc) (groups : option loc) (config : SceneConfig.t)
  : M PedState :=
  let self := MkPedState (SceneConfig.tau config) (SceneConfig.dt_secs config)
                (SceneConfig.agent_radius config)
                (SceneConfig.max_speed_multiplier config)
                None None None None in
  update self state groups.

Definition capped_velocity (desired_velocity : matrix) (max_velocity : list R)
  : outcome matrix :=
  let desired_speeds := row_norms desired_velocity in
  if (length max_velocity =? length desired_speeds)%nat
  then
    let factor := zip_with (fun m s => Rmin 1 (m / s)) max_velocity desired_speeds in
    let factor := zip_with (fun f s => if Req_dec_T s 0 then 0 else f)
                    factor desired_speeds in
    Returns (Matrix (ncols desired_velocity)
               (zip_with (fun r f => map (fun x => x * f) r)
                  (rows desired_velocity) factor))
  else Raises ValueError.

Definition modify_matrix (l : loc) (f : matrix -> outcome matrix) : M unit :=
  do a <- get_matrix l; do a' <- lift (f a); put_matrix l a'.

Definition step (self : PedState) (force : matrix) (groups_arg : option loc)
  : M PedState :=
  do v <- vel self;
  do desired_velocity <- lift (mat_add v (scale_l (d_t self) force));
  do ms <- match max_speeds self with
           | Some ms => ret ms
           | None => raise TypeError
           end;
  do desired_velocity <- lift (capped_velocity desired_velocity ms);
  do next_state <- state self;
  do _ <- modify_matrix next_state
            (fun a => iadd_cols 0 2 a (scale_r desired_velocity (d_t self)));
  do _ <- modify_matrix next_state (fun a => set_cols 2 4 a desired_velocity);
  do next_groups <- match groups_arg with
                    | Some g => ret g
                    | None => groups self
                    end;
  update self next_state (Some next_groups).

(** [np.array([self.state]), [self.groups]]: a new array holding the state's
    values, and a new one-element list whose element is the reference held in
    [_groups]. *)
Definition get_states (self : PedState) : M (loc * list loc) :=
  do st <- state self;
  do a <- get_matrix st;
  do s <- alloc (ONd (Arr3 [a]));
  do g <- groups self;
  ret (s, [g]).

Fixpoint which_group_from (i : Z) (gs : list Group) (index : Z) : Z :=
  match gs with
  | [] => (-1)%Z
  | group :: gs' =>
      if existsb (Z.eqb index) group then i
      else which_group_from (i + 1)%Z gs' index
  end.

Definition which_group (self : PedState) (index : Z) : M Z :=
  do g <- groups self;
  do gs <- get_list g;
  ret (which_group_from 0%Z gs index).

(** ** Snapshots for the view *)

Record VisualizableSimState : Type := MkVisualizableSimState {
  timestep : Z;
  pedestrian_positions : loc;
  ped_actions : loc }.

(** Modelled from the spec: [SimState] is declared in
    [pysocialforce/simulator.py], which is not among the sources; it is the
    pair of a reference to a 2-D state matrix and a reference to a group
    list. *)
Definition SimState : Type := (loc * loc)%type.

(** [np.concatenate((np.expand_dims(p, axis=1), np.expand_dims(q, axis=1)), axis=1)] *)
Definition stack_pairs (p q : matrix) : outcome (list matrix) :=
  if same_shape p q
  then Returns (zip_with (fun x y => Matrix (ncols p) [x; y]) (rows p) (rows q))
  else Raises ValueError.

Definition to_visualizable_state (step : Z) (sim_state : SimState)
  : M VisualizableSimState :=
  let '(state, groups) := sim_state in
  do a <- get_matrix state;
  do ped_pos <- alloc (ONd (Arr2 (cols 0 2 a)));
  do a <- get_matrix state;
  do ped_vel <- alloc (ONd (Arr2 (cols 2 4 a)));
  do p <- get_matrix ped_pos;
  do v <- get_matrix ped_vel;
  do s <- lift (mat_add p v);
  do planes <- lift (stack_pairs p s);
  do actions <- alloc (ONd (Arr3 planes));
  ret (MkVisualizableSimState step ped_pos actions).

(** ** EnvState *)

Notation "'let?' x := c1 'in' c2" := (obind c1 (fun x => c2))
  (at level 10, x name, c1 at level 100, c2 at level 200).

Definition Line2D : Type := (R * R * R * R)%type.

(** [math.atan2] *)
Definition atan2 (y x : R) : R :=
  if Rlt_dec 0 x then atan (y / x)
  else if Rlt_dec x 0 then
         if Rle_dec 0 y then atan (y / x) + PI else atan (y / x) - PI
  else if Rlt_dec 0 y then PI / 2
  else if Rlt_dec y 0 then - (PI / 2)
  else 0.

(** [a % b] on floats, for a positive [b] *)
Definition py_mod (a b : R) : R := a - IZR (Int_part (a / b)) * b.

(** [int(x)]: truncation toward zero *)
Definition py_int (x : R) : Z :=
  if Rle_dec 0 x then Int_part x else (- Int_part (- x))%Z.

(** [np.linspace(start, stop, num)] *)
Definition linspace (start stop : R) (num : Z) : outcome (list R) :=
  if (num <? 0)%Z then Raises ValueError
  else
    let n := Z.to_nat num in
    let div := (num - 1)%Z in
    let delta := stop - start in
    let y := if (0 <? div)%Z
             then map (fun i => INR i * (delta / IZR div) + start) (seq 0 n)
             else map (fun i => INR i * delta + start) (seq 0 n) in
    Returns (if (1 <? num)%Z then <[(n - 1)%nat := stop]> y else y).

(** [np.array(l)] for a list [l] of rows of width [w]: an empty list gives the
    1-D array of shape (0,). *)
Definition np_array_rows (w : nat) (l : list (list R)) : ndarray :=
  match l with
  | [] => Arr1 []
  | _ => Arr2 (Matrix w l)
  end.

(** [np.zeros((n, w))] *)
Definition np_zeros (n w : nat) : matrix := Matrix w (repeat (repeat 0 w) n).

(** [a[:, lo:hi] = src].  A 1-D source of shape (k,) goes into each row when
    [k] is the width of the slice and fills the slice when [k = 1]; any other
    [k] cannot be broadcast. *)
Definition assign_cols (lo hi : nat) (a : matrix) (src : ndarray)
  : outcome matrix :=
  match src with
  | Arr2 d => set_cols lo hi a d
  | Arr1 v =>
      let w := ncols (cols lo hi a) in
      if (length v =? w)%nat
      then Returns (Matrix (ncols a)
                      (map (fun r => take lo r ++ v ++ drop hi r) (rows a)))
      else match v with
           | [x] => Returns (Matrix (ncols a)
                      (map (fun r => take lo r ++ repeat x w ++ drop hi r) (rows a)))
           | _ => Raises ValueError
           end
  | Arr3 _ => Raises ValueError
  end.

Record EnvState : Type := MkEnvState {
  _orig_obstacles : option (list Line2D);
  _resolution : R;
  _obstacles_linspace : list ndarray;
  _obstacles_raw : ndarray }.

Definition sample_line (resolution : R) (l : Line2D) : outcome ndarray :=
  let '(start_x, end_x, start_y, end_y) := l in
  let samples := py_int (norm [start_x - end_x; start_y - end_y] * resolution) in
  let? xs := linspace start_x end_x samples in
  let? ys := linspace start_y end_y samples in
  Returns (np_array_rows 2 (zip_with (fun x y => [x; y]) xs ys)).

Fixpoint sample_lines (resolution : R) (obs_lines : list Line2D)
  : outcome (list ndarray) :=
  match obs_lines with
  | [] => Returns []
  | l :: rest =>
      let? line := sample_line resolution l in
      let? obstacles := sample_lines resolution rest in
      Returns (line :: obstacles)
  end.

Definition _update_obstacles_linspace (resolution : R)
  (obs_lines : option (list Line2D)) : outcome (list ndarray) :=
  match obs_lines with
  | None => Returns []
  | Some obs_lines => sample_lines resolution obs_lines
  end.

Definition orient (line : Line2D) : R :=
  let '(start_x, end_x, start_y, end_y) := line in
  let vec_x := end_x - start_x in
  let vec_y := end_y - start_y in
  py_mod (atan2 vec_y vec_x + 2 * PI) (2 * PI).

Definition unit_vec (orient : R) : R * R := (cos orient, sin orient).

Definition _update_obstacles_raw (obs_lines : option (list Line2D))
  : outcome ndarray :=
  match obs_lines with
  | None => Returns (Arr1 [])
  | Some obs_lines =>
      let line_orients := map orient obs_lines in
      let ortho_orients := map (fun o => py_mod (o + PI / 2) (2 * PI)) line_orients in
      let ortho_vecs :=
        np_array_rows 2 (map (fun o => let '(c, s) := unit_vec o in [c; s])
                           ortho_orients) in
      let obstacles := np_zeros (length obs_lines) 6 in
      let? obstacles :=
        assign_cols 0 4 obstacles
          (np_array_rows 4
             (map (fun '(start_x, end_x, start_y, end_y) =>
                     [start_x; start_y; end_x; end_y]) obs_lines)) in
      let? obstacles := assign_cols 4 6 obstacles ortho_vecs in
      Returns (Arr2 obstacles)
  end.

Definition __post_init__ (_orig_obstacles : option (list Line2D))
  (_resolution : R) : outcome EnvState :=
  let? raw := _update_obstacles_raw _orig_obstacles in
  let? lin := _update_obstacles_linspace _resolution _orig_obstacles in
  Returns (MkEnvState _orig_obstacles _resolution lin raw).

(** The [obstacles] setter. *)
Definition set_obstacles (self : EnvState) (obstacles : option (list Line2D))
  : outcome EnvState :=
  let? raw := _update_obstacles_raw obstacles in
  let? lin := _update_obstacles_linspace (_resolution self) obstacles in
  Returns (MkEnvState obstacles (_resolution self) lin raw).

(** ** Further operations of [PedState] *)

Definition goal (self : PedState) : M matrix :=
  do st <- state self; do a <- get_matrix st; ret (cols 4 6 a).

Definition tau (self : PedState) : M matrix :=
  do st <- state self; do a <- get_matrix st; ret (cols 6 7 a).

(** ** The [obstacles] setter, statement by statement

    The setter assigns [_orig_obstacles] before it computes the two derived
    attributes, and each of these is assigned as soon as it is computed.  The
    result pairs the object as the setter leaves it with the exception that
    ended it, if any. *)
Definition set_obstacles_effect (self : EnvState)
  (obstacles : option (list Line2D)) : EnvState * option exn :=
  let self1 := MkEnvState obstacles (_resolution self)
                 (_obstacles_linspace self) (_obstacles_raw self) in
  match _update_obstacles_raw obstacles with
  | Raises e => (self1, Some e)
  | Returns raw =>
      let self2 := MkEnvState obstacles (_resolution self)
                     (_obstacles_linspace self) raw in
      match _update_obstacles_linspace (_resolution self) obstacles with
      | Raises e => (self2, Some e)
      | Returns lin => (MkEnvState obstacles (_resolution self) lin raw, None)
      end
  end.

(** ** SimulationView: scaling of a snapshot, and the event queue *)

(** [a *= k] for a scalar [k], on the array's contents *)
Definition nd_scale (a : ndarray) (k : R) : ndarray :=
  match a with
  | Arr1 v => Arr1 (map (fun x => x * k) v)
  | Arr2 m => Arr2 (scale_r m k)
  | Arr3 planes => Arr3 (map (fun m => scale_r m k) planes)
  end.

(** [a *= k] on the array behind a reference *)
Definition imul (l : loc) (k : R) : M unit :=
  fun h => match h !! l with
           | Some (ONd a) => Returns (tt, <[l := ONd (nd_scale a k)]> h)
           | _ => Raises TypeError
           end.

(** A 64-bit signed integer after an arithmetic operation of numpy. *)
Definition wrap64 (z : Z) : Z :=
  ((z + 2 ^ 63) mod 2 ^ 64 - 2 ^ 63)%Z.

(** The attributes of a [SimulationView] that its event handling and its
    scaling read and write; the pygame surfaces and the font are left out.
    [offset] is the two-entry integer array. *)
Record SimulationView : Type := MkSimulationView {
  width : R;
  height : R;
  scaling : R;
  ped_radius : R;
  size_changed : bool;
  is_exit_requested : bool;
  is_abortion_requested : bool;
  redraw_needed : bool;
  offset : Z * Z }.

(** The key constants and event types of pygame that the event loop tells
    apart; every other key is [K_other] and every other event [OtherEvent]. *)
Inductive key : Type :=
| K_PLUS | K_MINUS | K_LEFT | K_RIGHT | K_UP | K_DOWN | K_other.

Inductive event : Type :=
| QUIT
| VIDEORESIZE (w h : Z)
| KEYDOWN (k : key)
| OtherEvent.

Definition _scale_pedestrian_state (self : SimulationView)
  (state : VisualizableSimState) : M VisualizableSimState :=
  do _ <- imul (pedestrian_positions state) (scaling self);
  do _ <- imul (ped_actions state) (scaling self);
  ret state.

(** The body of the loop over [pygame.event.get()], for one event. *)
Definition process_event (self : SimulationView) (e : event) : SimulationView :=
  match e with
  | QUIT =>
      MkSimulationView (width self) (height self) (scaling self) (ped_radius self)
        (size_changed self) true true (redraw_needed self) (offset self)
  | VIDEORESIZE w h =>
      MkSimulationView (IZR w) (IZR h) (scaling self) (ped_radius self)
        true (is_exit_requested self) (is_abortion_requested self)
        (redraw_needed self) (offset self)
  | KEYDOWN k =>
      match k with
      | K_PLUS =>
          MkSimulationView (width self) (height self) (scaling self + 1)
            (ped_radius self) (size_changed self) (is_exit_requested self)
            (is_abortion_requested self) true (offset self)
      | K_MINUS =>
          let s := scaling self - 1 in
          MkSimulationView (width self) (height self)
            (if Rlt_dec s 1 then 1 else s)
            (ped_radius self) (size_changed self) (is_exit_requested self)
            (is_abortion_requested self) true (offset self)
      | K_LEFT =>
          MkSimulationView (width self) (height self) (scaling self)
            (ped_radius self) (size_changed self) (is_exit_requested self)
            (is_abortion_requested self) (redraw_needed self)
            (wrap64 (fst (offset self) - 10), snd (offset self))
      | K_RIGHT =>
          MkSimulationView (width self) (height self) (scaling self)
            (ped_radius self) (size_changed self) (is_exit_requested self)
            (is_abortion_requested self) (redraw_needed self)
            (wrap64 (fst (offset self) + 10), snd (offset self))
      | K_UP =>
          MkSimulationView (width self) (height self) (scaling self)
            (ped_radius self) (size_changed self) (is_exit_requested self)
            (is_abortion_requested self) (redraw_needed self)
            (fst (offset self), wrap64 (snd (offset self) - 10))
      | K_DOWN =>
          MkSimulationView (width self) (height self) (scaling self)
            (ped_radius self) (size_changed self) (is_exit_requested self)
            (is_abortion_requested self) (redraw_needed self)
            (fst (offset self), wrap64 (snd (offset self) + 10))
      | K_other => self
      end
  | OtherEvent => self
  end.

(** [_process_event_queue] over the batches that successive calls of
    [pygame.event.get()] return: a batch is handled whole, and the loop ends
    before the next batch once an exit was requested. *)
Fixpoint _process_event_queue (self : SimulationView) (batches : list (list event))
  : SimulationView :=
  match batches with
  | [] => self
  | batch :: rest =>
      if is_exit_requested self then self
      else _process_event_queue (fold_left process_event batch self) rest
  end.

(** ** float64 with its special values: the capping inside [step]

    [capped_velocity] divides by a speed that may be zero, and what float64
    gives for such a quotient (an infinity, or NaN) has no counterpart among
    the reals.  This module follows the arithmetic of [capped_velocity] and
    of [step] once more over float64 values with their special values.
    Finite values stay exact reals (no rounding, no overflow) and the two
    zeros are one value; a zero divisor counts as +0.0, which is what the
    only divisor of this code, a norm, can be.  The operations on the special
    values are those of IEEE 754, which numpy follows; a division by zero is
    a warning of numpy, not an exception.  Arrays are taken by their
    contents: the sharing of the state array is the subject of the model
    above. *)
Module F64.

Inductive t : Type :=
| Fin (x : R)
| PInf
| NInf
| NaN.

(** [a + b] *)
Definition add (a b : t) : t :=
  match a, b with
  | NaN, _ | _, NaN => NaN
  | Fin x, Fin y => Fin (x + y)
  | PInf, NInf | NInf, PInf => NaN
  | PInf, _ | _, PInf => PInf
  | NInf, _ | _, NInf => NInf
  end.

(** The infinity that a product or quotient with a finite operand [x] gives:
    NaN for zero, else [pos] or [neg] by the sign of [x]. *)
Definition signed (x : R) (pos neg : t) : t :=
  if Req_dec_T x 0 then NaN else if Rlt_dec 0 x then pos else neg.

(** [a * b] *)
Definition mul (a b : t) : t :=
  match a, b with
  | NaN, _ | _, NaN => NaN
  | Fin x, Fin y => Fin (x * y)
  | Fin x, PInf | PInf, Fin x => signed x PInf NInf
  | Fin x, NInf | NInf, Fin x => signed x NInf PInf
  | PInf, PInf | NInf, NInf => PInf
  | PInf, NInf | NInf, PInf => NInf
  end.

(** [a / b] *)
Definition div (a b : t) : t :=
  match a, b with
  | NaN, _ | _, NaN => NaN
  | Fin x, Fin y => if Req_dec_T y 0 then signed x PInf NInf else Fin (x / y)
  | Fin _, PInf | Fin _, NInf => Fin 0
  | PInf, Fin y => if Rlt_dec y 0 then NInf else PInf
  | NInf, Fin y => if Rlt_dec y 0 then PInf else NInf
  | PInf, PInf | PInf, NInf | NInf, PInf | NInf, NInf => NaN
  end.

(** [np.minimum(a, b)], which hands a NaN on *)
Definition minimum (a b : t) : t :=
  match a, b with
  | NaN, _ | _, NaN => NaN
  | NInf, _ | _, NInf => NInf
  | PInf, x | x, PInf => x
  | Fin x, Fin y => Fin (Rmin x y)
  end.

(** [np.sqrt(a)] *)
Definition sqrt (a : t) : t :=
  match a with
  | Fin x => if Rlt_dec x 0 then NaN else Fin (R_sqrt.sqrt x)
  | PInf => PInf
  | NInf | NaN => NaN
  end.

(** [a == 0] *)
Definition eq_zero (a : t) : bool :=
  match a with
  | Fin x => if Req_dec_T x 0 then true else false
  | _ => false
  end.

Record matrix : Type := Matrix { ncols : nat; rows : list (list t) }.

Definition nrows (m : matrix) : nat := length (rows m).

(** [r[lo:hi]] *)
Definition slice (lo hi : nat) (r : list t) : list t :=
  take (hi - lo) (drop lo r).

(** [a[:, lo:hi]] *)
Definition cols (lo hi : nat) (a : matrix) : matrix :=
  Matrix (Nat.min hi (ncols a) - lo) (map (slice lo hi) (rows a)).

Definition same_shape (a b : matrix) : bool :=
  (ncols a =? ncols b)%nat && (nrows a =? nrows b)%nat.

(** [a + b] *)
Definition mat_add (a b : matrix) : outcome matrix :=
  if same_shape a b
  then Returns (Matrix (ncols a) (zip_with (zip_with add) (rows a) (rows b)))
  else Raises ValueError.

(** [k * a] for a scalar [k] *)
Definition scale_l (k : t) (a : matrix) : matrix :=
  Matrix (ncols a) (map (map (fun x => mul k x)) (rows a)).

(** [a * k] for a scalar [k] *)
Definition scale_r (a : matrix) (k : t) : matrix :=
  Matrix (ncols a) (map (map (fun x => mul x k)) (rows a)).

Definition sum_sq (r : list t) : t :=
  fold_right (fun x acc => add (mul x x) acc) (Fin 0) r.

(** [np.linalg.norm] of one row *)
Definition norm (r : list t) : t := sqrt (sum_sq r).

(** [np.linalg.norm(a, axis=-1)] *)
Definition row_norms (a : matrix) : list t := map norm (rows a).

(** [a[:, lo:hi] += d], on the array's contents *)
Definition iadd_cols (lo hi : nat) (a d : matrix) : outcome matrix :=
  if same_shape (cols lo hi a) d
  then Returns (Matrix (ncols a)
         (zip_with (fun r dr => take lo r ++ zip_with add (slice lo hi r) dr ++ drop hi r)
                   (rows a) (rows d)))
  else Raises ValueError.

(** [a[:, lo:hi] = d], on the array's contents *)
Definition set_cols (lo hi : nat) (a d : matrix) : outcome matrix :=
  if same_shape (cols lo hi a) d
  then Returns (Matrix (ncols a)
         (zip_with (fun r dr => take lo r ++ dr ++ drop hi r) (rows a) (rows d)))
  else Raises ValueError.

Definition capped_velocity (desired_velocity : matrix) (max_velocity : list t)
  : outcome matrix :=
  let desired_speeds := row_norms desired_velocity in
  if (length max_velocity =? length desired_speeds)%nat
  then
    let factor := zip_with (fun m s => minimum (Fin 1) (div m s))
                    max_velocity desired_speeds in
    let factor := zip_with (fun f s => if eq_zero s then Fin 0 else f)
                    factor desired_speeds in
    Returns (Matrix (ncols desired_velocity)
               (zip_with (fun r f => map (fun x => mul x f) r)
                  (rows desired_velocity) factor))
  else Raises ValueError.

(** The array that [_update_state] stores for [state]: with the column of
    the default tau appended when it has fewer than 7 columns. *)
Definition _update_state (default_tau : t) (state : matrix) : matrix :=
  if (ncols state <? 7)%nat
  then Matrix (S (ncols state)) (map (fun r => r ++ [default_tau]) (rows state))
  else state.

(** [step], from the contents of [self.state] and the attributes it reads to
    the contents of [self.state] after the call. *)
Definition step (d_t default_tau : t) (max_speeds : list t)
  (state force : matrix) : outcome matrix :=
  let? desired_velocity := mat_add (cols 2 4 state) (scale_l d_t force) in
  let? desired_velocity := capped_velocity desired_velocity max_speeds in
  let? next_state := iadd_cols 0 2 state (scale_r desired_velocity d_t) in
  let? next_state := set_cols 2 4 next_state desired_velocity in
  Returns (_update_state default_tau next_state).

End F64.

(** * Vocabulary of the statements *)

(** The state with a column of [t] appended. *)
Definition pad_tau (a : matrix) (t : R) : matrix :=
  Matrix (S (ncols a)) (zip_with (fun r x => r ++ [x]) (rows a) (np_full (nrows a) t)).

(** The array that [_update_state] stores for an input [a], and where. *)
Definition stored_matrix (self : PedState) (a : matrix) : matrix :=
  if (ncols a <? 7)%nat then pad_tau a (default_tau self) else a.

Definition stored_loc (st : loc) (a : matrix) (h : heap) : loc :=
  if (ncols a <? 7)%nat then length h else st.

Definition stored_heap (self : PedState) (a : matrix) (h : heap) : heap :=
  if (ncols a <? 7)%nat then h ++ [ONd (Arr2 (pad_tau a (default_tau self)))] else h.

Definition anchored_speeds (self : PedState) (a : matrix) : list R :=
  match initial_speeds self with
  | Some v => v
  | None => row_norms (cols 2 4 (stored_matrix self a))
  end.

(** The object after [_update_state] has stored [a], found at [st]. *)
Definition assigned (self : PedState) (st : loc) (a : matrix) (h : heap)
  : PedState :=
  MkPedState (default_tau self) (d_t self) (agent_radius self)
    (max_speed_multiplier self)
    (Some (map (fun s => max_speed_multiplier self * s) (anchored_speeds self a)))
    (Some (anchored_speeds self a))
    (Some (stored_loc st a h)) (_groups self).

(** [self'] holds a reference to an array with contents [m]. *)
Definition stores (self' : PedState) (h' : heap) (m : matrix) : Prop :=
  exists l, _state self' = Some l /\ h' !! l = Some (ONd (Arr2 m)).

(** [self'] holds a reference to a group list with contents [gs]. *)
Definition groups_are (self' : PedState) (h' : heap) (gs : list Group) : Prop :=
  exists l, _groups self' = Some l /\ h' !! l = Some (OList gs).

Definition example_config : SceneConfig.t :=
  SceneConfig.Make (1 / 2) (1 / 10) (35 / 100) (13 / 10).

Definition blank (config : SceneConfig.t) : PedState :=
  MkPedState (SceneConfig.tau config) (SceneConfig.dt_secs config)
    (SceneConfig.agent_radius config) (SceneConfig.max_speed_multiplier config)
    None None None None.

(** The matrix that a state assignment keeps for an input [a] when the
    default relaxation time is [t]. *)
Definition kept (a : matrix) (t : R) : matrix :=
  if (ncols a <? 7)%nat
  then Matrix (S (ncols a)) (map (fun r => r ++ [t]) (rows a))
  else a.

Definition six_columns : matrix := Matrix 6 [[0; 0; 1; 0; 10; 0]].

Definition five_columns : matrix := Matrix 5 [[0; 0; 1; 0; 10]].

(** The objects that the class can produce: built by [__init__], then
    changed by [update] and [step] only, whatever happens to the heap between
    the calls. *)
Inductive constructed : PedState -> Prop :=
| constructed_init st g config h self h' :
    __init__ st g config h = Returns (self, h') -> constructed self
| constructed_update self st g h self' h' :
    constructed self -> update self st g h = Returns (self', h') ->
    constructed self'
| constructed_step self force g h self' h' :
    constructed self -> step self force g h = Returns (self', h') ->
    constructed self'.

Definition anchored (self : PedState) : Prop :=
  exists v, initial_speeds self = Some v /\
            max_speeds self = Some (map (fun s => max_speed_multiplier self * s) v).

(** The scenario of two agents used throughout the examples. *)
Definition two_agents : matrix :=
  Matrix 7 [[0; 0; 1; 0; 10; 0; 1 / 2]; [0; 0; 0; 1; 0; 10; 1 / 2]].

Definition two_agents_ped : PedState :=
  MkPedState (1 / 2) (1 / 10) (35 / 100) (13 / 10)
    (Some (map (fun s => 13 / 10 * s) (row_norms (cols 2 4 two_agents))))
    (Some (row_norms (cols 2 4 two_agents)))
    (Some 0%nat) (Some 1%nat).

Definition faster_agents : matrix :=
  Matrix 7 [[0; 0; 3; 4; 10; 0; 1 / 2]; [5; 5; 0; 2; 0; 10; 1 / 2]].

(** [k] is what a scan of [gs] for [index] gives: the position of the first
    group that contains [index], or -1 when no group does. *)
Definition first_group (gs : list Group) (index k : Z) : Prop :=
  (k = (-1)%Z /\ Forall (fun g => ~ In index g) gs) \/
  (exists (n : nat) (g : Group),
     k = Z.of_nat n /\ gs !! n = Some g /\ In index g /\
     Forall (fun g' => ~ In index g') (take n gs)).

(** One row of [capped_velocity]. *)
Definition cap_row (v : list R) (m : R) : list R :=
  map (fun x => x * (if Req_dec_T (norm v) 0 then 0 else Rmin 1 (m / norm v))) v.

(** One row of the state array after [step]. *)
Definition next_row (dt : R) (r f : list R) (m : R) : list R :=
  let d := cap_row (zip_with Rplus (slice 2 4 r) (map (fun x => dt * x) f)) m in
  let r1 := take 0 r ++ zip_with Rplus (slice 0 2 r) (map (fun x => x * dt) d)
              ++ drop 2 r in
  take 2 r1 ++ d ++ drop 4 r1.

Fixpoint next_rows (dt : R) (ra rf : list (list R)) (ms : list R)
  : list (list R) :=
  match ra, rf, ms with
  | r :: ra', f :: rf', m :: ms' => next_row dt r f m :: next_rows dt ra' rf' ms'
  | _, _, _ => []
  end.

Definition stepped (self : PedState) (a force : matrix) (ms : list R) : matrix :=
  Matrix (ncols a) (next_rows (d_t self) (rows a) (rows force) ms).

(** The scaling factor of [capped_velocity] for one agent. *)
Definition factor (v : list R) (m : R) : R :=
  if Req_dec_T (norm v) 0 then 0 else Rmin 1 (m / norm v).

(** Position and velocity of agent [i] in a state matrix. *)
Definition agent_pos (a : matrix) (i : nat) : option (list R) :=
  option_map (slice 0 2) (rows a !! i).

Definition agent_vel (a : matrix) (i : nat) : option (list R) :=
  option_map (slice 2 4) (rows a !! i).

Definition two_agents_heap : heap := [ONd (Arr2 two_agents); OList []].

(** A force that stops agent 0 within one step of 0.1 s. *)
Definition braking_force : matrix := Matrix 2 [[-10; 0]; [0; 0]].

Definition zero_force : matrix := Matrix 2 [[0; 0]; [0; 0]].

Definition two_agents_caps : list R :=
  map (fun s => 13 / 10 * s) (row_norms (cols 2 4 two_agents)).

(** Consecutive calls of [step], as the simulator's loop makes them: each call
    with its own force array and optional group list. *)
Fixpoint steps (self : PedState) (inputs : list (matrix * option loc))
  : M PedState :=
  match inputs with
  | [] => ret self
  | (force, g) :: rest => do self' <- step self force g; steps self' rest
  end.

(** The object holds a well-shaped state of [n] agents, and its caps are
    [mult] times the speeds [v] of the first assignment. *)
Definition shaped (n : nat) (v : list R) (mult : R) (self : PedState) (h : heap)
  : Prop :=
  exists st a gl,
    _state self = Some st /\ h !! st = Some (ONd (Arr2 a)) /\
    wf_matrix a /\ (4 <= ncols a)%nat /\ nrows a = n /\
    _groups self = Some gl /\
    initial_speeds self = Some v /\
    max_speeds self = Some (map (fun s => mult * s) v) /\
    length v = n /\ max_speed_multiplier self = mult.

(** Every agent's speed is at most its entry of [caps]. *)
Definition capped (caps : list R) (self : PedState) (h : heap) : Prop :=
  exists sp, speeds self h = Returns (sp, h) /\ Forall2 Rle sp caps.

Definition force_ok (n : nat) (input : matrix * option loc) : Prop :=
  wf_matrix (fst input) /\ ncols (fst input) = 2%nat /\ nrows (fst input) = n.

(** A computation that, when it returns, has only added objects to the heap
    and overwritten nothing except possibly the object at [st]. *)
Definition only_writes {A} (st : loc) (c : M A) : Prop :=
  forall h x h', c h = Returns (x, h') ->
    (length h <= length h')%nat /\
    forall l, l <> st -> (l < length h)%nat -> h' !! l = h !! l.

(** The segments from position to position plus velocity, one per agent. *)
Definition action_planes (a : matrix) : list matrix :=
  zip_with (fun x y => Matrix (ncols (cols 0 2 a)) [x; y])
    (rows (cols 0 2 a))
    (zip_with (zip_with Rplus) (rows (cols 0 2 a)) (rows (cols 2 4 a))).

(** [l.append(grp)] on a list of groups: the list object is changed in place. *)
Definition list_append (l : loc) (grp : Group) : M unit :=
  do gs <- get_list l;
  fun h => Returns (tt, <[l := OList (gs ++ [grp])]> h).

(** What the group part of a snapshot shows when it is read in heap [h]. *)
Definition snapshot_groups (h : heap) (snap : loc * list loc)
  : list (option (list Group)) :=
  map (fun l => match h !! l with
                | Some (OList gs) => Some gs
                | _ => None
                end) (snd snap).

(** The [i]-th of [n] points interpolated between [a] and [b]. *)
Definition interpolate (a b : R) (n i : nat) : R :=
  a + INR i * ((b - a) / INR (n - 1)).

(** The point cloud [cloud] of a line is [n] points with [n] the integer part
    of length times resolution, interpolated between the end points. *)
Definition cloud_of (resolution : R) (l : Line2D) (cloud : ndarray) : Prop :=
  let '(start_x, end_x, start_y, end_y) := l in
  let len := norm [start_x - end_x; start_y - end_y] in
  exists (n : nat) (pts : list (list R)),
    cloud = np_array_rows 2 pts /\
    length pts = n /\
    INR n <= len * resolution < INR n + 1 /\
    (forall i, (i < n)%nat ->
       exists x y, pts !! i = Some [x; y] /\
                   x = interpolate start_x end_x n i /\
                   y = interpolate start_y end_y n i) /\
    (len = 0 -> cloud = Arr1 []).

(** The angle of the orthogonal vector of a line with direction angle [t]. *)
Definition ortho_angle (t : R) : R :=
  py_mod (py_mod (t + 2 * PI) (2 * PI) + PI / 2) (2 * PI).

(** The descriptor row of one line. *)
Definition descriptor (l : Line2D) : list R :=
  let '(start_x, end_x, start_y, end_y) := l in
  let theta := ortho_angle (atan2 (end_y - start_y) (end_x - start_x)) in
  [start_x; start_y; end_x; end_y; cos theta; sin theta].

(** [row] is the descriptor of the line [l]: its end points in the order
    start_x, start_y, end_x, end_y, then the unit vector at the angle of the
    line's direction turned by a quarter, which is perpendicular to the line. *)
Definition descriptor_of (l : Line2D) (row : list R) : Prop :=
  let '(start_x, end_x, start_y, end_y) := l in
  let theta :=
    py_mod (py_mod (atan2 (end_y - start_y) (end_x - start_x) + 2 * PI) (2 * PI)
            + PI / 2) (2 * PI) in
  row = [start_x; start_y; end_x; end_y; cos theta; sin theta] /\
  cos theta * cos theta + sin theta * sin theta = 1 /\
  (end_x - start_x) * cos theta + (end_y - start_y) * sin theta = 0.

(** The object holds, at [st], a state [a] of [n] agents with at least four
    columns, a group list, and speed caps derived from the first speeds [v]. *)
Definition running (n : nat) (v : list R) (self : PedState) (h : heap)
  (st : loc) (a : matrix) : Prop :=
  _state self = Some st /\ h !! st = Some (ONd (Arr2 a)) /\
  (4 <= ncols a)%nat /\ nrows a = n /\
  (exists gl, _groups self = Some gl) /\
  initial_speeds self = Some v /\ length v = n /\
  max_speeds self = Some (map (fun s => max_speed_multiplier self * s) v).

(** A force array of shape (n, 2), with an optional group list. *)
Definition force_shape (n : nat) (input : matrix * option loc) : Prop :=
  ncols (fst input) = 2%nat /\ nrows (fst input) = n.

(** A state of three agents. *)
Definition three_agents : matrix :=
  Matrix 7 [[0; 0; 1; 0; 10; 0; 1 / 2]; [0; 0; 0; 1; 0; 10; 1 / 2];
            [1; 1; 0; 0; 5; 5; 1 / 2]].

Definition three_zero_forces : matrix := Matrix 2 [[0; 0]; [0; 0]; [0; 0]].

(** A row after [k] steps of length [dt] at constant velocity. *)
Definition drift (dt : R) (k : nat) (r : list R) : list R :=
  match r with
  | px :: py :: vx :: vy :: rest =>
      (px + INR k * dt * vx) :: (py + INR k * dt * vy) :: vx :: vy :: rest
  | _ => r
  end.

(** [k] steps with a zero force for each of [n] agents and no group list. *)
Definition coasting (n k : nat) : list (matrix * option loc) :=
  repeat (Matrix 2 (repeat [0; 0] n), None) k.

(** An environment without obstacles, as [EnvState(None)] builds it. *)
Definition empty_env : EnvState := MkEnvState None 10 [] (Arr1 []).

(** A view with the default attributes of the class. *)
Definition default_view : SimulationView :=
  MkSimulationView 1200 800 15 (4 / 10) false false false false (0%Z, 0%Z).

(** An offset entry is a 64-bit signed integer. *)
Definition int64 (z : Z) : Prop := (- 2 ^ 63 <= z < 2 ^ 63)%Z.

(** A real matrix as an array of finite float64 values. *)
Definition finite (a : matrix) : F64.matrix :=
  F64.Matrix (ncols a) (map (map F64.Fin) (rows a)).

(** Two agents with seven columns each: agent 0 is at rest at the origin,
    agent 1 moves with speed 1; their caps for a multiplier of 1.3. *)
Definition resting_agents : F64.matrix :=
  finite (Matrix 7 [[0; 0; 0; 0; 10; 0; 1 / 2]; [0; 0; 0; 1; 0; 10; 1 / 2]]).

Definition resting_caps : list F64.t := [F64.Fin 0; F64.Fin (13 / 10)].

Definition no_force : F64.matrix := finite (Matrix 2 [[0; 0]; [0; 0]]).

(** * Properties *)

(** ** The monad *)

Lemma bind_Returns {A B} (x : M A) (f : A -> M B) h b h' :
  bind x f h = Returns (b, h') ->
  exists a h1, x h = Returns (a, h1) /\ f a h1 = Returns (b, h').
Proof.
  unfold bind. destruct (x h) as [[a h1]|e]; [|discriminate].
  intros E. exists a, h1. split; [reflexivity|exact E].
Qed.

Lemma bind_eval {A B} (x : M A) (f : A -> M B) h a h1 :
  x h = Returns (a, h1) -> bind x f h = f a h1.
Proof. unfold bind. intros ->. reflexivity. Qed.

Lemma get_matrix_eval l h a :
  h !! l = Some (ONd (Arr2 a)) -> get_matrix l h = Returns (a, h).
Proof. unfold get_matrix. intros ->. reflexivity. Qed.

Lemma get_matrix_Returns l h a h' :
  get_matrix l h = Returns (a, h') -> h !! l = Some (ONd (Arr2 a)) /\ h' = h.
Proof.
  unfold get_matrix.
  destruct (h !! l) as [[[v|m|p]|gs]|]; try discriminate.
  intros E. inversion E. subst. split; reflexivity.
Qed.

(** ** Shapes *)

Lemma concat_col_full a t :
  concat_col a (np_full (nrows a) t) = Returns (pad_tau a t).
Proof.
  unfold concat_col, np_full. rewrite repeat_length, Nat.eqb_refl. reflexivity.
Qed.

Lemma zip_with_repeat_r {A B C} (f : A -> B -> C) (l : list A) (x : B) :
  zip_with f l (repeat x (length l)) = map (fun a => f a x) l.
Proof. induction l as [|a l IH]; simpl; [reflexivity|]. rewrite IH. reflexivity. Qed.

Lemma rows_pad_tau a t : rows (pad_tau a t) = map (fun r => r ++ [t]) (rows a).
Proof.
  unfold pad_tau, np_full, nrows. simpl.
  exact (zip_with_repeat_r (fun r x => r ++ [x]) (rows a) t).
Qed.

Lemma stored_lookup self st a h :
  h !! st = Some (ONd (Arr2 a)) ->
  stored_heap self a h !! stored_loc st a h = Some (ONd (Arr2 (stored_matrix self a))).
Proof.
  intros H. unfold stored_heap, stored_loc, stored_matrix.
  destruct (ncols a <? 7)%nat; [|exact H].
  rewrite lookup_app_r by lia. rewrite Nat.sub_diag. reflexivity.
Qed.

Lemma _update_state_eval self st h a :
  h !! st = Some (ONd (Arr2 a)) ->
  _update_state self st h = Returns (assigned self st a h, stored_heap self a h).
Proof.
  intros Hst. unfold _update_state.
  rewrite (bind_eval _ _ _ _ _ (get_matrix_eval _ _ _ Hst)).
  pose proof (stored_lookup self st a h Hst) as Hl.
  unfold assigned, anchored_speeds, stored_loc, stored_heap, stored_matrix in *.
  destruct (ncols a <? 7)%nat.
  - unfold bind at 1. unfold bind at 1. unfold lift.
    rewrite concat_col_full. unfold alloc.
    destruct (initial_speeds self) as [v|] eqn:Ei;
      cbv [bind speeds vel state attr ret with_state with_initial_speeds get_matrix];
      simpl; rewrite ?Ei, ?Hl; simpl; rewrite ?Ei; reflexivity.
  - unfold bind at 1. unfold ret at 1.
    destruct (initial_speeds self) as [v|] eqn:Ei;
      cbv [bind speeds vel state attr ret with_state with_initial_speeds get_matrix];
      simpl; rewrite ?Ei, ?Hl; simpl; rewrite ?Ei; reflexivity.
Qed.

Lemma _update_state_Returns self st h self' h' :
  _update_state self st h = Returns (self', h') ->
  exists a, h !! st = Some (ONd (Arr2 a)).
Proof.
  unfold _update_state. intros H.
  apply bind_Returns in H as (a & h1 & Hg & _).
  apply get_matrix_Returns in Hg as [Hg _]. exists a. exact Hg.
Qed.

Lemma update_eval self st g h a :
  h !! st = Some (ONd (Arr2 a)) ->
  update self st g h =
  match g with
  | Some l => Returns (with_groups (assigned self st a h) l, stored_heap self a h)
  | None => Returns (with_groups (assigned self st a h) (length (stored_heap self a h)),
                     stored_heap self a h ++ [OList []])
  end.
Proof.
  intros Hst. unfold update.
  rewrite (bind_eval _ _ _ _ _ (_update_state_eval self st h a Hst)).
  destruct g; reflexivity.
Qed.

Lemma update_Returns self st g h self' h' :
  update self st g h = Returns (self', h') ->
  exists a, h !! st = Some (ONd (Arr2 a)).
Proof.
  unfold update. intros H.
  apply bind_Returns in H as (s1 & h1 & H1 & _).
  eapply _update_state_Returns; exact H1.
Qed.

Lemma lookup_snoc_old {A} (h : list A) (x : A) (l : nat) (o : A) :
  h !! l = Some o -> (h ++ [x]) !! l = Some o.
Proof. intros H. apply lookup_app_l_Some. exact H. Qed.

Lemma update_stores self st g h a :
  h !! st = Some (ONd (Arr2 a)) ->
  exists self' h', update self st g h = Returns (self', h') /\
    stores self' h' (stored_matrix self a) /\
    initial_speeds self' = Some (anchored_speeds self a) /\
    max_speeds self' =
      Some (map (fun s => max_speed_multiplier self * s) (anchored_speeds self a)) /\
    default_tau self' = default_tau self /\ d_t self' = d_t self /\
    agent_radius self' = agent_radius self /\
    max_speed_multiplier self' = max_speed_multiplier self.
Proof.
  intros Hst. rewrite (update_eval self st g h a Hst).
  pose proof (stored_lookup self st a h Hst) as Hl.
  destruct g as [l|]; eexists; eexists; (split; [reflexivity|]);
    (split; [|repeat split]); exists (stored_loc st a h); simpl;
    (split; [reflexivity|]); auto using lookup_snoc_old.
Qed.

Lemma pad_tau_rows a t :
  pad_tau a t = Matrix (S (ncols a)) (map (fun r => r ++ [t]) (rows a)).
Proof.
  pose proof (rows_pad_tau a t) as H. unfold pad_tau in *. simpl in H.
  rewrite H. reflexivity.
Qed.

(** ** State assignment: shape contract *)

Lemma __init___unfold st g config :
  __init__ st g config = update (blank config) st g.
Proof. reflexivity. Qed.

Lemma stored_matrix_kept self a : stored_matrix self a = kept a (default_tau self).
Proof.
  unfold stored_matrix, kept. destruct (ncols a <? 7)%nat; [|reflexivity].
  apply pad_tau_rows.
Qed.

Lemma update_keeps self st g h a :
  h !! st = Some (ONd (Arr2 a)) ->
  exists self' h', update self st g h = Returns (self', h') /\
    stores self' h' (kept a (default_tau self)) /\
    ((7 <= ncols a)%nat -> _state self' = Some st).
Proof.
  intros Hst. rewrite (update_eval self st g h a Hst).
  pose proof (stored_lookup self st a h Hst) as Hl.
  rewrite stored_matrix_kept in Hl.
  assert (Hloc : (7 <= ncols a)%nat -> Some (stored_loc st a h) = Some st).
  { intros H7. unfold stored_loc.
    destruct (Nat.ltb_spec (ncols a) 7); [lia|reflexivity]. }
  destruct g as [l|]; eexists; eexists; (split; [reflexivity|]); split;
    try exact Hloc; exists (stored_loc st a h); simpl;
    (split; [reflexivity|]); auto using lookup_snoc_old.
Qed.

(** C5 (as amended): a state assignment, at construction and at every update,
    never fails on a two-dimensional matrix.  A matrix with fewer than 7
    columns, 6 in particular, is kept with one more column that holds the
    configured default tau in every row; a matrix with 7 or more columns is
    kept as it is, the very array the caller passed. *)
Theorem state_assignment_shape
  (self : PedState) (config : SceneConfig.t) (st : loc) (g : option loc)
  (h : heap) (a : matrix) :
  h !! st = Some (ONd (Arr2 a)) ->
  (exists self' h', update self st g h = Returns (self', h') /\
     stores self' h' (kept a (default_tau self)) /\
     ((7 <= ncols a)%nat -> _state self' = Some st)) /\
  (exists self' h', __init__ st g config h = Returns (self', h') /\
     stores self' h' (kept a (SceneConfig.tau config)) /\
     ((7 <= ncols a)%nat -> _state self' = Some st)) /\
  ((ncols a = 6)%nat ->
   forall t, kept a t = Matrix 7 (map (fun r => r ++ [t]) (rows a))) /\
  ((7 <= ncols a)%nat -> forall t, kept a t = a).
Proof.
  intros Hst. split; [|split; [|split]].
  - apply update_keeps. exact Hst.
  - rewrite __init___unfold.
    apply (update_keeps (blank config) st g h a Hst).
  - intros H6 t. unfold kept. rewrite H6. reflexivity.
  - intros H7 t. unfold kept.
    destruct (Nat.ltb_spec (ncols a) 7); [lia|reflexivity].
Qed.

Lemma state_assignment_shape_witness :
  (exists self' h',
     update (blank example_config) 0%nat None [ONd (Arr2 six_columns)]
       = Returns (self', h') /\
     stores self' h' (kept six_columns (1 / 2)) /\
     ((7 <= 6)%nat -> _state self' = Some 0%nat)) /\
  (exists self' h',
     __init__ 0%nat None example_config [ONd (Arr2 six_columns)]
       = Returns (self', h') /\
     stores self' h' (kept six_columns (1 / 2)) /\
     ((7 <= 6)%nat -> _state self' = Some 0%nat)) /\
  ((6 = 6)%nat ->
   forall t, kept six_columns t
             = Matrix 7 (map (fun r => r ++ [t]) (rows six_columns))) /\
  ((7 <= 6)%nat -> forall t, kept six_columns t = six_columns).
Proof.
  apply (state_assignment_shape (blank example_config) example_config 0%nat None
           [ONd (Arr2 six_columns)] six_columns).
  reflexivity.
Defined.

(** C5 (as stated) fails: a matrix with 5 columns, neither 6 nor at least 7,
    is accepted at construction; no failure is raised, and the object keeps
    the matrix with a tau column appended, 6 columns in all. *)
Lemma state_assignment_shape_counterexample :
  ncols five_columns <> 6%nat /\ ~ (7 <= ncols five_columns)%nat /\
  exists self' h',
    __init__ 0%nat None example_config [ONd (Arr2 five_columns)]
      = Returns (self', h') /\
    stores self' h' (Matrix 6 [[0; 0; 1; 0; 10; 1 / 2]]).
Proof.
  split; [simpl; lia|]. split; [simpl; lia|].
  rewrite __init___unfold.
  rewrite (update_eval (blank example_config) 0%nat None
             [ONd (Arr2 five_columns)] five_columns eq_refl).
  eexists; eexists. split; [reflexivity|].
  exists 1%nat. split; reflexivity.
Qed.

(** ** Anchoring of the speed caps *)

Lemma step_is_update self force g h self' h' :
  step self force g h = Returns (self', h') ->
  exists st l h1, update self st (Some l) h1 = Returns (self', h').
Proof.
  unfold step. intros H.
  do 8 (apply bind_Returns in H as (? & ? & _ & H)).
  eauto.
Qed.

Lemma update_anchored self st g h self' h' :
  update self st g h = Returns (self', h') -> anchored self'.
Proof.
  intros H. destruct (update_Returns _ _ _ _ _ _ H) as [a Ha].
  destruct (update_stores self st g h a Ha) as (s & h2 & E & _ & Hi & Hm & _ & _ & _ & Hk).
  rewrite E in H. inversion H; subst.
  exists (anchored_speeds self a). rewrite Hk. split; assumption.
Qed.

Lemma constructed_anchored self : constructed self -> anchored self.
Proof.
  intros H. destruct H as [st g config h self h' H|self st g h self' h' _ H|self force g h self' h' _ H].
  - rewrite __init___unfold in H. eapply update_anchored; exact H.
  - eapply update_anchored; exact H.
  - apply step_is_update in H as (st & l & h1 & H).
    eapply update_anchored; exact H.
Qed.

Lemma update_frame self st g h a :
  anchored self ->
  h !! st = Some (ONd (Arr2 a)) ->
  exists self' h', update self st g h = Returns (self', h') /\
    initial_speeds self' = initial_speeds self /\
    max_speeds self' = max_speeds self /\
    stores self' h' (kept a (default_tau self)) /\
    match g with
    | Some l => _groups self' = Some l
    | None => groups_are self' h' []
    end /\
    default_tau self' = default_tau self /\ d_t self' = d_t self /\
    agent_radius self' = agent_radius self /\
    max_speed_multiplier self' = max_speed_multiplier self.
Proof.
  intros (v & Hi & Hm) Hst. rewrite (update_eval self st g h a Hst).
  pose proof (stored_lookup self st a h Hst) as Hl.
  rewrite stored_matrix_kept in Hl.
  assert (Ha : anchored_speeds self a = v).
  { unfold anchored_speeds. rewrite Hi. reflexivity. }
  destruct g as [l|]; eexists; eexists; (split; [reflexivity|]); simpl;
    rewrite Ha, Hi, Hm; repeat split; try reflexivity.
  - exists (stored_loc st a h). split; [reflexivity|exact Hl].
  - exists (stored_loc st a h). split; [reflexivity|].
    apply lookup_snoc_old. exact Hl.
  - exists (length (stored_heap self a h)). split; [reflexivity|].
    rewrite lookup_app_r by lia. rewrite Nat.sub_diag. reflexivity.
Qed.

(** C4: once [__init__] has made the first state assignment, every later call
    of [update], whatever matrix and groups it is given, returns with
    [initial_speeds] and [max_speeds] holding the values they held before the
    call (and they are set, not [None]).  The call replaces the state and the
    groups and leaves the configuration attributes alone. *)
Theorem update_keeps_anchor
  (self : PedState) (st : loc) (g : option loc) (h : heap) (a : matrix) :
  constructed self ->
  h !! st = Some (ONd (Arr2 a)) ->
  exists self' h', update self st g h = Returns (self', h') /\
    initial_speeds self <> None /\ max_speeds self <> None /\
    initial_speeds self' = initial_speeds self /\
    max_speeds self' = max_speeds self /\
    stores self' h' (kept a (default_tau self)) /\
    match g with
    | Some l => _groups self' = Some l
    | None => groups_are self' h' []
    end /\
    default_tau self' = default_tau self /\ d_t self' = d_t self /\
    agent_radius self' = agent_radius self /\
    max_speed_multiplier self' = max_speed_multiplier self.
Proof.
  intros Hc Hst. pose proof (constructed_anchored self Hc) as Han.
  destruct (update_frame self st g h a Han Hst) as (s & h2 & E & Hi & Hm & Hrest).
  destruct Han as (v & Hv & Hmv).
  exists s, h2. split; [exact E|].
  split; [rewrite Hv; discriminate|].
  split; [rewrite Hmv; discriminate|].
  split; [exact Hi|]. split; [exact Hm|]. exact Hrest.
Qed.

Lemma two_agents_init :
  __init__ 0%nat None example_config [ONd (Arr2 two_agents)]
  = Returns (two_agents_ped, [ONd (Arr2 two_agents); OList []]).
Proof. reflexivity. Qed.

Lemma update_keeps_anchor_witness :
  exists self' h',
    update two_agents_ped 2%nat None
      [ONd (Arr2 two_agents); OList []; ONd (Arr2 faster_agents)]
      = Returns (self', h') /\
    initial_speeds two_agents_ped <> None /\ max_speeds two_agents_ped <> None /\
    initial_speeds self' = initial_speeds two_agents_ped /\
    max_speeds self' = max_speeds two_agents_ped /\
    stores self' h' (kept faster_agents (default_tau two_agents_ped)) /\
    groups_are self' h' [] /\
    default_tau self' = default_tau two_agents_ped /\
    d_t self' = d_t two_agents_ped /\
    agent_radius self' = agent_radius two_agents_ped /\
    max_speed_multiplier self' = max_speed_multiplier two_agents_ped.
Proof.
  apply (update_keeps_anchor two_agents_ped 2%nat None
           [ONd (Arr2 two_agents); OList []; ONd (Arr2 faster_agents)]
           faster_agents).
  - exact (constructed_init 0%nat None example_config [ONd (Arr2 two_agents)]
             two_agents_ped _ two_agents_init).
  - reflexivity.
Defined.

(** ** Groups *)

Lemma existsb_eqb_In (index : Z) (g : Group) :
  existsb (Z.eqb index) g = true <-> In index g.
Proof.
  rewrite existsb_exists. split.
  - intros (x & Hx & E). apply Z.eqb_eq in E. subst. exact Hx.
  - intros H. exists index. split; [exact H|apply Z.eqb_refl].
Qed.

Lemma which_group_from_spec (gs : list Group) (index : Z) :
  forall i : Z,
    (which_group_from i gs index = (-1)%Z /\ Forall (fun g => ~ In index g) gs) \/
    (exists (n : nat) (g : Group),
       which_group_from i gs index = (i + Z.of_nat n)%Z /\ gs !! n = Some g /\
       In index g /\ Forall (fun g' => ~ In index g') (take n gs)).
Proof.
  induction gs as [|g gs IH]; intros i; simpl.
  - left. split; [reflexivity|constructor].
  - destruct (existsb (Z.eqb index) g) eqn:E.
    + right. exists 0%nat, g. apply existsb_eqb_In in E.
      repeat split; [lia|exact E|constructor].
    + assert (Hn : ~ In index g).
      { intros Hin. apply existsb_eqb_In in Hin. congruence. }
      destruct (IH (i + 1)%Z) as [[E1 Hall]|(n & g' & E1 & Hl & Hin & Hall)].
      * left. split; [exact E1|constructor; assumption].
      * right. exists (S n), g'. repeat split; try assumption.
        -- rewrite E1. lia.
        -- simpl. constructor; assumption.
Qed.

Lemma which_group_eval self l gs index h :
  _groups self = Some l -> h !! l = Some (OList gs) ->
  which_group self index h = Returns (which_group_from 0 gs index, h).
Proof.
  intros Hg Hl. unfold which_group, groups, attr, bind, ret, get_list.
  rewrite Hg. simpl. rewrite Hl. reflexivity.
Qed.

Lemma update_groups self st g h self' h' :
  update self st g h = Returns (self', h') ->
  match g with
  | Some l => _groups self' = Some l
  | None => groups_are self' h' []
  end.
Proof.
  intros H. destruct (update_Returns _ _ _ _ _ _ H) as [a Ha].
  rewrite (update_eval self st g h a Ha) in H.
  destruct g as [l|]; inversion H; subst; simpl; [reflexivity|].
  exists (length (stored_heap self a h)). split; [reflexivity|].
  rewrite lookup_app_r by lia. rewrite Nat.sub_diag. reflexivity.
Qed.

(** C10: when [None] is given as the group list, at construction or through
    [update], the object holds the empty list, not [None], and [which_group]
    answers -1 for every index.  When a list is given, the object holds that
    list, and [which_group] answers the position of the first group in it that
    contains the index (-1 when none does). *)
Theorem none_groups_and_which_group
  (self : PedState) (config : SceneConfig.t) (st : loc) (g : option loc)
  (h : heap) (self' : PedState) (h' : heap) :
  update self st g h = Returns (self', h') \/
  __init__ st g config h = Returns (self', h') ->
  match g with
  | None =>
      groups_are self' h' [] /\
      forall index, which_group self' index h' = Returns ((-1)%Z, h')
  | Some l =>
      _groups self' = Some l /\
      forall gs index,
        h' !! l = Some (OList gs) ->
        exists k, which_group self' index h' = Returns (k, h') /\
                  first_group gs index k
  end.
Proof.
  intros H.
  assert (Hg : match g with
               | Some l => _groups self' = Some l
               | None => groups_are self' h' []
               end).
  { destruct H as [H|H]; [|rewrite __init___unfold in H];
      eapply update_groups; exact H. }
  destruct g as [l|].
  - split; [exact Hg|]. intros gs index Hl.
    exists (which_group_from 0 gs index).
    split; [apply (which_group_eval self' l gs index h' Hg Hl)|].
    destruct (which_group_from_spec gs index 0) as [Hs|(n & g' & E & Hs)].
    + left. exact Hs.
    + right. exists n, g'. split; [rewrite E; lia|exact Hs].
  - split; [exact Hg|]. intros index.
    destruct Hg as (l & Hg & Hl).
    apply (which_group_eval self' l [] index h' Hg Hl).
Qed.

Lemma none_groups_and_which_group_witness :
  groups_are two_agents_ped [ONd (Arr2 two_agents); OList []] [] /\
  forall index,
    which_group two_agents_ped index [ONd (Arr2 two_agents); OList []]
    = Returns ((-1)%Z, [ONd (Arr2 two_agents); OList []]).
Proof.
  apply (none_groups_and_which_group (blank example_config) example_config
           0%nat None [ONd (Arr2 two_agents)] two_agents_ped
           [ONd (Arr2 two_agents); OList []]).
  right. reflexivity.
Defined.

Example which_group_first_match :
  which_group_from 0 [[0; 1]; [2]; [2; 1]]%Z 2 = 1%Z /\
  which_group_from 0 [[0; 1]; [2]]%Z 5 = (-1)%Z /\
  which_group_from 0 [[0; 1]; [2]; [2; 1]]%Z 1 = 0%Z.
Proof. repeat split. Qed.

(** ** One integration step *)

Lemma length_next_rows dt ra : forall rf ms,
  length rf = length ra -> length ms = length ra ->
  length (next_rows dt ra rf ms) = length ra.
Proof.
  induction ra as [|r ra IH]; intros [|f rf] [|m ms]; simpl; intros; try lia.
  rewrite IH; lia.
Qed.

Lemma capped_rows ra : forall ms,
  zip_with (fun r f => map (fun x => x * f) r) ra
    (zip_with (fun f s => if Req_dec_T s 0 then 0 else f)
       (zip_with (fun m s => Rmin 1 (m / s)) ms (map norm ra)) (map norm ra))
  = zip_with cap_row ra ms.
Proof.
  induction ra as [|r ra IH]; intros [|m ms]; simpl; try reflexivity.
  rewrite IH. reflexivity.
Qed.

Lemma capped_velocity_eval d ms :
  length ms = nrows d ->
  capped_velocity d ms = Returns (Matrix (ncols d) (zip_with cap_row (rows d) ms)).
Proof.
  intros H. unfold capped_velocity, row_norms.
  rewrite length_map. fold (nrows d). rewrite H, Nat.eqb_refl.
  rewrite capped_rows. reflexivity.
Qed.

Lemma same_shape_true a b :
  ncols a = ncols b -> nrows a = nrows b -> same_shape a b = true.
Proof.
  intros H1 H2. unfold same_shape. rewrite H1, H2, !Nat.eqb_refl. reflexivity.
Qed.

Lemma step_rows dt ra : forall rf ms,
  zip_with (fun r dr => take 2 r ++ dr ++ drop 4 r)
    (zip_with (fun r dr => take 0 r ++ zip_with Rplus (slice 0 2 r) dr ++ drop 2 r)
       ra
       (map (map (fun x => x * dt))
          (zip_with cap_row
             (zip_with (zip_with Rplus) (map (slice 2 4) ra)
                (map (map (fun x => dt * x)) rf)) ms)))
    (zip_with cap_row
       (zip_with (zip_with Rplus) (map (slice 2 4) ra)
          (map (map (fun x => dt * x)) rf)) ms)
  = next_rows dt ra rf ms.
Proof.
  induction ra as [|r ra IH]; intros [|f rf] [|m ms]; try reflexivity.
  cbn [map zip_with next_rows]. rewrite IH. reflexivity.
Qed.

Lemma bind_lift {A B} (x : outcome A) (f : A -> M B) h a :
  x = Returns a -> bind (lift x) f h = f a h.
Proof. intros ->. reflexivity. Qed.

Lemma vel_eval self st a h :
  _state self = Some st -> h !! st = Some (ONd (Arr2 a)) ->
  vel self h = Returns (cols 2 4 a, h).
Proof.
  intros Hs Hl. unfold vel, state, attr, bind, ret, get_matrix.
  rewrite Hs. simpl. rewrite Hl. reflexivity.
Qed.

Lemma modify_matrix_eval l f h a a' :
  h !! l = Some (ONd (Arr2 a)) -> f a = Returns a' ->
  modify_matrix l f h = Returns (tt, <[l := ONd (Arr2 a')]> h).
Proof.
  intros Hl Hf. unfold modify_matrix.
  rewrite (bind_eval _ _ _ _ _ (get_matrix_eval _ _ _ Hl)).
  rewrite (bind_lift _ _ _ _ Hf). reflexivity.
Qed.

(** The array operations of [step] succeed at the shapes the simulator uses,
    and the state array is overwritten in place with [next_rows]; the call
    then goes through [update] with the same array. *)
Lemma step_eval self force g h st a ms :
  _state self = Some st -> h !! st = Some (ONd (Arr2 a)) ->
  max_speeds self = Some ms ->
  (4 <= ncols a)%nat -> ncols force = 2%nat -> nrows force = nrows a ->
  length ms = nrows a ->
  step self force g h
  = bind (match g with Some l => ret l | None => groups self end)
      (fun next_groups => update self st (Some next_groups))
      (<[st := ONd (Arr2 (Matrix (ncols a)
                            (next_rows (d_t self) (rows a) (rows force) ms)))]> h).
Proof.
  intros Hs Hl Hms Hc Hf Hn Hm. unfold step.
  rewrite (bind_eval _ _ _ _ _ (vel_eval self st a h Hs Hl)).
  assert (E1 : mat_add (cols 2 4 a) (scale_l (d_t self) force)
               = Returns (Matrix (ncols (cols 2 4 a))
                   (zip_with (zip_with Rplus) (rows (cols 2 4 a))
                      (rows (scale_l (d_t self) force))))).
  { unfold mat_add. rewrite same_shape_true; [reflexivity| |].
    - cbn [ncols cols scale_l]. lia.
    - unfold nrows. cbn [rows cols scale_l]. rewrite !length_map.
      exact (eq_sym Hn). }
  assert (E2 : length ms
               = nrows (Matrix (ncols (cols 2 4 a))
                   (zip_with (zip_with Rplus) (rows (cols 2 4 a))
                      (rows (scale_l (d_t self) force))))).
  { unfold nrows in *. cbn [rows cols scale_l].
    rewrite length_zip_with, !length_map. lia. }
  rewrite (bind_lift _ _ _ _ E1). rewrite Hms.
  rewrite (bind_eval (ret ms) _ h ms h eq_refl).
  rewrite (bind_lift _ _ _ _ (capped_velocity_eval _ ms E2)).
  unfold state at 1. rewrite Hs.
  rewrite (bind_eval (attr (Some st)) _ h st h eq_refl).
  cbn [ncols rows cols scale_l].
  erewrite (bind_eval (modify_matrix st _) _ h tt); cycle 1.
  { eapply modify_matrix_eval; [exact Hl|]. unfold iadd_cols.
    rewrite same_shape_true; [reflexivity| |].
    - cbn [ncols cols scale_r]. lia.
    - unfold nrows in *. cbn [rows cols scale_r].
      rewrite !length_map, !length_zip_with, !length_map. lia. }
  pose proof (lookup_lt_Some _ _ _ Hl) as Hlt.
  erewrite (bind_eval (modify_matrix st _) _ _ tt); cycle 1.
  { eapply modify_matrix_eval.
    - apply list_lookup_insert_eq. exact Hlt.
    - unfold set_cols. rewrite same_shape_true; [reflexivity| |].
      + cbn [ncols cols]. lia.
      + unfold nrows in *. cbn [rows cols scale_r].
        rewrite !length_map, !length_zip_with, !length_map, !length_zip_with,
          !length_map. lia. }
  rewrite list_insert_insert_eq.
  cbn [ncols rows scale_r]. rewrite step_rows. reflexivity.
Qed.

Lemma step_stores self force g h st a ms gl :
  _state self = Some st -> h !! st = Some (ONd (Arr2 a)) ->
  max_speeds self = Some ms ->
  match g with Some l => Some l | None => _groups self end = Some gl ->
  (4 <= ncols a)%nat -> ncols force = 2%nat -> nrows force = nrows a ->
  length ms = nrows a ->
  exists self' h', step self force g h = Returns (self', h') /\
    stores self' h' (kept (stepped self a force ms) (default_tau self)) /\
    initial_speeds self' = Some (anchored_speeds self (stepped self a force ms)) /\
    max_speeds self' =
      Some (map (fun s => max_speed_multiplier self * s)
              (anchored_speeds self (stepped self a force ms))) /\
    _groups self' = Some gl /\
    default_tau self' = default_tau self /\ d_t self' = d_t self /\
    agent_radius self' = agent_radius self /\
    max_speed_multiplier self' = max_speed_multiplier self.
Proof.
  intros Hs Hl Hms Hg Hc Hf Hn Hm.
  rewrite (step_eval self force g h st a ms Hs Hl Hms Hc Hf Hn Hm).
  fold (stepped self a force ms).
  set (h2 := <[st := ONd (Arr2 (stepped self a force ms))]> h).
  assert (Hl2 : h2 !! st = Some (ONd (Arr2 (stepped self a force ms)))).
  { apply list_lookup_insert_eq. eapply lookup_lt_Some. exact Hl. }
  assert (Eg : (match g with Some l => ret l | None => groups self end) h2
               = Returns (gl, h2)).
  { destruct g as [l|].
    - inversion Hg. reflexivity.
    - unfold groups. rewrite Hg. reflexivity. }
  rewrite (bind_eval _ _ _ _ _ Eg).
  rewrite (update_eval self st (Some gl) h2 _ Hl2).
  pose proof (stored_lookup self st _ h2 Hl2) as Hst.
  rewrite stored_matrix_kept in Hst.
  eexists; eexists. split; [reflexivity|]. simpl.
  split; [exists (stored_loc st (stepped self a force ms) h2); split;
          [reflexivity|exact Hst]|].
  repeat split; reflexivity.
Qed.

Lemma lookup_next_rows dt ra : forall rf ms i r f m,
  ra !! i = Some r -> rf !! i = Some f -> ms !! i = Some m ->
  next_rows dt ra rf ms !! i = Some (next_row dt r f m).
Proof.
  induction ra as [|r0 ra IH]; intros [|f0 rf] [|m0 ms] [|i] r f m;
    simpl; intros H1 H2 H3; try discriminate.
  - inversion H1; inversion H2; inversion H3; subst. reflexivity.
  - apply IH; assumption.
Qed.

Lemma lookup_map_Some {A B} (f : A -> B) (l : list A) i x :
  l !! i = Some x -> map f l !! i = Some (f x).
Proof.
  revert i. induction l as [|y l IH]; intros [|i]; simpl; intros H;
    try discriminate.
  - inversion H. reflexivity.
  - apply IH. exact H.
Qed.

(** The rows of the matrix a state assignment keeps. *)
Lemma lookup_kept a t i r :
  rows a !! i = Some r ->
  rows (kept a t) !! i = Some (if (ncols a <? 7)%nat then r ++ [t] else r).
Proof.
  intros H. unfold kept. destruct (ncols a <? 7)%nat; [|exact H].
  simpl. apply (lookup_map_Some (fun r => r ++ [t])). exact H.
Qed.

Lemma cap_row_factor v m : cap_row v m = map (fun x => x * factor v m) v.
Proof. reflexivity. Qed.

Lemma next_row_shape dt px py vx vy rest fx fy m :
  next_row dt (px :: py :: vx :: vy :: rest) [fx; fy] m
  = let c := factor [vx + dt * fx; vy + dt * fy] m in
    (px + (vx + dt * fx) * c * dt) :: (py + (vy + dt * fy) * c * dt)
      :: ((vx + dt * fx) * c) :: ((vy + dt * fy) * c) :: rest.
Proof. reflexivity. Qed.

(** Row [i] of the array that [step] leaves in the object. *)
Lemma stepped_row self a force ms i px py vx vy rest fx fy m :
  rows a !! i = Some (px :: py :: vx :: vy :: rest) ->
  rows force !! i = Some [fx; fy] ->
  ms !! i = Some m ->
  let desired_velocity := [vx + d_t self * fx; vy + d_t self * fy] in
  let capped := cap_row desired_velocity m in
  rows (kept (stepped self a force ms) (default_tau self)) !! i
  = Some (zip_with Rplus [px; py] (map (fun x => x * d_t self) capped)
            ++ capped
            ++ (if (ncols a <? 7)%nat then rest ++ [default_tau self] else rest)).
Proof.
  intros Hr Hfr Hmi.
  pose proof (lookup_next_rows (d_t self) _ _ _ _ _ _ _ Hr Hfr Hmi) as Hrow.
  rewrite next_row_shape in Hrow.
  pose proof (lookup_kept (stepped self a force ms) (default_tau self) i _ Hrow) as Hk.
  cbn zeta in *. rewrite Hk. cbn [stepped ncols].
  destruct (ncols a <? 7)%nat; reflexivity.
Qed.

(** What one call of [step] does to agent [i]. *)
Lemma step_agent self force g h st a ms gl i px py vx vy rest fx fy m :
  _state self = Some st -> h !! st = Some (ONd (Arr2 a)) ->
  max_speeds self = Some ms ->
  match g with Some l => Some l | None => _groups self end = Some gl ->
  (4 <= ncols a)%nat -> ncols force = 2%nat -> nrows force = nrows a ->
  length ms = nrows a ->
  rows a !! i = Some (px :: py :: vx :: vy :: rest) ->
  rows force !! i = Some [fx; fy] ->
  ms !! i = Some m ->
  exists self' h' a', step self force g h = Returns (self', h') /\
    stores self' h' a' /\
    let desired_velocity := [vx + d_t self * fx; vy + d_t self * fy] in
    let capped := cap_row desired_velocity m in
    rows a' !! i
    = Some (zip_with Rplus [px; py] (map (fun x => x * d_t self) capped)
              ++ capped
              ++ (if (ncols a <? 7)%nat then rest ++ [default_tau self] else rest)).
Proof.
  intros Hs Hl Hms Hg Hc Hf Hn Hm Hr Hfr Hmi.
  destruct (step_stores self force g h st a ms gl Hs Hl Hms Hg Hc Hf Hn Hm)
    as (self' & h' & E & Hst & _).
  exists self', h', (kept (stepped self a force ms) (default_tau self)).
  split; [exact E|]. split; [exact Hst|].
  apply stepped_row; assumption.
Qed.

Lemma step_keeps_anchor self force g h self' h' :
  anchored self -> step self force g h = Returns (self', h') ->
  initial_speeds self' = initial_speeds self /\
  max_speeds self' = max_speeds self.
Proof.
  intros Han H. apply step_is_update in H as (st & l & h1 & H).
  destruct (update_Returns _ _ _ _ _ _ H) as [a Ha].
  destruct (update_frame self st (Some l) h1 a Han Ha)
    as (s & h2 & E & Hi & Hm & _).
  rewrite E in H. inversion H; subst. split; assumption.
Qed.

(** ** Norms and the cap *)

Lemma sum_sq_nonneg r : 0 <= sum_sq r.
Proof.
  induction r as [|x r IH]; simpl; [lra|].
  pose proof (Rle_0_sqr x) as Hx. unfold Rsqr in Hx. lra.
Qed.

Lemma norm_nonneg r : 0 <= norm r.
Proof. apply sqrt_pos. Qed.

Lemma sum_sq_scale r f : sum_sq (map (fun x => x * f) r) = f * f * sum_sq r.
Proof. induction r as [|x r IH]; simpl; [ring|]. rewrite IH. ring. Qed.

Lemma norm_scale r f : norm (map (fun x => x * f) r) = Rabs f * norm r.
Proof.
  unfold norm. rewrite sum_sq_scale.
  rewrite sqrt_mult_alt by (pose proof (Rle_0_sqr f) as H; unfold Rsqr in H; exact H).
  fold (Rsqr f). rewrite sqrt_Rsqr_abs. reflexivity.
Qed.

Lemma factor_zero v m : norm v = 0 -> factor v m = 0.
Proof.
  intros H. unfold factor. destruct (Req_dec_T (norm v) 0); [reflexivity|contradiction].
Qed.

Lemma factor_range v m : 0 <= m -> 0 <= factor v m <= 1.
Proof.
  intros Hm. unfold factor. destruct (Req_dec_T (norm v) 0) as [|Hn]; [lra|].
  pose proof (norm_nonneg v) as H0.
  assert (0 <= m / norm v).
  { apply Rmult_le_pos; [exact Hm|]. left. apply Rinv_0_lt_compat. lra. }
  unfold Rmin. destruct (Rle_dec 1 (m / norm v)); lra.
Qed.

(** The capped speed never exceeds a non-negative cap. *)
Lemma norm_cap_row_le v m : 0 <= m -> norm (cap_row v m) <= m.
Proof.
  intros Hm. rewrite cap_row_factor, norm_scale.
  pose proof (factor_range v m Hm) as [Hf0 Hf1].
  rewrite Rabs_pos_eq by exact Hf0.
  unfold factor in *. destruct (Req_dec_T (norm v) 0) as [E|Hn]; [lra|].
  pose proof (norm_nonneg v) as H0.
  assert (Hpos : 0 < norm v) by lra.
  apply Rle_trans with (m / norm v * norm v).
  - apply Rmult_le_compat_r; [lra|]. apply Rmin_r.
  - right. field. lra.
Qed.

Lemma norm_pair x y : norm [x; y] = sqrt (x * x + y * y).
Proof. unfold norm, sum_sq. simpl. f_equal. ring. Qed.

(** ** Zero desired speed *)

Lemma F64_add_finite a b z :
  F64.add a b = F64.Fin z -> exists x y, a = F64.Fin x /\ b = F64.Fin y /\ z = x + y.
Proof.
  destruct a as [x| | |], b as [y| | |]; simpl; intros H; try discriminate.
  inversion H. exists x, y. repeat split.
Qed.

Lemma F64_mul_finite a b z :
  F64.mul a b = F64.Fin z -> exists x y, a = F64.Fin x /\ b = F64.Fin y /\ z = x * y.
Proof.
  destruct a as [x| | |], b as [y| | |]; simpl; unfold F64.signed; intros H;
    repeat match type of H with
           | context [Req_dec_T ?u ?v] => destruct (Req_dec_T u v)
           | context [Rlt_dec ?u ?v] => destruct (Rlt_dec u v)
           end; try discriminate.
  inversion H. exists x, y. repeat split.
Qed.

Lemma F64_sum_sq_finite r : forall s,
  F64.sum_sq r = F64.Fin s -> 0 <= s /\ (s = 0 -> Forall (fun x => x = F64.Fin 0) r).
Proof.
  induction r as [|a r IH]; intros s H; simpl in H.
  - inversion H. split; [lra|]. intros _. constructor.
  - apply F64_add_finite in H. destruct H as (u & s' & Hu & Hs & ->).
    apply F64_mul_finite in Hu. destruct Hu as (x & x' & Hx & Hx' & ->).
    subst a. inversion Hx'; subst x'.
    destruct (IH s' Hs) as [Hpos Hzero].
    pose proof (Rle_0_sqr x) as Hsq. unfold Rsqr in Hsq.
    split; [lra|]. intros H0.
    assert (x * x = 0) by lra. assert (s' = 0) by lra.
    constructor; [|apply Hzero; assumption].
    f_equal. destruct (Rmult_integral _ _ H); assumption.
Qed.

(** A row of norm zero holds zeros only. *)
Lemma F64_norm_zero r :
  F64.norm r = F64.Fin 0 -> Forall (fun x => x = F64.Fin 0) r.
Proof.
  unfold F64.norm. intros H.
  destruct (F64.sum_sq r) as [s| | |] eqn:E; simpl in H; try discriminate.
  destruct (Rlt_dec s 0); [discriminate|]. injection H as H0.
  destruct (F64_sum_sq_finite r s E) as [Hpos Hzero].
  apply Hzero. apply sqrt_eq_0; assumption.
Qed.

Lemma F64_eq_zero_zero : F64.eq_zero (F64.Fin 0) = true.
Proof. simpl. destruct (Req_dec_T 0 0); [reflexivity|contradiction]. Qed.

(** What [capped_velocity] makes of one row. *)
Lemma F64_capped_row (dv : F64.matrix) (ms : list F64.t) (i : nat)
  (r : list F64.t) (m : F64.t) :
  length ms = F64.nrows dv ->
  F64.rows dv !! i = Some r -> ms !! i = Some m ->
  exists dv', F64.capped_velocity dv ms = Returns dv' /\
    F64.ncols dv' = F64.ncols dv /\ F64.nrows dv' = F64.nrows dv /\
    F64.rows dv' !! i
    = Some (map (fun x => F64.mul x
                   (if F64.eq_zero (F64.norm r) then F64.Fin 0
                    else F64.minimum (F64.Fin 1) (F64.div m (F64.norm r)))) r).
Proof.
  intros Hm Hr Hmi. unfold F64.capped_velocity, F64.row_norms, F64.nrows in *.
  rewrite length_map, Hm, Nat.eqb_refl.
  eexists. split; [reflexivity|]. cbn [F64.ncols F64.rows].
  split; [reflexivity|]. split.
  - rewrite !length_zip_with, !length_map. lia.
  - rewrite !lookup_zip_with, Hr, Hmi, (lookup_map_Some F64.norm _ _ _ Hr).
    reflexivity.
Qed.

(** What [step] makes of one agent: the row of agent [i] in the state after
    the call, from its row before, its force and its cap. *)
Lemma F64_step_row (d_t default_tau : F64.t) (max_speeds : list F64.t)
  (state force : F64.matrix) (i : nat) (px py vx vy : F64.t)
  (rest : list F64.t) (fx fy m : F64.t) :
  (4 <= F64.ncols state)%nat -> F64.ncols force = 2%nat ->
  F64.nrows force = F64.nrows state -> length max_speeds = F64.nrows state ->
  F64.rows state !! i = Some (px :: py :: vx :: vy :: rest) ->
  F64.rows force !! i = Some [fx; fy] ->
  max_speeds !! i = Some m ->
  let dvx := F64.add vx (F64.mul d_t fx) in
  let dvy := F64.add vy (F64.mul d_t fy) in
  let f := if F64.eq_zero (F64.norm [dvx; dvy]) then F64.Fin 0
           else F64.minimum (F64.Fin 1) (F64.div m (F64.norm [dvx; dvy])) in
  exists state',
    F64.step d_t default_tau max_speeds state force = Returns state' /\
    F64.rows state' !! i
    = Some (F64.add px (F64.mul (F64.mul dvx f) d_t)
            :: F64.add py (F64.mul (F64.mul dvy f) d_t)
            :: F64.mul dvx f :: F64.mul dvy f
            :: (if (F64.ncols state <? 7)%nat then rest ++ [default_tau] else rest)).
Proof.
  intros Hc Hf Hn Hm Hr Hfr Hmi dvx dvy f.
  destruct state as [c rs], force as [cf frs].
  unfold F64.nrows in *. cbn [F64.ncols F64.rows] in *. subst cf.
  set (dv := zip_with (zip_with F64.add) (map (F64.slice 2 4) rs)
               (map (map (fun x => F64.mul d_t x)) frs)).
  assert (Ldv : length dv = length rs).
  { unfold dv. rewrite length_zip_with, !length_map. lia. }
  assert (Hdv : dv !! i = Some [dvx; dvy]).
  { unfold dv. rewrite lookup_zip_with,
      (lookup_map_Some (F64.slice 2 4) _ _ _ Hr),
      (lookup_map_Some (map (fun x => F64.mul d_t x)) _ _ _ Hfr). reflexivity. }
  assert (E1 : F64.mat_add (F64.cols 2 4 (F64.Matrix c rs))
                 (F64.scale_l d_t (F64.Matrix 2 frs))
               = Returns (F64.Matrix 2 dv)).
  { unfold F64.mat_add, F64.same_shape, F64.cols, F64.scale_l, F64.nrows.
    cbn [F64.ncols F64.rows]. rewrite !length_map.
    replace (Nat.min 4 c - 2)%nat with 2%nat by lia.
    rewrite Hn, !Nat.eqb_refl. reflexivity. }
  destruct (F64_capped_row (F64.Matrix 2 dv) max_speeds i [dvx; dvy] m)
    as ([c2 cv] & E2 & Hc2 & Ln2 & Hcv).
  { unfold F64.nrows. cbn [F64.rows]. lia. }
  { exact Hdv. }
  { exact Hmi. }
  unfold F64.nrows in Ln2. cbn [F64.ncols F64.rows] in Hc2, Ln2, Hcv. subst c2.
  fold f in Hcv. cbn [map] in Hcv.
  set (moved := zip_with
         (fun r dr => take 0 r ++ zip_with F64.add (F64.slice 0 2 r) dr ++ drop 2 r)
         rs (map (map (fun x => F64.mul x d_t)) cv)).
  assert (E3 : F64.iadd_cols 0 2 (F64.Matrix c rs)
                 (F64.scale_r (F64.Matrix 2 cv) d_t)
               = Returns (F64.Matrix c moved)).
  { unfold F64.iadd_cols, F64.same_shape, F64.cols, F64.scale_r, F64.nrows.
    cbn [F64.ncols F64.rows]. rewrite !length_map.
    replace (Nat.min 2 c - 0)%nat with 2%nat by lia.
    rewrite Ln2, Ldv, !Nat.eqb_refl. reflexivity. }
  assert (Lmoved : length moved = length rs).
  { unfold moved. rewrite length_zip_with, length_map. lia. }
  assert (Hmoved : moved !! i
                   = Some (F64.add px (F64.mul (F64.mul dvx f) d_t)
                           :: F64.add py (F64.mul (F64.mul dvy f) d_t)
                           :: vx :: vy :: rest)).
  { unfold moved. rewrite lookup_zip_with, Hr,
      (lookup_map_Some (map (fun x => F64.mul x d_t)) _ _ _ Hcv). reflexivity. }
  set (next := zip_with (fun r dr => take 2 r ++ dr ++ drop 4 r) moved cv).
  assert (E4 : F64.set_cols 2 4 (F64.Matrix c moved) (F64.Matrix 2 cv)
               = Returns (F64.Matrix c next)).
  { unfold F64.set_cols, F64.same_shape, F64.cols, F64.nrows.
    cbn [F64.ncols F64.rows]. rewrite !length_map.
    replace (Nat.min 4 c - 2)%nat with 2%nat by lia.
    rewrite Lmoved, Ln2, Ldv, !Nat.eqb_refl. reflexivity. }
  assert (Hnext : next !! i
                  = Some (F64.add px (F64.mul (F64.mul dvx f) d_t)
                          :: F64.add py (F64.mul (F64.mul dvy f) d_t)
                          :: F64.mul dvx f :: F64.mul dvy f :: rest)).
  { unfold next. rewrite lookup_zip_with, Hmoved, Hcv. reflexivity. }
  exists (F64._update_state default_tau (F64.Matrix c next)). split.
  - unfold F64.step. rewrite E1. cbn [obind]. rewrite E2. cbn [obind].
    rewrite E3. cbn [obind]. rewrite E4. reflexivity.
  - unfold F64._update_state. cbn [F64.ncols F64.rows].
    destruct (c <? 7)%nat; cbn [F64.rows].
    + apply (lookup_map_Some (fun r => r ++ [default_tau]) _ _ _ Hnext).
    + exact Hnext.
Qed.

Lemma F64_sum_sq_Fin r : F64.sum_sq (map F64.Fin r) = F64.Fin (sum_sq r).
Proof.
  induction r as [|x r IH]; simpl; [reflexivity|]. rewrite IH. reflexivity.
Qed.

Lemma F64_norm_Fin r : F64.norm (map F64.Fin r) = F64.Fin (norm r).
Proof.
  unfold F64.norm, norm. rewrite F64_sum_sq_Fin. simpl.
  destruct (Rlt_dec (sum_sq r) 0) as [H|H]; [|reflexivity].
  pose proof (sum_sq_nonneg r). lra.
Qed.

Lemma F64_capped_rows_Fin rs : forall ms,
  zip_with (fun r f => map (fun x => F64.mul x f) r) (map (map F64.Fin) rs)
    (zip_with (fun f s => if F64.eq_zero s then F64.Fin 0 else f)
       (zip_with (fun m s => F64.minimum (F64.Fin 1) (F64.div m s))
          (map F64.Fin ms) (map F64.norm (map (map F64.Fin) rs)))
       (map F64.norm (map (map F64.Fin) rs)))
  = map (map F64.Fin)
      (zip_with (fun r f => map (fun x => x * f) r) rs
         (zip_with (fun f s => if Req_dec_T s 0 then 0 else f)
            (zip_with (fun m s => Rmin 1 (m / s)) ms (map norm rs))
            (map norm rs))).
Proof.
  induction rs as [|r rs IH]; intros [|m ms]; try reflexivity.
  cbn [map zip_with]. rewrite IH. f_equal.
  rewrite F64_norm_Fin. cbn [F64.eq_zero F64.div].
  destruct (Req_dec_T (norm r) 0) as [E|E].
  - rewrite !map_map. apply map_ext. intros x. reflexivity.
  - cbn [F64.minimum]. rewrite !map_map. apply map_ext. intros x. reflexivity.
Qed.

(** The finite values of the module are those of the model over the reals:
    on finite arrays the two versions of [capped_velocity] agree, and the
    result is finite again. *)
Lemma capped_velocity_on_finite (d : matrix) (ms : list R) :
  F64.capped_velocity (finite d) (map F64.Fin ms)
  = match capped_velocity d ms with
    | Returns d' => Returns (finite d')
    | Raises e => Raises e
    end.
Proof.
  unfold F64.capped_velocity, capped_velocity, F64.row_norms, row_norms, finite.
  cbn [F64.ncols F64.rows]. rewrite !length_map.
  destruct (length ms =? length (rows d))%nat; [|reflexivity].
  cbn [ncols rows]. rewrite F64_capped_rows_Fin. reflexivity.
Qed.

(** The quotient alone would not do: for a cap that is zero or negative, the
    factor before the speed-zero entries are set to 0 turns a zero velocity
    into NaN. *)
Lemma quotient_at_rest_gives_nan (c : R) :
  c <= 0 ->
  F64.mul (F64.Fin 0)
    (F64.minimum (F64.Fin 1) (F64.div (F64.Fin c) (F64.Fin 0))) = F64.NaN.
Proof.
  intros Hc. cbn [F64.div]. destruct (Req_dec_T 0 0) as [_|N]; [|contradiction].
  unfold F64.signed. destruct (Req_dec_T c 0) as [E|E]; [reflexivity|].
  destruct (Rlt_dec 0 c) as [L|L]; [lra|].
  cbn [F64.minimum F64.mul]. unfold F64.signed.
  destruct (Req_dec_T 0 0) as [_|N]; [reflexivity|contradiction].
Qed.

(** C3: over float64 with its infinities and NaN, take an agent whose desired
    velocity (its velocity plus [d_t] times its force) has norm exactly zero.
    Whatever its maximal speed is (zero, negative, infinite and NaN included)
    and whatever the other agents do, [capped_velocity] returns the velocity
    (0, 0) for it, and after [step] its velocity is exactly (0, 0), a finite
    value, and its position is where it was. *)
Theorem zero_desired_speed_gives_zero_velocity
  (d_t default_tau : F64.t) (max_speeds : list F64.t)
  (state force : F64.matrix) (i : nat) (px py vx vy : F64.t)
  (rest : list F64.t) (fx fy m : F64.t) :
  (4 <= F64.ncols state)%nat -> F64.ncols force = 2%nat ->
  F64.nrows force = F64.nrows state -> length max_speeds = F64.nrows state ->
  F64.rows state !! i = Some (px :: py :: vx :: vy :: rest) ->
  F64.rows force !! i = Some [fx; fy] ->
  max_speeds !! i = Some m ->
  F64.norm [F64.add vx (F64.mul d_t fx); F64.add vy (F64.mul d_t fy)]
  = F64.Fin 0 ->
  (forall desired_velocity : F64.matrix,
      F64.nrows desired_velocity = length max_speeds ->
      F64.rows desired_velocity !! i
      = Some [F64.add vx (F64.mul d_t fx); F64.add vy (F64.mul d_t fy)] ->
      exists capped,
        F64.capped_velocity desired_velocity max_speeds = Returns capped /\
        F64.rows capped !! i = Some [F64.Fin 0; F64.Fin 0]) /\
  exists state',
    F64.step d_t default_tau max_speeds state force = Returns state' /\
    F64.rows state' !! i
    = Some (px :: py :: F64.Fin 0 :: F64.Fin 0
            :: (if (F64.ncols state <? 7)%nat then rest ++ [default_tau]
                else rest)).
Proof.
  intros Hc Hf Hn Hm Hr Hfr Hmi Hz.
  pose proof (F64_norm_zero _ Hz) as Hall.
  inversion Hall as [|? ? Hx Hall']; subst.
  inversion Hall' as [|? ? Hy _]; subst.
  assert (Hdt : exists dt, d_t = F64.Fin dt).
  { destruct (F64_add_finite _ _ _ Hx) as (? & u & _ & Hu & _).
    destruct (F64_mul_finite _ _ _ Hu) as (dt & ? & Hdt & _). exists dt. exact Hdt. }
  destruct Hdt as [dt Hdt].
  split.
  - intros dv Hlen Hrow.
    destruct (F64_capped_row dv max_speeds i _ m (eq_sym Hlen) Hrow Hmi)
      as (capped & E & _ & _ & Hcap).
    exists capped. split; [exact E|].
    rewrite Hcap, Hz, F64_eq_zero_zero, Hx, Hy. cbn [map F64.mul].
    repeat f_equal; ring.
  - destruct (F64_step_row d_t default_tau max_speeds state force i
                px py vx vy rest fx fy m Hc Hf Hn Hm Hr Hfr Hmi)
      as (state' & E & Hrow).
    exists state'. split; [exact E|].
    cbn zeta in Hrow. rewrite Hz, F64_eq_zero_zero, Hx, Hy in Hrow.
    rewrite Hrow, Hdt. cbn [F64.mul].
    assert (Hadd : forall p, F64.add p (F64.Fin (0 * 0 * dt)) = p).
    { intros [p| | |]; cbn [F64.add]; try reflexivity. f_equal. ring. }
    rewrite !Hadd. repeat f_equal; ring.
Qed.

Lemma resting_speed_zero :
  F64.norm [F64.add (F64.Fin 0) (F64.mul (F64.Fin (1 / 10)) (F64.Fin 0));
            F64.add (F64.Fin 0) (F64.mul (F64.Fin (1 / 10)) (F64.Fin 0))]
  = F64.Fin 0.
Proof.
  unfold F64.norm. simpl.
  destruct (Rlt_dec _ 0) as [H|H]; [lra|]. f_equal.
  replace ((0 + 1 / 10 * 0) * (0 + 1 / 10 * 0)
           + ((0 + 1 / 10 * 0) * (0 + 1 / 10 * 0) + 0)) with 0 by lra.
  apply sqrt_0.
Qed.

Lemma zero_desired_speed_gives_zero_velocity_witness :
  (forall desired_velocity : F64.matrix,
      F64.nrows desired_velocity = length resting_caps ->
      F64.rows desired_velocity !! 0%nat
      = Some [F64.add (F64.Fin 0) (F64.mul (F64.Fin (1 / 10)) (F64.Fin 0));
              F64.add (F64.Fin 0) (F64.mul (F64.Fin (1 / 10)) (F64.Fin 0))] ->
      exists capped,
        F64.capped_velocity desired_velocity resting_caps = Returns capped /\
        F64.rows capped !! 0%nat = Some [F64.Fin 0; F64.Fin 0]) /\
  exists state',
    F64.step (F64.Fin (1 / 10)) (F64.Fin (1 / 2)) resting_caps
      resting_agents no_force = Returns state' /\
    F64.rows state' !! 0%nat
    = Some [F64.Fin 0; F64.Fin 0; F64.Fin 0; F64.Fin 0;
            F64.Fin 10; F64.Fin 0; F64.Fin (1 / 2)].
Proof.
  apply (zero_desired_speed_gives_zero_velocity (F64.Fin (1 / 10))
           (F64.Fin (1 / 2)) resting_caps resting_agents no_force 0%nat
           (F64.Fin 0) (F64.Fin 0) (F64.Fin 0) (F64.Fin 0)
           [F64.Fin 10; F64.Fin 0; F64.Fin (1 / 2)]
           (F64.Fin 0) (F64.Fin 0) (F64.Fin 0)); try reflexivity.
  - simpl. lia.
  - exact resting_speed_zero.
Defined.

(** ** The integration step *)

Lemma norm_unit_x : norm [1 + 1 / 10 * 0; 0 + 1 / 10 * 0] = 1.
Proof.
  rewrite norm_pair.
  replace ((1 + 1 / 10 * 0) * (1 + 1 / 10 * 0) + (0 + 1 / 10 * 0) * (0 + 1 / 10 * 0))
    with 1 by lra.
  apply sqrt_1.
Qed.

Lemma norm_unit_y : norm [0 + 1 / 10 * 0; 1 + 1 / 10 * 0] = 1.
Proof.
  rewrite norm_pair.
  replace ((0 + 1 / 10 * 0) * (0 + 1 / 10 * 0) + (1 + 1 / 10 * 0) * (1 + 1 / 10 * 0))
    with 1 by lra.
  apply sqrt_1.
Qed.

Lemma norm_e1 : norm [1; 0] = 1.
Proof.
  rewrite norm_pair. replace (1 * 1 + 0 * 0) with 1 by lra. apply sqrt_1.
Qed.

Lemma norm_e2 : norm [0; 1] = 1.
Proof.
  rewrite norm_pair. replace (0 * 0 + 1 * 1) with 1 by lra. apply sqrt_1.
Qed.

Lemma factor_one v m : norm v = 1 -> 1 <= m -> factor v m = 1.
Proof.
  intros Hn Hm. unfold factor. rewrite Hn.
  destruct (Req_dec_T 1 0); [lra|].
  unfold Rmin. destruct (Rle_dec 1 (m / 1)); [reflexivity|].
  exfalso. apply n0. lra.
Qed.

(** C2: one call of [step] takes, for every agent, the desired velocity
    [velocity + d_t * force], scales it by the factor of [capped_velocity] for
    the agent's entry of [max_speeds] (which the call leaves as it was), puts
    the result in the velocity columns and adds [d_t] times the result to the
    position columns; the other columns of the row stay.  In the scenario of
    two agents with dt = 0.1, a multiplier of at least 1 and zero force, one
    step leaves agent 0 at (0.1, 0) with velocity (1, 0) and agent 1 at
    (0, 0.1). *)
Theorem step_integrates :
  (forall (self : PedState) (force : matrix) (g : option loc) (h : heap)
          (st : loc) (a : matrix) (ms : list R) (gl : loc) (i : nat)
          (px py vx vy : R) (rest : list R) (fx fy m : R),
      constructed self ->
      _state self = Some st -> h !! st = Some (ONd (Arr2 a)) ->
      max_speeds self = Some ms ->
      match g with Some l => Some l | None => _groups self end = Some gl ->
      (4 <= ncols a)%nat -> ncols force = 2%nat -> nrows force = nrows a ->
      length ms = nrows a ->
      rows a !! i = Some (px :: py :: vx :: vy :: rest) ->
      rows force !! i = Some [fx; fy] ->
      ms !! i = Some m ->
      exists self' h' a', step self force g h = Returns (self', h') /\
        stores self' h' a' /\
        max_speeds self' = Some ms /\
        let desired_velocity := [vx + d_t self * fx; vy + d_t self * fy] in
        let capped :=
          map (fun x => x * (if Req_dec_T (norm desired_velocity) 0 then 0
                             else Rmin 1 (m / norm desired_velocity)))
            desired_velocity in
        agent_vel a' i = Some capped /\
        agent_pos a' i
        = Some (zip_with Rplus [px; py] (map (fun x => x * d_t self) capped)) /\
        exists rest', rows a' !! i
                      = Some (zip_with Rplus [px; py]
                                (map (fun x => x * d_t self) capped)
                              ++ capped ++ rest') /\
                      (rest' = rest \/ rest' = rest ++ [default_tau self])) /\
  (forall config : SceneConfig.t,
      SceneConfig.dt_secs config = 1 / 10 ->
      1 <= SceneConfig.max_speed_multiplier config ->
      exists self1 h1 self2 h2 a2,
        __init__ 0%nat None config [ONd (Arr2 two_agents)] = Returns (self1, h1) /\
        step self1 zero_force None h1 = Returns (self2, h2) /\
        stores self2 h2 a2 /\
        agent_pos a2 0 = Some [1 / 10; 0] /\
        agent_vel a2 0 = Some [1; 0] /\
        agent_pos a2 1 = Some [0; 1 / 10] /\
        agent_vel a2 1 = Some [0; 1]).
Proof.
  split.
  - intros self force g h st a ms gl i px py vx vy rest fx fy m
      Hc Hs Hl Hms Hg Hcol Hf Hn Hm Hr Hfr Hmi.
    destruct (step_agent self force g h st a ms gl i px py vx vy rest fx fy m
                Hs Hl Hms Hg Hcol Hf Hn Hm Hr Hfr Hmi)
      as (self' & h' & a' & E & Hst & Hrow).
    exists self', h', a'. split; [exact E|]. split; [exact Hst|].
    split.
    { destruct (step_keeps_anchor self force g h self' h'
                  (constructed_anchored self Hc) E) as [_ Hk].
      rewrite Hk. exact Hms. }
    cbn zeta in *. unfold cap_row in Hrow.
    unfold agent_vel, agent_pos. rewrite Hrow. unfold slice. simpl.
    split; [reflexivity|]. split; [reflexivity|].
    eexists. split; [reflexivity|].
    destruct (ncols a <? 7)%nat; [right|left]; reflexivity.
  - intros [tau dt radius mult]. simpl. intros -> Hmult.
    set (ms := map (fun s => mult * s) (row_norms (cols 2 4 two_agents))).
    set (self1 := MkPedState tau (1 / 10) radius mult (Some ms)
                    (Some (row_norms (cols 2 4 two_agents)))
                    (Some 0%nat) (Some 1%nat)).
    destruct (step_stores self1 zero_force None two_agents_heap 0%nat two_agents
                ms 1%nat eq_refl eq_refl eq_refl eq_refl)
      as (self2 & h2 & E & Hst & _); try reflexivity; [simpl; lia|].
    exists self1, two_agents_heap, self2, h2,
      (kept (stepped self1 two_agents zero_force ms) (default_tau self1)).
    split; [reflexivity|]. split; [exact E|]. split; [exact Hst|].
    pose proof (stepped_row self1 two_agents zero_force ms 0%nat
                  0 0 1 0 [10; 0; 1 / 2] 0 0 (mult * norm [1; 0])
                  eq_refl eq_refl eq_refl) as H0.
    pose proof (stepped_row self1 two_agents zero_force ms 1%nat
                  0 0 0 1 [0; 10; 1 / 2] 0 0 (mult * norm [0; 1])
                  eq_refl eq_refl eq_refl) as H1.
    cbn zeta in H0, H1. rewrite cap_row_factor in H0, H1.
    cbn [d_t self1] in H0, H1.
    rewrite (factor_one _ _ norm_unit_x) in H0 by (rewrite norm_e1; lra).
    rewrite (factor_one _ _ norm_unit_y) in H1 by (rewrite norm_e2; lra).
    unfold agent_pos, agent_vel. rewrite H0, H1. unfold slice. simpl.
    repeat split; f_equal; repeat (f_equal; try lra).
Qed.

Lemma two_agents_constructed : constructed two_agents_ped.
Proof.
  exact (constructed_init 0%nat None example_config [ONd (Arr2 two_agents)]
           two_agents_ped _ two_agents_init).
Qed.

Lemma step_integrates_witness :
  (exists self' h' a',
      step two_agents_ped zero_force None two_agents_heap = Returns (self', h') /\
      stores self' h' a' /\
      max_speeds self' = Some two_agents_caps /\
      let desired_velocity :=
        [1 + d_t two_agents_ped * 0; 0 + d_t two_agents_ped * 0] in
      let capped :=
        map (fun x => x * (if Req_dec_T (norm desired_velocity) 0 then 0
                           else Rmin 1 (13 / 10 * norm [1; 0] / norm desired_velocity)))
          desired_velocity in
      agent_vel a' 0 = Some capped /\
      agent_pos a' 0
      = Some (zip_with Rplus [0; 0] (map (fun x => x * d_t two_agents_ped) capped)) /\
      exists rest', rows a' !! 0%nat
                    = Some (zip_with Rplus [0; 0]
                              (map (fun x => x * d_t two_agents_ped) capped)
                            ++ capped ++ rest') /\
                    (rest' = [10; 0; 1 / 2] \/
                     rest' = [10; 0; 1 / 2] ++ [default_tau two_agents_ped])) /\
  (exists self1 h1 self2 h2 a2,
      __init__ 0%nat None example_config [ONd (Arr2 two_agents)]
        = Returns (self1, h1) /\
      step self1 zero_force None h1 = Returns (self2, h2) /\
      stores self2 h2 a2 /\
      agent_pos a2 0 = Some [1 / 10; 0] /\
      agent_vel a2 0 = Some [1; 0] /\
      agent_pos a2 1 = Some [0; 1 / 10] /\
      agent_vel a2 1 = Some [0; 1]).
Proof.
  split.
  - apply (proj1 step_integrates two_agents_ped zero_force None two_agents_heap
             0%nat two_agents two_agents_caps 1%nat 0%nat 0 0 1 0 [10; 0; 1 / 2]
             0 0 (13 / 10 * norm [1; 0]));
      try reflexivity.
    + exact two_agents_constructed.
    + simpl. lia.
  - apply (proj2 step_integrates example_config); simpl; lra.
Defined.

(** ** The speed cap over a run of steps *)

Lemma speeds_eval self st a h :
  _state self = Some st -> h !! st = Some (ONd (Arr2 a)) ->
  speeds self h = Returns (row_norms (cols 2 4 a), h).
Proof.
  intros Hs Hl. unfold speeds.
  rewrite (bind_eval _ _ _ _ _ (vel_eval self st a h Hs Hl)). reflexivity.
Qed.

Lemma slice_vel_snoc (r : list R) (t : R) :
  (4 <= length r)%nat -> slice 2 4 (r ++ [t]) = slice 2 4 r.
Proof.
  destruct r as [|x1 [|x2 [|x3 [|x4 r]]]]; simpl; intros H; try lia.
  reflexivity.
Qed.

Lemma kept_wf a t : wf_matrix a -> wf_matrix (kept a t).
Proof.
  intros H. unfold kept. destruct (ncols a <? 7)%nat; [|exact H].
  unfold wf_matrix in *. simpl. apply Forall_map.
  eapply Forall_impl; [exact H|]. intros r Hr. simpl.
  rewrite length_app, Hr. simpl. lia.
Qed.

Lemma kept_ncols a t : (ncols a <= ncols (kept a t))%nat.
Proof. unfold kept. destruct (ncols a <? 7)%nat; simpl; lia. Qed.

Lemma kept_nrows a t : nrows (kept a t) = nrows a.
Proof.
  unfold kept, nrows. destruct (ncols a <? 7)%nat; simpl; [|reflexivity].
  apply length_map.
Qed.

Lemma kept_speeds a t :
  wf_matrix a -> (4 <= ncols a)%nat ->
  row_norms (cols 2 4 (kept a t)) = row_norms (cols 2 4 a).
Proof.
  intros Hwf Hc. unfold kept. destruct (ncols a <? 7)%nat; [|reflexivity].
  unfold row_norms, wf_matrix in *. simpl. f_equal.
  induction Hwf as [|r rs Hr _ IH]; simpl; [reflexivity|].
  rewrite IH. rewrite slice_vel_snoc by lia. reflexivity.
Qed.

Lemma next_row_ok dt r f m c :
  length r = c -> (4 <= c)%nat -> length f = 2%nat -> 0 <= m ->
  length (next_row dt r f m) = c /\ norm (slice 2 4 (next_row dt r f m)) <= m.
Proof.
  intros Hr Hc Hf Hm.
  destruct r as [|px [|py [|vx [|vy rest]]]]; simpl in Hr; try lia.
  destruct f as [|fx [|fy [|]]]; simpl in Hf; try lia.
  rewrite next_row_shape. cbn zeta. split; [simpl; lia|].
  change (slice 2 4 _) with (cap_row [vx + dt * fx; vy + dt * fy] m).
  apply norm_cap_row_le. exact Hm.
Qed.

Lemma next_rows_ok dt c ra : forall rf ms,
  Forall (fun r => length r = c) ra -> (4 <= c)%nat ->
  Forall (fun f => length f = 2%nat) rf -> Forall (fun m => 0 <= m) ms ->
  length rf = length ra -> length ms = length ra ->
  Forall (fun r => length r = c) (next_rows dt ra rf ms) /\
  Forall2 Rle (map norm (map (slice 2 4) (next_rows dt ra rf ms))) ms.
Proof.
  induction ra as [|r ra IH]; intros [|f rf] [|m ms] Hra Hc Hrf Hms Hl1 Hl2;
    simpl in *; try lia.
  - split; constructor.
  - inversion Hra; inversion Hrf; inversion Hms; subst.
    destruct (next_row_ok dt r f m (length r) eq_refl Hc) as [Hlen Hn];
      [assumption|assumption|].
    destruct (IH rf ms) as [IH1 IH2]; try assumption; try lia.
    split; constructor; assumption.
Qed.

Lemma step_shaped n v mult self h force g :
  shaped n v mult self h -> 0 <= mult -> Forall (fun s => 0 <= s) v ->
  force_ok n (force, g) ->
  exists self' h', step self force g h = Returns (self', h') /\
    shaped n v mult self' h' /\
    capped (map (fun s => mult * s) v) self' h'.
Proof.
  intros (st & a & gl & Hs & Hl & Hwf & Hc & Hn & Hg & Hi & Hms & Hv & Hmul)
         Hmult Hpos (Hfw & Hfc & Hfn). simpl in *.
  set (ms := map (fun s => mult * s) v) in *.
  assert (Hlen : length ms = nrows a).
  { unfold ms. rewrite length_map. lia. }
  assert (Hgl : exists gl', match g with Some l => Some l | None => _groups self end
                            = Some gl').
  { destruct g as [l|]; [exists l; reflexivity|exists gl; exact Hg]. }
  destruct Hgl as [gl' Hgl].
  destruct (step_stores self force g h st a ms gl' Hs Hl Hms Hgl Hc Hfc
              ltac:(lia) Hlen)
    as (self' & h' & E & (st' & Hs' & Hl') & Hi' & Hm' & Hg' & _ & _ & _ & Hmul').
  assert (Hcaps : Forall (fun m => 0 <= m) ms).
  { unfold ms. apply Forall_map. eapply Forall_impl; [exact Hpos|].
    intros s Hs0. simpl. apply Rmult_le_pos; assumption. }
  destruct (next_rows_ok (d_t self) (ncols a) (rows a) (rows force) ms)
    as [Hrows Hbound]; try assumption.
  { unfold wf_matrix in Hfw. rewrite Hfc in Hfw. exact Hfw. }
  { unfold nrows in *. lia. }
  assert (Hwf2 : wf_matrix (stepped self a force ms)) by exact Hrows.
  assert (Hn2 : nrows (stepped self a force ms) = n).
  { unfold nrows in *. simpl. rewrite length_next_rows; lia. }
  assert (Han : anchored_speeds self (stepped self a force ms) = v).
  { unfold anchored_speeds. rewrite Hi. reflexivity. }
  rewrite Han in Hi', Hm'. rewrite Hmul in Hm'.
  exists self', h'. split; [exact E|]. split.
  - exists st', (kept (stepped self a force ms) (default_tau self)), gl'.
    repeat split; try assumption.
    + apply kept_wf. exact Hwf2.
    + pose proof (kept_ncols (stepped self a force ms) (default_tau self)) as Hk.
      simpl in Hk. lia.
    + rewrite kept_nrows. exact Hn2.
    + congruence.
  - exists (row_norms (cols 2 4 (kept (stepped self a force ms) (default_tau self)))).
    split; [apply (speeds_eval self' st' _ h' Hs' Hl')|].
    rewrite kept_speeds by (assumption || exact Hc). exact Hbound.
Qed.

Lemma steps_capped n v mult inputs : forall self h,
  shaped n v mult self h -> capped (map (fun s => mult * s) v) self h ->
  0 <= mult -> Forall (fun s => 0 <= s) v ->
  Forall (force_ok n) inputs ->
  exists self' h', steps self inputs h = Returns (self', h') /\
    shaped n v mult self' h' /\
    capped (map (fun s => mult * s) v) self' h'.
Proof.
  induction inputs as [|[force g] rest IH]; intros self h Hsh Hcap Hmult Hpos Hall.
  - exists self, h. repeat split; assumption.
  - inversion Hall as [|x xs Hok Hrest]; subst.
    destruct (step_shaped n v mult self h force g Hsh Hmult Hpos Hok)
      as (s1 & h1 & E1 & Hsh1 & Hcap1).
    destruct (IH s1 h1 Hsh1 Hcap1 Hmult Hpos Hrest) as (s2 & h2 & E2 & Hsh2 & Hcap2).
    exists s2, h2. split; [|split; assumption].
    simpl. rewrite (bind_eval _ _ _ _ _ E1). exact E2.
Qed.

Lemma row_norms_nonneg a : Forall (fun s => 0 <= s) (row_norms a).
Proof. unfold row_norms. apply Forall_map. apply Forall_true. intros r. apply norm_nonneg. Qed.

Lemma init_shaped st g config h a :
  h !! st = Some (ONd (Arr2 a)) -> wf_matrix a -> (4 <= ncols a)%nat ->
  exists self h', __init__ st g config h = Returns (self, h') /\
    shaped (nrows a) (row_norms (cols 2 4 a))
      (SceneConfig.max_speed_multiplier config) self h'.
Proof.
  intros Hl Hwf Hc. rewrite __init___unfold.
  destruct (update_stores (blank config) st g h a Hl)
    as (self & h' & E & (st' & Hs' & Hl') & Hi & Hm & _ & _ & _ & Hmul).
  pose proof (update_groups _ _ _ _ _ _ E) as Hg.
  rewrite stored_matrix_kept in Hl'.
  assert (Han : anchored_speeds (blank config) a = row_norms (cols 2 4 a)).
  { unfold anchored_speeds. simpl. rewrite stored_matrix_kept.
    apply kept_speeds; assumption. }
  rewrite Han in Hi, Hm.
  assert (Hgl : exists gl, _groups self = Some gl).
  { destruct g as [l|]; [exists l; exact Hg|].
    destruct Hg as (l & Hg & _). exists l. exact Hg. }
  destruct Hgl as [gl Hgl].
  exists self, h'. split; [exact E|].
  exists st', (kept a (default_tau (blank config))), gl.
  repeat split; try assumption.
  - apply kept_wf. exact Hwf.
  - pose proof (kept_ncols a (default_tau (blank config))). lia.
  - apply kept_nrows.
  - unfold row_norms, nrows. simpl. rewrite !length_map. reflexivity.
Qed.

(** C1: build the object from a state array of at least four columns, with a
    non-negative [max_speed_multiplier], and call [step] any positive number
    of times with any forces.  The calls all return; at the end [max_speeds] is
    still the multiplier times the speeds of the array the object was built
    from, and the speed of every agent, as [speeds] reports it, is at most the
    agent's entry of [max_speeds]. *)
Theorem speed_never_exceeds_cap
  (config : SceneConfig.t) (st : loc) (g : option loc) (h : heap) (a : matrix)
  (inputs : list (matrix * option loc)) :
  0 <= SceneConfig.max_speed_multiplier config ->
  h !! st = Some (ONd (Arr2 a)) -> wf_matrix a -> (4 <= ncols a)%nat ->
  Forall (force_ok (nrows a)) inputs ->
  inputs <> [] ->
  let caps := map (fun s => SceneConfig.max_speed_multiplier config * s)
                (row_norms (cols 2 4 a)) in
  exists self' h' sp,
    bind (__init__ st g config) (fun self => steps self inputs) h
      = Returns (self', h') /\
    max_speeds self' = Some caps /\
    speeds self' h' = Returns (sp, h') /\
    Forall2 Rle sp caps.
Proof.
  intros Hmult Hl Hwf Hc Hall Hne caps.
  destruct inputs as [|[force g1] rest]; [contradiction|].
  inversion Hall as [|x xs Hok Hrest]; subst.
  destruct (init_shaped st g config h a Hl Hwf Hc) as (s0 & h0 & E0 & Hsh0).
  pose proof (row_norms_nonneg (cols 2 4 a)) as Hpos.
  destruct (step_shaped _ _ _ s0 h0 force g1 Hsh0 Hmult Hpos Hok)
    as (s1 & h1 & E1 & Hsh1 & Hcap1).
  destruct (steps_capped _ _ _ rest s1 h1 Hsh1 Hcap1 Hmult Hpos Hrest)
    as (s2 & h2 & E2 & Hsh2 & (sp & Esp & Hle)).
  exists s2, h2, sp. split.
  - rewrite (bind_eval _ _ _ _ _ E0). simpl.
    rewrite (bind_eval _ _ _ _ _ E1). exact E2.
  - destruct Hsh2 as (st2 & a2 & gl2 & _ & _ & _ & _ & _ & _ & _ & Hms & _).
    repeat split; assumption.
Qed.

Lemma two_agents_wf : wf_matrix two_agents.
Proof. repeat constructor. Qed.

Lemma speed_never_exceeds_cap_witness :
  let caps := map (fun s => 13 / 10 * s) (row_norms (cols 2 4 two_agents)) in
  exists self' h' sp,
    bind (__init__ 0%nat None example_config)
      (fun self => steps self [(zero_force, None); (braking_force, None)])
      [ONd (Arr2 two_agents)]
      = Returns (self', h') /\
    max_speeds self' = Some caps /\
    speeds self' h' = Returns (sp, h') /\
    Forall2 Rle sp caps.
Proof.
  apply (speed_never_exceeds_cap example_config 0%nat None [ONd (Arr2 two_agents)]
           two_agents [(zero_force, None); (braking_force, None)]).
  - simpl. lra.
  - reflexivity.
  - exact two_agents_wf.
  - simpl. lia.
  - repeat constructor.
  - discriminate.
Defined.

(** ** Frame: what the operations write *)

Lemma only_writes_ret {A} st (a : A) : only_writes st (ret a).
Proof. intros h x h' H. inversion H; subst. split; [lia|reflexivity]. Qed.

Lemma only_writes_lift {A} st (x : outcome A) : only_writes st (lift x).
Proof.
  intros h y h' H. unfold lift in H. destruct x; inversion H; subst.
  split; [lia|reflexivity].
Qed.

Lemma only_writes_attr {A} st (x : option A) : only_writes st (attr x).
Proof.
  intros h y h' H. unfold attr in H. destruct x; inversion H; subst.
  split; [lia|reflexivity].
Qed.

Lemma only_writes_get_matrix st l : only_writes st (get_matrix l).
Proof.
  intros h y h' H. apply get_matrix_Returns in H as [_ ->].
  split; [lia|reflexivity].
Qed.

Lemma only_writes_alloc st o : only_writes st (alloc o).
Proof.
  intros h y h' H. inversion H; subst. rewrite length_app. simpl.
  split; [lia|]. intros l _ Hl. apply lookup_app_l. exact Hl.
Qed.

Lemma only_writes_put_matrix st m : only_writes st (put_matrix st m).
Proof.
  intros h y h' H. inversion H; subst. rewrite length_insert.
  split; [lia|]. intros l Hne _. apply list_lookup_insert_ne. congruence.
Qed.

Lemma only_writes_bind {A B} st (c : M A) (f : A -> M B) :
  only_writes st c -> (forall a, only_writes st (f a)) ->
  only_writes st (bind c f).
Proof.
  intros Hc Hf h x h' H. apply bind_Returns in H as (a & h1 & H1 & H2).
  destruct (Hc _ _ _ H1) as [L1 F1]. destruct (Hf a _ _ _ H2) as [L2 F2].
  split; [lia|]. intros l Hne Hl. rewrite F2 by (assumption || lia).
  apply F1; assumption.
Qed.

Lemma only_writes_update st self st0 g : only_writes st (update self st0 g).
Proof.
  unfold update, _update_state, speeds, vel, state, set_groups.
  repeat first
    [ apply only_writes_bind; [|intros ?]
    | apply only_writes_ret | apply only_writes_lift | apply only_writes_attr
    | apply only_writes_get_matrix | apply only_writes_alloc
    | match goal with
      | |- only_writes _ (if ?b then _ else _) => destruct b
      | |- only_writes _ (match ?x with Some _ => _ | None => _ end) => destruct x
      end
    | (intros ? ? ? H; discriminate H) ].
Qed.

Lemma only_writes_step self force g st :
  _state self = Some st -> only_writes st (step self force g).
Proof.
  intros Hs. unfold step, vel, state, groups, modify_matrix. rewrite Hs.
  repeat first
    [ apply only_writes_update
    | match goal with
      | |- only_writes _ (bind (attr (Some ?x)) ?f) =>
          change (only_writes st (f x)); cbv beta
      end
    | apply only_writes_put_matrix
    | apply only_writes_bind; [|intros ?]
    | apply only_writes_ret | apply only_writes_lift | apply only_writes_attr
    | apply only_writes_get_matrix | apply only_writes_alloc
    | match goal with
      | |- only_writes _ (match ?x with Some _ => _ | None => _ end) => destruct x
      end
    | (intros ? ? ? H; discriminate H) ].
Qed.

(** ** Snapshots *)

Lemma lookup_snoc_new {A} (h : list A) (x : A) : (h ++ [x]) !! length h = Some x.
Proof. rewrite lookup_app_r by lia. rewrite Nat.sub_diag. reflexivity. Qed.

Lemma get_states_eval self h st a gl :
  _state self = Some st -> h !! st = Some (ONd (Arr2 a)) ->
  _groups self = Some gl ->
  get_states self h = Returns ((length h, [gl]), h ++ [ONd (Arr3 [a])]).
Proof.
  intros Hs Hl Hg. unfold get_states, state, groups. rewrite Hs, Hg.
  rewrite (bind_eval (attr (Some st)) _ h st h eq_refl).
  rewrite (bind_eval _ _ _ _ _ (get_matrix_eval _ _ _ Hl)).
  reflexivity.
Qed.

Lemma alloc_eval o h : alloc o h = Returns (length h, h ++ [o]).
Proof. reflexivity. Qed.

Lemma to_visualizable_state_eval k h st gl a :
  h !! st = Some (ONd (Arr2 a)) -> (4 <= ncols a)%nat ->
  to_visualizable_state k (st, gl) h
  = Returns (MkVisualizableSimState k (length h) (S (S (length h))),
             h ++ [ONd (Arr2 (cols 0 2 a))] ++ [ONd (Arr2 (cols 2 4 a))]
               ++ [ONd (Arr3 (action_planes a))]).
Proof.
  intros Hl Hc. unfold to_visualizable_state.
  rewrite (bind_eval _ _ _ _ _ (get_matrix_eval _ _ _ Hl)).
  rewrite (bind_eval _ _ _ _ _ (alloc_eval _ h)).
  set (h1 := h ++ [ONd (Arr2 (cols 0 2 a))]).
  assert (L1 : length h1 = S (length h)).
  { unfold h1. rewrite length_app, Nat.add_1_r. reflexivity. }
  rewrite (bind_eval _ _ _ _ _
             (get_matrix_eval st h1 a (lookup_snoc_old h _ st _ Hl))).
  rewrite (bind_eval _ _ _ _ _ (alloc_eval _ h1)).
  set (h2 := h1 ++ [ONd (Arr2 (cols 2 4 a))]).
  assert (L2 : length h2 = S (S (length h))).
  { unfold h2. rewrite length_app, Nat.add_1_r, L1. reflexivity. }
  assert (Hp : h2 !! length h = Some (ONd (Arr2 (cols 0 2 a)))).
  { apply lookup_snoc_old. apply lookup_snoc_new. }
  assert (Hv : h2 !! length h1 = Some (ONd (Arr2 (cols 2 4 a)))).
  { apply lookup_snoc_new. }
  rewrite (bind_eval _ _ _ _ _ (get_matrix_eval _ _ _ Hp)).
  rewrite (bind_eval _ _ _ _ _ (get_matrix_eval _ _ _ Hv)).
  assert (Hshape : same_shape (cols 0 2 a) (cols 2 4 a) = true).
  { apply same_shape_true.
    - cbn [ncols cols]. lia.
    - unfold nrows. cbn [rows cols]. rewrite !length_map. reflexivity. }
  unfold mat_add. rewrite Hshape. cbn [lift bind].
  unfold stack_pairs.
  rewrite same_shape_true; cycle 1.
  { reflexivity. }
  { unfold nrows. cbn [rows cols]. rewrite length_zip_with, !length_map. lia. }
  cbn [lift bind alloc ret]. rewrite L2. unfold h2, h1.
  rewrite <- !app_assoc. reflexivity.
Qed.

(** C6 (as amended): the state array in the pair that [get_states] returns and
    both arrays of the visualizable state are new objects holding copies of
    the values: a later [step], and a later in-place change of the live state
    array or of the live group list, leave them as they were.  The group part
    of the pair is the reference to the live group list, not a copy; [step]
    leaves that list as it was, since it rebinds the groups and never changes
    the list in place. *)
Theorem snapshot_arrays_are_copies
  (self : PedState) (h : heap) (st : loc) (a : matrix) (gl : loc)
  (gs : list Group) (k : Z) :
  _state self = Some st -> h !! st = Some (ONd (Arr2 a)) ->
  _groups self = Some gl -> h !! gl = Some (OList gs) ->
  (4 <= ncols a)%nat ->
  exists s h1 vis h2,
    get_states self h = Returns ((s, [gl]), h1) /\
    to_visualizable_state k (st, gl) h1 = Returns (vis, h2) /\
    timestep vis = k /\
    h2 !! s = Some (ONd (Arr3 [a])) /\
    h2 !! pedestrian_positions vis = Some (ONd (Arr2 (cols 0 2 a))) /\
    h2 !! ped_actions vis = Some (ONd (Arr3 (action_planes a))) /\
    h2 !! st = Some (ONd (Arr2 a)) /\ h2 !! gl = Some (OList gs) /\
    let copies := [s; pedestrian_positions vis; ped_actions vis] in
    ~ In st copies /\ ~ In gl copies /\
    (forall force g self' h3,
        step self force g h2 = Returns (self', h3) ->
        (forall c, In c copies -> h3 !! c = h2 !! c) /\
        h3 !! gl = Some (OList gs)) /\
    (forall l o, l = st \/ l = gl ->
                 forall c, In c copies -> (<[l := o]> h2) !! c = h2 !! c).
Proof.
  intros Hs Hl Hg Hgl Hc.
  pose proof (lookup_lt_Some _ _ _ Hl) as Lst.
  pose proof (lookup_lt_Some _ _ _ Hgl) as Lgl.
  set (h1 := h ++ [ONd (Arr3 [a])]).
  assert (Hl1 : h1 !! st = Some (ONd (Arr2 a))) by (apply lookup_snoc_old; exact Hl).
  assert (L1 : length h1 = S (length h)).
  { unfold h1. rewrite length_app, Nat.add_1_r. reflexivity. }
  set (h2 := h1 ++ [ONd (Arr2 (cols 0 2 a))] ++ [ONd (Arr2 (cols 2 4 a))]
               ++ [ONd (Arr3 (action_planes a))]).
  assert (L2 : length h2 = (length h + 4)%nat).
  { unfold h2. rewrite !length_app, L1. simpl. lia. }
  assert (Old : forall l o, h !! l = Some o -> h2 !! l = Some o).
  { intros l o H. unfold h2, h1. rewrite <- app_assoc.
    apply lookup_app_l_Some. exact H. }
  assert (Hsnap : h2 !! length h = Some (ONd (Arr3 [a]))).
  { unfold h2. apply lookup_app_l_Some. apply lookup_snoc_new. }
  assert (Hpos : h2 !! length h1 = Some (ONd (Arr2 (cols 0 2 a)))).
  { unfold h2. rewrite lookup_app_r by lia. rewrite Nat.sub_diag. reflexivity. }
  assert (Hact : h2 !! S (S (length h1)) = Some (ONd (Arr3 (action_planes a)))).
  { unfold h2. rewrite lookup_app_r by lia.
    replace (S (S (length h1)) - length h1)%nat with 2%nat by lia. reflexivity. }
  exists (length h), h1, (MkVisualizableSimState k (length h1) (S (S (length h1)))), h2.
  split; [apply (get_states_eval self h st a gl Hs Hl Hg)|].
  split; [apply (to_visualizable_state_eval k h1 st gl a Hl1 Hc)|].
  split; [reflexivity|]. split; [exact Hsnap|]. split; [exact Hpos|].
  split; [exact Hact|]. split; [apply Old; exact Hl|]. split; [apply Old; exact Hgl|].
  cbn zeta. cbn [pedestrian_positions ped_actions].
  assert (Hne : forall l c, (l < length h)%nat ->
                  In c [length h; length h1; S (S (length h1))] -> c <> l).
  { intros l c Hlt Hin. simpl in Hin. lia. }
  split; [intros Hin; exact (Hne st st Lst Hin eq_refl)|].
  split; [intros Hin; exact (Hne gl gl Lgl Hin eq_refl)|].
  split.
  - intros force g self' h3 E.
    destruct (only_writes_step self force g st Hs _ _ _ E) as [_ Hframe].
    assert (Hgs : gl <> st).
    { intros ->. rewrite Hl in Hgl. discriminate. }
    split.
    + intros c Hin. apply Hframe; [exact (Hne st c Lst Hin)|].
      simpl in Hin. lia.
    + rewrite Hframe by (assumption || lia). apply Old. exact Hgl.
  - intros l o Hlo c Hin. apply list_lookup_insert_ne.
    destruct Hlo as [-> | ->]; intros E; symmetry in E;
      [exact (Hne st c Lst Hin E)|exact (Hne gl c Lgl Hin E)].
Qed.

Lemma snapshot_arrays_are_copies_witness :
  exists s h1 vis h2,
    get_states two_agents_ped two_agents_heap = Returns ((s, [1%nat]), h1) /\
    to_visualizable_state 3 (0%nat, 1%nat) h1 = Returns (vis, h2) /\
    timestep vis = 3%Z /\
    h2 !! s = Some (ONd (Arr3 [two_agents])) /\
    h2 !! pedestrian_positions vis = Some (ONd (Arr2 (cols 0 2 two_agents))) /\
    h2 !! ped_actions vis = Some (ONd (Arr3 (action_planes two_agents))) /\
    h2 !! 0%nat = Some (ONd (Arr2 two_agents)) /\ h2 !! 1%nat = Some (OList []) /\
    let copies := [s; pedestrian_positions vis; ped_actions vis] in
    ~ In 0%nat copies /\ ~ In 1%nat copies /\
    (forall force g self' h3,
        step two_agents_ped force g h2 = Returns (self', h3) ->
        (forall c, In c copies -> h3 !! c = h2 !! c) /\
        h3 !! 1%nat = Some (OList [])) /\
    (forall l o, l = 0%nat \/ l = 1%nat ->
                 forall c, In c copies -> (<[l := o]> h2) !! c = h2 !! c).
Proof.
  apply (snapshot_arrays_are_copies two_agents_ped two_agents_heap 0%nat
           two_agents 1%nat [] 3%Z); try reflexivity.
  simpl. lia.
Defined.

(** C6 (as stated) fails for the group list: the pair returned by
    [get_states] holds the reference to the live group list.  After the
    snapshot is taken, appending a group to the live list in place changes
    what the snapshot shows as its groups. *)
Lemma snapshot_groups_alias_counterexample :
  exists snap h1 h2,
    get_states two_agents_ped two_agents_heap = Returns (snap, h1) /\
    groups two_agents_ped h1 = Returns (1%nat, h1) /\
    list_append 1%nat [0; 1]%Z h1 = Returns (tt, h2) /\
    snapshot_groups h1 snap = [Some []] /\
    snapshot_groups h2 snap = [Some [[0; 1]%Z]] /\
    snapshot_groups h2 snap <> snapshot_groups h1 snap.
Proof.
  eexists; eexists; eexists.
  split; [reflexivity|]. split; [reflexivity|]. split; [reflexivity|].
  split; [reflexivity|]. split; [reflexivity|]. discriminate.
Qed.

(** ** Obstacles: empty input *)

(** C9 fails on the code for the empty list: [_update_obstacles_raw] makes an
    array of shape (0, 6) and assigns [np.array([])], of shape (0,), to its
    four leading columns, which cannot be broadcast.  Construction and the
    [obstacles] setter raise [ValueError]; only the [None] input goes through
    the explicit branch and gives empty descriptors and samples. *)
Theorem empty_obstacle_list_raises (resolution : R) (self : EnvState) :
  __post_init__ (Some []) resolution = Raises ValueError /\
  set_obstacles self (Some []) = Raises ValueError /\
  _update_obstacles_linspace resolution (Some []) = Returns [] /\
  __post_init__ None resolution
  = Returns (MkEnvState None resolution [] (Arr1 [])) /\
  set_obstacles self None
  = Returns (MkEnvState None (_resolution self) [] (Arr1 [])).
Proof. repeat split. Qed.

(** ** Obstacles: sample points *)

Lemma lookup_map_seq {A} (f : nat -> A) (n : nat) : forall s i,
  (i < n)%nat -> map f (seq s n) !! i = Some (f (s + i)%nat).
Proof.
  induction n as [|n IH]; intros s [|i] H; simpl; try lia.
  - rewrite Nat.add_0_r. reflexivity.
  - rewrite (IH (S s) i) by lia. f_equal. f_equal. lia.
Qed.

Lemma lookup_zip_with_pair {A B C} (f : A -> B -> C) (l : list A) (k : list B) :
  forall i x y, l !! i = Some x -> k !! i = Some y ->
                zip_with f l k !! i = Some (f x y).
Proof.
  revert k. induction l as [|a l IH]; intros [|b k] [|i] x y H1 H2;
    simpl in *; try discriminate.
  - inversion H1; inversion H2; subst. reflexivity.
  - apply IH; assumption.
Qed.

(** The points of [np.linspace]: evenly spaced from [start], ending at [stop]. *)
Lemma linspace_spec (start stop : R) (n : nat) :
  exists ys,
    linspace start stop (Z.of_nat n) = Returns ys /\
    length ys = n /\
    forall i, (i < n)%nat ->
      exists y, ys !! i = Some y /\
                y = start + INR i * ((stop - start) / INR (n - 1)).
Proof.
  unfold linspace.
  destruct (Z.ltb_spec (Z.of_nat n) 0) as [Hneg|_]; [lia|].
  rewrite Nat2Z.id.
  destruct (Z.ltb_spec 0 (Z.of_nat n - 1)) as [Hbig|Hsmall].
  - assert (H1 : (1 <? Z.of_nat n)%Z = true) by (apply Z.ltb_lt; lia).
    rewrite H1. eexists. split; [reflexivity|].
    rewrite length_insert, length_map, length_seq. split; [reflexivity|].
    assert (Hdiv : IZR (Z.of_nat n - 1) = INR (n - 1)).
    { rewrite INR_IZR_INZ. f_equal. lia. }
    assert (Hpos : INR (n - 1) <> 0).
    { apply not_0_INR. lia. }
    intros i Hi. destruct (Nat.eq_dec i (n - 1)%nat) as [->|Hne].
    + exists stop. split.
      * apply list_lookup_insert_eq. rewrite length_map, length_seq. lia.
      * field. exact Hpos.
    + eexists. split.
      * rewrite list_lookup_insert_ne by congruence.
        apply (lookup_map_seq _ n 0%nat i Hi).
      * simpl. rewrite Hdiv. ring.
  - assert (H1 : (1 <? Z.of_nat n)%Z = false) by (apply Z.ltb_ge; lia).
    rewrite H1. eexists. split; [reflexivity|].
    rewrite length_map, length_seq. split; [reflexivity|].
    intros i Hi. assert (i = 0%nat) by lia. subst i.
    eexists. split; [apply (lookup_map_seq _ n 0%nat 0%nat Hi)|].
    simpl. ring.
Qed.

Lemma linspace_negative start stop num :
  (num < 0)%Z -> linspace start stop num = Raises ValueError.
Proof.
  intros H. unfold linspace.
  destruct (Z.ltb_spec num 0); [reflexivity|lia].
Qed.

Lemma py_int_nonneg x :
  0 <= x ->
  exists n : nat, py_int x = Z.of_nat n /\ INR n <= x < INR n + 1.
Proof.
  intros Hx. unfold py_int. destruct (Rle_dec 0 x) as [_|]; [|contradiction].
  destruct (base_Int_part x) as [Hlo Hhi].
  assert (Hz : (0 <= Int_part x)%Z).
  { destruct (Z_lt_le_dec (Int_part x) 0) as [Hneg|]; [|assumption].
    exfalso. assert (Int_part x <= -1)%Z as Hle by lia.
    apply IZR_le in Hle. lra. }
  exists (Z.to_nat (Int_part x)). rewrite Z2Nat.id by exact Hz.
  split; [reflexivity|].
  rewrite INR_IZR_INZ, Z2Nat.id by exact Hz. lra.
Qed.

Lemma sample_line_cloud resolution l :
  0 <= resolution ->
  exists cloud, sample_line resolution l = Returns cloud /\
                cloud_of resolution l cloud.
Proof.
  intros Hr. destruct l as [[[sx ex] sy] ey]. unfold sample_line, cloud_of.
  set (len := norm [sx - ex; sy - ey]).
  assert (Hlen : 0 <= len * resolution).
  { apply Rmult_le_pos; [apply norm_nonneg|exact Hr]. }
  destruct (py_int_nonneg _ Hlen) as (n & En & Hn).
  rewrite En.
  destruct (linspace_spec sx ex n) as (xs & Ex & Lx & Hx).
  destruct (linspace_spec sy ey n) as (ys & Ey & Ly & Hy).
  rewrite Ex, Ey. cbn [obind].
  eexists. split; [reflexivity|].
  exists n, (zip_with (fun x y => [x; y]) xs ys).
  split; [reflexivity|].
  split; [rewrite length_zip_with; lia|].
  split; [exact Hn|]. split.
  - intros i Hi. destruct (Hx i Hi) as (x & Hxi & Exi).
    destruct (Hy i Hi) as (y & Hyi & Eyi).
    exists x, y. split; [|split; assumption].
    apply (lookup_zip_with_pair (fun x y => [x; y]) xs ys i x y Hxi Hyi).
  - intros Hz. rewrite Hz, Rmult_0_l in Hn.
    assert (n = 0%nat).
    { destruct n as [|n]; [reflexivity|]. rewrite S_INR in Hn.
      pose proof (pos_INR n). lra. }
    subst n. destruct xs; [reflexivity|discriminate].
Qed.

Lemma sample_lines_clouds resolution obs_lines :
  0 <= resolution ->
  exists clouds, sample_lines resolution obs_lines = Returns clouds /\
                 Forall2 (cloud_of resolution) obs_lines clouds.
Proof.
  intros Hr. induction obs_lines as [|l rest IH]; simpl.
  - exists []. split; [reflexivity|constructor].
  - destruct (sample_line_cloud resolution l Hr) as (c & Ec & Hc).
    destruct IH as (cs & Ecs & Hcs). rewrite Ec, Ecs. simpl.
    exists (c :: cs). split; [reflexivity|constructor; assumption].
Qed.

(** C7 (as amended): for a resolution that is not negative, every obstacle line
    gets a point cloud without failure.  The number [n] of its points is the
    integer part of length times resolution (the product cut off, not rounded
    to the nearest integer), and point [i] is the linear interpolation
    [start + i * (end - start) / (n - 1)] in each coordinate.  A line of length
    zero gets the empty array. *)
Theorem samples_follow_truncated_length
  (resolution : R) (obs_lines : list Line2D) :
  0 <= resolution ->
  exists clouds,
    _update_obstacles_linspace resolution (Some obs_lines) = Returns clouds /\
    Forall2 (cloud_of resolution) obs_lines clouds.
Proof. intros Hr. apply sample_lines_clouds. exact Hr. Qed.

Lemma samples_follow_truncated_length_witness :
  exists clouds,
    _update_obstacles_linspace 10 (Some [(0, 10, 0, 0); (1, 1, 2, 2)])
      = Returns clouds /\
    Forall2 (cloud_of 10) [(0, 10, 0, 0); (1, 1, 2, 2)] clouds.
Proof.
  apply (samples_follow_truncated_length 10 [(0, 10, 0, 0); (1, 1, 2, 2)]).
  lra.
Defined.

Lemma short_line_length : norm [0 - 19 / 100; 0 - 0] = 19 / 100.
Proof.
  rewrite norm_pair.
  replace ((0 - 19 / 100) * (0 - 19 / 100) + (0 - 0) * (0 - 0))
    with (19 / 100 * (19 / 100)) by lra.
  apply sqrt_square. lra.
Qed.

(** C7 (as stated) fails: the line from (0, 0) to (0.19, 0) at resolution 10
    has length times resolution 1.9, whose nearest integer is 2, and its
    point cloud has 1 point. *)
Lemma samples_not_rounded_counterexample :
  norm [0 - 19 / 100; 0 - 0] * 10 = 19 / 10 /\
  Rabs (19 / 10 - IZR 2) <= 1 / 2 /\
  ~ Rabs (19 / 10 - IZR 1) <= 1 / 2 /\
  exists p, sample_line 10 (0, 19 / 100, 0, 0) = Returns (Arr2 (Matrix 2 [p])).
Proof.
  assert (Hlen : norm [0 - 19 / 100; 0 - 0] * 10 = 19 / 10).
  { rewrite short_line_length. lra. }
  split; [exact Hlen|].
  split; [rewrite Rabs_left; lra|].
  split; [rewrite Rabs_right; lra|].
  destruct (sample_line_cloud 10 (0, 19 / 100, 0, 0)) as (c & Ec & Hc); [lra|].
  unfold cloud_of in Hc. destruct Hc as (n & pts & -> & Hl & Hn & _).
  rewrite Hlen in Hn.
  assert (En : n = 1%nat).
  { destruct n as [|[|n]]; [simpl in Hn; lra|reflexivity|].
    exfalso. rewrite !S_INR in Hn. pose proof (pos_INR n). lra. }
  rewrite En in Hl. destruct pts as [|p [|q pts]]; simpl in Hl; try lia.
  exists p. exact Ec.
Qed.

Lemma unit_line_length : norm [0 - 1; 0 - 0] = 1.
Proof.
  rewrite norm_pair.
  replace ((0 - 1) * (0 - 1) + (0 - 0) * (0 - 0)) with 1 by lra.
  apply sqrt_1.
Qed.

(** With a negative resolution the sample count is negative and
    [np.linspace] refuses it. *)
Example negative_resolution_raises :
  sample_line (-10) (0, 1, 0, 0) = Raises ValueError.
Proof.
  unfold sample_line. rewrite unit_line_length.
  assert (E : py_int (1 * -10) = (-10)%Z).
  { unfold py_int. destruct (Rle_dec 0 (1 * -10)) as [H|_]; [exfalso; lra|].
    rewrite <- (Int_part_spec (- (1 * -10)) 10); [reflexivity|]. lra. }
  rewrite E. rewrite linspace_negative by lia. reflexivity.
Qed.

Lemma horizontal_line_length : norm [0 - 10; 0 - 0] = 10.
Proof.
  rewrite norm_pair.
  replace ((0 - 10) * (0 - 10) + (0 - 0) * (0 - 0)) with (10 * 10) by lra.
  apply sqrt_square. lra.
Qed.

(** The line from (0, 0) to (10, 0) at resolution 10 gets 100 points, from
    (0, 0) to (10, 0). *)
Example horizontal_line_cloud :
  exists pts x0 y0 x99 y99,
    sample_line 10 (0, 10, 0, 0) = Returns (Arr2 (Matrix 2 pts)) /\
    length pts = 100%nat /\
    pts !! 0%nat = Some [x0; y0] /\ x0 = 0 /\ y0 = 0 /\
    pts !! 99%nat = Some [x99; y99] /\ x99 = 10 /\ y99 = 0.
Proof.
  destruct (sample_line_cloud 10 (0, 10, 0, 0)) as (c & Ec & Hc); [lra|].
  unfold cloud_of in Hc. destruct Hc as (n & pts & Hcl & Hl & Hn & Hi & _).
  rewrite horizontal_line_length in Hn.
  assert (En : n = 100%nat).
  { replace (10 * 10) with (INR 100) in Hn by (simpl; lra).
    destruct Hn as [H1 H2]. rewrite <- S_INR in H2.
    apply INR_le in H1. apply INR_lt in H2. lia. }
  rewrite En in Hl, Hi.
  destruct (Hi 0%nat ltac:(lia)) as (x0 & y0 & L0 & Ex0 & Ey0).
  destruct (Hi 99%nat ltac:(lia)) as (x99 & y99 & L99 & Ex99 & Ey99).
  exists pts, x0, y0, x99, y99.
  assert (Hc2 : c = Arr2 (Matrix 2 pts)).
  { rewrite Hcl. destruct pts; [discriminate|reflexivity]. }
  rewrite Ec, Hc2. split; [reflexivity|]. split; [exact Hl|].
  unfold interpolate in *. simpl in Ex0, Ey0, Ex99, Ey99.
  repeat split; try assumption; lra.
Qed.

(** ** Obstacles: descriptors *)

Lemma cos_turns (x : R) (k : Z) : cos (x - IZR k * (2 * PI)) = cos x.
Proof.
  destruct (Z_le_gt_dec 0 k) as [Hk|Hk].
  - rewrite <- (cos_period (x - IZR k * (2 * PI)) (Z.to_nat k)).
    rewrite INR_IZR_INZ, Z2Nat.id by exact Hk. f_equal. ring.
  - rewrite <- (cos_period x (Z.to_nat (- k))).
    rewrite INR_IZR_INZ, Z2Nat.id by lia. rewrite opp_IZR. f_equal. ring.
Qed.

Lemma sin_turns (x : R) (k : Z) : sin (x - IZR k * (2 * PI)) = sin x.
Proof.
  destruct (Z_le_gt_dec 0 k) as [Hk|Hk].
  - rewrite <- (sin_period (x - IZR k * (2 * PI)) (Z.to_nat k)).
    rewrite INR_IZR_INZ, Z2Nat.id by exact Hk. f_equal. ring.
  - rewrite <- (sin_period x (Z.to_nat (- k))).
    rewrite INR_IZR_INZ, Z2Nat.id by lia. rewrite opp_IZR. f_equal. ring.
Qed.

Lemma cos_ortho_angle t : cos (ortho_angle t) = - sin t.
Proof.
  unfold ortho_angle, py_mod. rewrite cos_turns.
  replace (t + 2 * PI - IZR (Int_part ((t + 2 * PI) / (2 * PI))) * (2 * PI) + PI / 2)
    with (PI / 2 + t - IZR (Int_part ((t + 2 * PI) / (2 * PI)) - 1) * (2 * PI))
    by (rewrite minus_IZR; ring).
  rewrite cos_turns. rewrite (Rtrigo1.sin_cos t). ring.
Qed.

Lemma sin_ortho_angle t : sin (ortho_angle t) = cos t.
Proof.
  unfold ortho_angle, py_mod. rewrite sin_turns.
  replace (t + 2 * PI - IZR (Int_part ((t + 2 * PI) / (2 * PI))) * (2 * PI) + PI / 2)
    with (PI / 2 + t - IZR (Int_part ((t + 2 * PI) / (2 * PI)) - 1) * (2 * PI))
    by (rewrite minus_IZR; ring).
  rewrite sin_turns. rewrite (Rtrigo1.cos_sin t). reflexivity.
Qed.

Lemma atan_direction u : sin (atan u) = u * cos (atan u).
Proof.
  pose proof (atan_bound u) as [Hlo Hhi].
  assert (Hc : 0 < cos (atan u)) by (apply cos_gt_0; lra).
  pose proof (tan_atan u) as Ht. unfold tan in Ht.
  rewrite <- Ht at 2. field. lra.
Qed.

(** The direction angle that [atan2] gives points along the vector. *)
Lemma atan2_direction (dy dx : R) :
  dy * cos (atan2 dy dx) = dx * sin (atan2 dy dx).
Proof.
  unfold atan2.
  destruct (Rlt_dec 0 dx) as [Hpos|Hnpos].
  - rewrite atan_direction. field. lra.
  - destruct (Rlt_dec dx 0) as [Hneg|Hnneg].
    + assert (Hs : sin (atan (dy / dx) - PI) = - sin (atan (dy / dx))).
      { pose proof (neg_sin (atan (dy / dx) - PI)) as H.
        replace (atan (dy / dx) - PI + PI) with (atan (dy / dx)) in H by ring.
        lra. }
      assert (Hc : cos (atan (dy / dx) - PI) = - cos (atan (dy / dx))).
      { pose proof (neg_cos (atan (dy / dx) - PI)) as H.
        replace (atan (dy / dx) - PI + PI) with (atan (dy / dx)) in H by ring.
        lra. }
      destruct (Rle_dec 0 dy).
      * rewrite neg_sin, neg_cos, atan_direction. field. lra.
      * rewrite Hs, Hc, atan_direction. field. lra.
    + assert (dx = 0) by lra. subst dx.
      destruct (Rlt_dec 0 dy).
      * rewrite cos_PI2. ring.
      * destruct (Rlt_dec dy 0).
        -- rewrite cos_neg, cos_PI2. ring.
        -- assert (dy = 0) by lra. subst dy. ring.
Qed.

Lemma descriptor_rows (z : list R) (obs_lines : list Line2D) :
  length z = 6%nat ->
  zip_with (fun r dr => take 4 r ++ dr ++ drop 6 r)
    (zip_with (fun r dr => take 0 r ++ dr ++ drop 4 r)
       (repeat z (length obs_lines))
       (map (fun '(start_x, end_x, start_y, end_y) =>
               [start_x; start_y; end_x; end_y]) obs_lines))
    (map (fun o => let '(c, s) := unit_vec o in [c; s])
       (map (fun o => py_mod (o + PI / 2) (2 * PI)) (map orient obs_lines)))
  = map descriptor obs_lines.
Proof.
  intros Hz.
  destruct z as [|z0 [|z1 [|z2 [|z3 [|z4 [|z5 [|z6 z]]]]]]]; try discriminate.
  induction obs_lines as [|[[[sx ex] sy] ey] rest IH]; [reflexivity|].
  cbn [length repeat map zip_with]. rewrite IH. reflexivity.
Qed.

Lemma _update_obstacles_raw_eval (obs_lines : list Line2D) :
  obs_lines <> [] ->
  _update_obstacles_raw (Some obs_lines)
  = Returns (Arr2 (Matrix 6 (map descriptor obs_lines))).
Proof.
  intros Hne. unfold _update_obstacles_raw.
  destruct obs_lines as [|l rest]; [contradiction|].
  set (lines := l :: rest).
  assert (E4 : np_array_rows 4
                 (map (fun '(start_x, end_x, start_y, end_y) =>
                         [start_x; start_y; end_x; end_y]) lines)
               = Arr2 (Matrix 4
                   (map (fun '(start_x, end_x, start_y, end_y) =>
                           [start_x; start_y; end_x; end_y]) lines))).
  { reflexivity. }
  assert (E2 : np_array_rows 2
                 (map (fun o => let '(c, s) := unit_vec o in [c; s])
                    (map (fun o => py_mod (o + PI / 2) (2 * PI)) (map orient lines)))
               = Arr2 (Matrix 2
                   (map (fun o => let '(c, s) := unit_vec o in [c; s])
                      (map (fun o => py_mod (o + PI / 2) (2 * PI))
                         (map orient lines))))).
  { reflexivity. }
  rewrite E4, E2. unfold assign_cols, set_cols.
  rewrite same_shape_true; cycle 1.
  { reflexivity. }
  { unfold nrows. cbn [rows cols np_zeros]. rewrite !length_map, repeat_length.
    reflexivity. }
  cbn [obind]. rewrite same_shape_true; cycle 1.
  { reflexivity. }
  { unfold nrows. cbn [rows cols np_zeros].
    rewrite !length_map, length_zip_with, !length_map, repeat_length. apply Nat.min_id. }
  cbn [obind ncols rows np_zeros]. rewrite descriptor_rows; reflexivity.
Qed.

Lemma descriptor_is_descriptor_of l : descriptor_of l (descriptor l).
Proof.
  destruct l as [[[sx ex] sy] ey]. unfold descriptor_of, descriptor.
  fold (ortho_angle (atan2 (ey - sy) (ex - sx))).
  split; [reflexivity|]. split.
  - pose proof (sin2_cos2 (ortho_angle (atan2 (ey - sy) (ex - sx)))) as H.
    unfold Rsqr in H. lra.
  - rewrite cos_ortho_angle, sin_ortho_angle.
    pose proof (atan2_direction (ey - sy) (ex - sx)) as H. lra.
Qed.

Lemma atan2_horizontal : atan2 (0 - 0) (10 - 0) = 0.
Proof.
  unfold atan2. destruct (Rlt_dec 0 (10 - 0)) as [_|H]; [|exfalso; lra].
  replace ((0 - 0) / (10 - 0)) with 0 by (field; lra). apply atan_0.
Qed.

(** C8: for a non-empty list of lines given as (start_x, end_x, start_y,
    end_y), the descriptors are an array of six columns whose row for a line
    is (start_x, start_y, end_x, end_y, cos theta, sin theta) with
    theta = ((atan2(dy, dx) + 2 pi) mod 2 pi + pi / 2) mod 2 pi, and
    (cos theta, sin theta) is a unit vector perpendicular to (dx, dy).  For
    the horizontal line (0, 10, 0, 0) the vector is (0, 1). *)
Theorem descriptors_are_orthogonal_units (obs_lines : list Line2D) :
  obs_lines <> [] ->
  (exists rows,
      _update_obstacles_raw (Some obs_lines) = Returns (Arr2 (Matrix 6 rows)) /\
      Forall2 descriptor_of obs_lines rows) /\
  (exists c s,
      _update_obstacles_raw (Some [(0, 10, 0, 0)])
        = Returns (Arr2 (Matrix 6 [[0; 0; 10; 0; c; s]])) /\
      c = 0 /\ s = 1).
Proof.
  intros Hne. split.
  - exists (map descriptor obs_lines).
    split; [apply _update_obstacles_raw_eval; exact Hne|].
    clear Hne. induction obs_lines as [|l rest IH]; simpl; constructor.
    + apply descriptor_is_descriptor_of.
    + exact IH.
  - eexists; eexists. split.
    + rewrite _update_obstacles_raw_eval by discriminate. reflexivity.
    + rewrite cos_ortho_angle, sin_ortho_angle, atan2_horizontal, sin_0, cos_0.
      split; [ring|reflexivity].
Qed.

Lemma descriptors_are_orthogonal_units_witness :
  (exists rows,
      _update_obstacles_raw (Some [(0, 10, 0, 0); (1, 4, 1, 5)])
        = Returns (Arr2 (Matrix 6 rows)) /\
      Forall2 descriptor_of [(0, 10, 0, 0); (1, 4, 1, 5)] rows) /\
  (exists c s,
      _update_obstacles_raw (Some [(0, 10, 0, 0)])
        = Returns (Arr2 (Matrix 6 [[0; 0; 10; 0; c; s]])) /\
      c = 0 /\ s = 1).
Proof.
  apply (descriptors_are_orthogonal_units [(0, 10, 0, 0); (1, 4, 1, 5)]).
  discriminate.
Defined.

(** * Further properties *)

(** ** [capped_velocity] *)

Lemma sum_sq_zero r : sum_sq r = 0 -> Forall (fun x => x = 0) r.
Proof.
  induction r as [|x r IH]; simpl; intros H; constructor.
  - pose proof (sum_sq_nonneg r) as Hr. pose proof (Rle_0_sqr x) as Hx.
    unfold Rsqr in Hx. assert (Hxx : x * x = 0) by lra.
    apply Rmult_integral in Hxx. destruct Hxx; assumption.
  - apply IH. pose proof (sum_sq_nonneg r) as Hr. pose proof (Rle_0_sqr x) as Hx.
    unfold Rsqr in Hx. lra.
Qed.

Lemma norm_zero r : norm r = 0 -> Forall (fun x => x = 0) r.
Proof.
  intros H. apply sum_sq_zero. apply sqrt_eq_0; [apply sum_sq_nonneg|exact H].
Qed.

Lemma map_scale_one (r : list R) : map (fun x => x * 1) r = r.
Proof. induction r as [|x r IH]; simpl; [reflexivity|]. rewrite IH. f_equal. ring. Qed.

Lemma cap_row_below v m : norm v <= m -> cap_row v m = v.
Proof.
  intros Hle. unfold cap_row. destruct (Req_dec_T (norm v) 0) as [Hz|Hnz].
  - pose proof (norm_zero v Hz) as Hall. clear Hz Hle.
    induction Hall as [|x r Hx _ IH]; simpl; [reflexivity|].
    rewrite IH. f_equal. subst x. ring.
  - pose proof (norm_nonneg v) as H0.
    assert (H1 : 1 <= m / norm v).
    { apply Rmult_le_reg_r with (norm v); [lra|].
      replace (m / norm v * norm v) with m by (field; lra). lra. }
    rewrite Rmin_left by exact H1. apply map_scale_one.
Qed.

Lemma cap_row_above v m :
  0 < norm v -> m < norm v ->
  cap_row v m = map (fun x => x * (m / norm v)) v /\ norm (cap_row v m) = Rabs m.
Proof.
  intros Hpos Hlt.
  unfold cap_row. destruct (Req_dec_T (norm v) 0) as [Hz|_]; [lra|].
  assert (H1 : m / norm v <= 1).
  { apply Rmult_le_reg_r with (norm v); [lra|].
    replace (m / norm v * norm v) with m by (field; lra). lra. }
  rewrite Rmin_right by exact H1. split; [reflexivity|].
  rewrite norm_scale. unfold Rdiv. rewrite Rabs_mult.
  rewrite (Rabs_pos_eq (/ norm v)) by (left; apply Rinv_0_lt_compat; exact Hpos).
  field. lra.
Qed.

(** X1: [capped_velocity] returns the desired velocities as they are when no
    agent's desired speed exceeds its cap. *)
Theorem capped_velocity_below_cap (d : matrix) (ms : list R) :
  Forall2 (fun r m => norm r <= m) (rows d) ms ->
  capped_velocity d ms = Returns d.
Proof.
  intros Hall. pose proof (Forall2_length _ _ _ Hall) as Hlen.
  rewrite capped_velocity_eval by (unfold nrows; symmetry; exact Hlen).
  destruct d as [c rs]. simpl in *. f_equal. f_equal.
  induction Hall as [|r m rs ms Hr _ IH]; simpl; [reflexivity|].
  rewrite (cap_row_below r m Hr). f_equal. apply IH.
  simpl in Hlen. lia.
Qed.

Lemma resting_and_slow_below_caps :
  Forall2 (fun r m => norm r <= m) [[0; 0]; [1; 0]] [0; 2].
Proof.
  constructor; [|constructor; [|constructor]].
  - rewrite norm_pair. replace (0 * 0 + 0 * 0) with 0 by lra. rewrite sqrt_0. lra.
  - rewrite norm_e1. lra.
Qed.

Lemma capped_velocity_below_cap_witness :
  capped_velocity (Matrix 2 [[0; 0]; [1; 0]]) [0; 2]
  = Returns (Matrix 2 [[0; 0]; [1; 0]]).
Proof.
  apply (capped_velocity_below_cap (Matrix 2 [[0; 0]; [1; 0]]) [0; 2]).
  exact resting_and_slow_below_caps.
Defined.

(** X2: an agent whose desired speed is positive and above its cap [m] gets
    its desired velocity multiplied by [m / speed]: the same direction at
    speed [m] for a cap that is not negative, and the opposite direction at
    speed [-m] for a negative cap. *)
Theorem capped_velocity_above_cap
  (d : matrix) (ms : list R) (i : nat) (r : list R) (m : R) :
  length ms = nrows d ->
  rows d !! i = Some r -> ms !! i = Some m ->
  0 < norm r -> m < norm r ->
  exists d', capped_velocity d ms = Returns d' /\
    rows d' !! i = Some (map (fun x => x * (m / norm r)) r) /\
    norm (map (fun x => x * (m / norm r)) r) = Rabs m.
Proof.
  intros Hlen Hr Hm Hpos Hlt.
  rewrite (capped_velocity_eval d ms Hlen). eexists. split; [reflexivity|].
  destruct (cap_row_above r m Hpos Hlt) as [E N]. simpl.
  rewrite (lookup_zip_with_pair cap_row (rows d) ms i r m Hr Hm).
  rewrite E in *. split; [reflexivity|exact N].
Qed.

Lemma norm_3_4 : norm [3; 4] = 5.
Proof.
  rewrite norm_pair. replace (3 * 3 + 4 * 4) with (5 * 5) by lra.
  apply sqrt_square. lra.
Qed.

Lemma capped_velocity_above_cap_witness :
  exists d', capped_velocity (Matrix 2 [[3; 4]]) [-1] = Returns d' /\
    rows d' !! 0%nat = Some (map (fun x => x * (-1 / norm [3; 4])) [3; 4]) /\
    norm (map (fun x => x * (-1 / norm [3; 4])) [3; 4]) = Rabs (-1).
Proof.
  apply (capped_velocity_above_cap (Matrix 2 [[3; 4]]) [-1] 0%nat [3; 4] (-1));
    try reflexivity; rewrite norm_3_4; lra.
Defined.

(** X3: with caps that are not negative, capping is idempotent: capping the
    capped velocities again changes nothing. *)
Theorem capped_velocity_idempotent (d d' : matrix) (ms : list R) :
  Forall (fun m => 0 <= m) ms ->
  capped_velocity d ms = Returns d' ->
  capped_velocity d' ms = Returns d'.
Proof.
  intros Hpos H. unfold capped_velocity in H.
  destruct (Nat.eqb_spec (length ms) (length (row_norms d))) as [Hlen|]; [|discriminate].
  unfold row_norms in Hlen. rewrite length_map in Hlen.
  rewrite capped_rows in H. inversion H; subst d'. clear H.
  apply capped_velocity_below_cap. simpl.
  revert ms Hpos Hlen. induction (rows d) as [|r rs IH]; intros [|m ms] Hpos Hlen;
    simpl in *; try discriminate; constructor.
  - inversion Hpos; subst. apply norm_cap_row_le. assumption.
  - inversion Hpos; subst. apply IH; [assumption|lia].
Qed.

Lemma capped_velocity_idempotent_witness :
  capped_velocity (Matrix 2 [[0; 0]; [1; 0]]) [0; 2]
  = Returns (Matrix 2 [[0; 0]; [1; 0]]).
Proof.
  apply (capped_velocity_idempotent (Matrix 2 [[0; 0]; [1; 0]])
           (Matrix 2 [[0; 0]; [1; 0]]) [0; 2]).
  - constructor; [lra|constructor; [lra|constructor]].
  - rewrite capped_velocity_eval by reflexivity. simpl.
    rewrite (cap_row_below [0; 0] 0), (cap_row_below [1; 0] 2); [reflexivity| |].
    + rewrite norm_e1. lra.
    + rewrite norm_pair. replace (0 * 0 + 0 * 0) with 0 by lra. rewrite sqrt_0. lra.
Defined.

(** ** Where the state lives over a run of steps *)

Lemma step_result self force g h st a ms gl :
  _state self = Some st -> h !! st = Some (ONd (Arr2 a)) ->
  max_speeds self = Some ms ->
  match g with Some l => Some l | None => _groups self end = Some gl ->
  (4 <= ncols a)%nat -> ncols force = 2%nat -> nrows force = nrows a ->
  length ms = nrows a ->
  step self force g h
  = Returns
      (with_groups
         (assigned self st (stepped self a force ms)
            (<[st := ONd (Arr2 (stepped self a force ms))]> h)) gl,
       stored_heap self (stepped self a force ms)
         (<[st := ONd (Arr2 (stepped self a force ms))]> h)).
Proof.
  intros Hs Hl Hms Hg Hc Hf Hn Hm.
  rewrite (step_eval self force g h st a ms Hs Hl Hms Hc Hf Hn Hm).
  fold (stepped self a force ms).
  set (h2 := <[st := ONd (Arr2 (stepped self a force ms))]> h).
  assert (Hl2 : h2 !! st = Some (ONd (Arr2 (stepped self a force ms)))).
  { apply list_lookup_insert_eq. eapply lookup_lt_Some. exact Hl. }
  assert (Eg : (match g with Some l => ret l | None => groups self end) h2
               = Returns (gl, h2)).
  { destruct g as [l|].
    - inversion Hg. reflexivity.
    - unfold groups. rewrite Hg. reflexivity. }
  rewrite (bind_eval _ _ _ _ _ Eg).
  apply (update_eval self st (Some gl) h2 _ Hl2).
Qed.

Lemma step_track n v self h st a force g :
  running n v self h st a -> force_shape n (force, g) ->
  exists self' h' st' a',
    step self force g h = Returns (self', h') /\
    running n v self' h' st' a' /\
    (st' = st \/ (length h <= st')%nat) /\
    ((7 <= ncols a)%nat -> st' = st) /\
    (ncols a <= ncols a')%nat /\
    (length h <= length h')%nat /\
    (forall l, l <> st -> (l < length h)%nat -> h' !! l = h !! l).
Proof.
  intros (Hs & Hl & Hc & Hn & (gl & Hg) & Hi & Hv & Hms) (Hfc & Hfn). simpl in *.
  set (ms := map (fun s => max_speed_multiplier self * s) v) in *.
  assert (Hlen : length ms = nrows a) by (unfold ms; rewrite length_map; lia).
  assert (Hgl : exists gl', match g with Some l => Some l | None => _groups self end
                            = Some gl').
  { destruct g as [l|]; [exists l; reflexivity|exists gl; exact Hg]. }
  destruct Hgl as [gl' Hgl].
  pose proof (step_result self force g h st a ms gl' Hs Hl Hms Hgl Hc Hfc
                ltac:(lia) Hlen) as E.
  set (a2 := stepped self a force ms) in *.
  set (h2 := <[st := ONd (Arr2 a2)]> h) in *.
  pose proof (lookup_lt_Some _ _ _ Hl) as Hlt.
  assert (Hl2 : h2 !! st = Some (ONd (Arr2 a2))).
  { apply list_lookup_insert_eq. exact Hlt. }
  assert (L2 : length h2 = length h) by apply length_insert.
  assert (Hn2 : nrows a2 = n).
  { unfold a2, stepped, nrows in *. simpl. rewrite length_next_rows; lia. }
  pose proof (stored_lookup self st a2 h2 Hl2) as Hst.
  pose proof (only_writes_step self force g st Hs _ _ _ E) as [Hgrow Hframe].
  exists (with_groups (assigned self st a2 h2) gl'), (stored_heap self a2 h2),
    (stored_loc st a2 h2), (stored_matrix self a2).
  split; [exact E|]. split; [|split; [|split; [|split; [|split]]]].
  - unfold running. simpl.
    assert (Han : anchored_speeds self a2 = v).
    { unfold anchored_speeds. rewrite Hi. reflexivity. }
    rewrite Han. rewrite stored_matrix_kept in *.
    split; [reflexivity|]. split; [exact Hst|].
    split; [pose proof (kept_ncols a2 (default_tau self)) as Hk;
            unfold a2 in Hk at 1; simpl in Hk; lia|].
    split; [rewrite kept_nrows; exact Hn2|].
    split; [exists gl'; reflexivity|]. repeat split; assumption.
  - unfold stored_loc. destruct (ncols a2 <? 7)%nat; [right; lia|left; reflexivity].
  - intros H7. unfold stored_loc.
    destruct (Nat.ltb_spec (ncols a2) 7) as [Hlt7|]; [|reflexivity].
    unfold a2 in Hlt7. simpl in Hlt7. lia.
  - rewrite stored_matrix_kept.
    pose proof (kept_ncols a2 (default_tau self)) as Hk.
    unfold a2 in Hk at 1. simpl in Hk. exact Hk.
  - exact Hgrow.
  - exact Hframe.
Qed.

Lemma steps_track n v inputs : forall self h st a,
  running n v self h st a -> Forall (force_shape n) inputs ->
  exists self' h' st' a',
    steps self inputs h = Returns (self', h') /\
    running n v self' h' st' a' /\
    (st' = st \/ (length h <= st')%nat) /\
    ((7 <= ncols a)%nat -> st' = st) /\
    (ncols a <= ncols a')%nat /\
    (length h <= length h')%nat /\
    (forall l, l <> st -> (l < length h)%nat -> h' !! l = h !! l).
Proof.
  induction inputs as [|[force g] rest IH]; intros self h st a Hrun Hall.
  - exists self, h, st, a. split; [reflexivity|]. split; [exact Hrun|].
    split; [left; reflexivity|]. split; [reflexivity|].
    split; [lia|]. split; [lia|]. reflexivity.
  - inversion Hall as [|x xs Hok Hrest]; subst.
    destruct (step_track n v self h st a force g Hrun Hok)
      as (s1 & h1 & st1 & a1 & E1 & Hrun1 & Hloc1 & H71 & Hc1 & Hg1 & Hf1).
    destruct (IH s1 h1 st1 a1 Hrun1 Hrest)
      as (s2 & h2 & st2 & a2 & E2 & Hrun2 & Hloc2 & H72 & Hc2 & Hg2 & Hf2).
    exists s2, h2, st2, a2.
    split; [simpl; rewrite (bind_eval _ _ _ _ _ E1); exact E2|].
    split; [exact Hrun2|].
    split; [destruct Hloc2 as [->|]; [exact Hloc1|right; lia]|].
    split; [intros H7; rewrite (H72 ltac:(lia)); apply H71; exact H7|].
    split; [lia|]. split; [lia|].
    intros l Hne Hlt. rewrite Hf2.
    + apply Hf1; assumption.
    + destruct Hloc1 as [->|]; [exact Hne|lia].
    + lia.
Qed.

Lemma init_running st g config h a :
  h !! st = Some (ONd (Arr2 a)) -> (4 <= ncols a)%nat ->
  exists self h' st' a' v,
    __init__ st g config h = Returns (self, h') /\
    running (nrows a) v self h' st' a' /\
    st' = (if (ncols a <? 7)%nat then length h else st) /\
    (ncols a <= ncols a')%nat /\
    (length h <= length h')%nat /\
    (forall l, (l < length h)%nat -> h' !! l = h !! l).
Proof.
  intros Hl Hc. rewrite __init___unfold.
  rewrite (update_eval (blank config) st g h a Hl).
  pose proof (stored_lookup (blank config) st a h Hl) as Hst.
  pose proof (lookup_lt_Some _ _ _ Hl) as Hlt.
  assert (Hgrow : (length h <= length (stored_heap (blank config) a h))%nat).
  { unfold stored_heap. destruct (ncols a <? 7)%nat; [rewrite length_app|]; lia. }
  assert (Hold : forall l, (l < length h)%nat ->
                   stored_heap (blank config) a h !! l = h !! l).
  { intros l Hl'. unfold stored_heap.
    destruct (ncols a <? 7)%nat; [apply lookup_app_l; exact Hl'|reflexivity]. }
  assert (Hlenv : length (anchored_speeds (blank config) a) = nrows a).
  { unfold anchored_speeds. simpl. rewrite stored_matrix_kept.
    unfold row_norms. simpl. rewrite !length_map. fold (nrows (kept a (SceneConfig.tau config))).
    apply kept_nrows. }
  assert (Hrun : forall gl hx,
            hx !! stored_loc st a h = Some (ONd (Arr2 (stored_matrix (blank config) a))) ->
            running (nrows a) (anchored_speeds (blank config) a)
              (with_groups (assigned (blank config) st a h) gl) hx
              (stored_loc st a h) (stored_matrix (blank config) a)).
  { intros gl hx Hx. unfold running. simpl.
    split; [reflexivity|]. split; [exact Hx|].
    rewrite stored_matrix_kept.
    split; [pose proof (kept_ncols a (SceneConfig.tau config)) as Hk; simpl; lia|].
    split; [apply kept_nrows|]. split; [exists gl; reflexivity|].
    repeat split; [exact Hlenv]. }
  assert (Hk : (ncols a <= ncols (stored_matrix (blank config) a))%nat).
  { rewrite stored_matrix_kept. apply kept_ncols. }
  destruct g as [gl|].
  - eexists; eexists; exists (stored_loc st a h), (stored_matrix (blank config) a),
      (anchored_speeds (blank config) a).
    split; [reflexivity|]. split; [apply Hrun; exact Hst|].
    split; [reflexivity|]. split; [exact Hk|]. split; [exact Hgrow|exact Hold].
  - eexists; eexists; exists (stored_loc st a h), (stored_matrix (blank config) a),
      (anchored_speeds (blank config) a).
    split; [reflexivity|].
    split; [apply Hrun; apply lookup_snoc_old; exact Hst|].
    split; [reflexivity|]. split; [exact Hk|].
    split; [rewrite length_app; lia|].
    intros l Hl'. rewrite lookup_app_l by lia. apply Hold. exact Hl'.
Qed.

Lemma run_track st g config h a inputs :
  h !! st = Some (ONd (Arr2 a)) -> (4 <= ncols a)%nat ->
  Forall (force_shape (nrows a)) inputs ->
  exists self' h' st' a' v,
    bind (__init__ st g config) (fun self => steps self inputs) h
      = Returns (self', h') /\
    running (nrows a) v self' h' st' a' /\
    ((7 <= ncols a)%nat -> st' = st) /\
    ((ncols a < 7)%nat -> (length h <= st')%nat /\ h' !! st = Some (ONd (Arr2 a))).
Proof.
  intros Hl Hc Hall.
  pose proof (lookup_lt_Some _ _ _ Hl) as Hlt.
  destruct (init_running st g config h a Hl Hc)
    as (s0 & h0 & st0 & a0 & v & E0 & Hrun0 & Hst0 & Hc0 & Hg0 & Hf0).
  destruct (steps_track _ v inputs s0 h0 st0 a0 Hrun0 Hall)
    as (s1 & h1 & st1 & a1 & E1 & Hrun1 & Hloc1 & H71 & Hc1 & Hg1 & Hf1).
  exists s1, h1, st1, a1, v.
  split; [rewrite (bind_eval _ _ _ _ _ E0); exact E1|].
  split; [exact Hrun1|]. split.
  - intros H7. rewrite (H71 ltac:(lia)). rewrite Hst0.
    destruct (Nat.ltb_spec (ncols a) 7); [lia|reflexivity].
  - intros H6.
    assert (Est0 : st0 = length h).
    { rewrite Hst0. destruct (Nat.ltb_spec (ncols a) 7); [reflexivity|lia]. }
    split; [destruct Hloc1 as [->|]; lia|].
    rewrite Hf1 by lia. rewrite Hf0 by lia. exact Hl.
Qed.

(** X4: the number of agents never changes: after construction and any run
    of steps with forces of shape (N, 2), [size] is still the row count of the
    array the object was built from. *)
Theorem size_is_constant
  (config : SceneConfig.t) (st : loc) (g : option loc) (h : heap) (a : matrix)
  (inputs : list (matrix * option loc)) :
  h !! st = Some (ONd (Arr2 a)) -> (4 <= ncols a)%nat ->
  Forall (force_shape (nrows a)) inputs ->
  exists self' h',
    bind (__init__ st g config) (fun self => steps self inputs) h
      = Returns (self', h') /\
    size self' h' = Returns (nrows a, h').
Proof.
  intros Hl Hc Hall.
  destruct (run_track st g config h a inputs Hl Hc Hall)
    as (s & h' & st' & a' & v & E & (Hs & Hl' & _ & Hn & _) & _).
  exists s, h'. split; [exact E|].
  unfold size, state. rewrite Hs.
  rewrite (bind_eval (attr (Some st')) _ h' st' h' eq_refl).
  rewrite (bind_eval _ _ _ _ _ (get_matrix_eval _ _ _ Hl')).
  rewrite Hn. reflexivity.
Qed.

Lemma two_steps_shape :
  Forall (force_shape (nrows two_agents)) [(zero_force, None); (braking_force, None)].
Proof. repeat constructor. Qed.

Lemma size_is_constant_witness :
  exists self' h',
    bind (__init__ 0%nat None example_config)
      (fun self => steps self [(zero_force, None); (braking_force, None)])
      [ONd (Arr2 two_agents)]
      = Returns (self', h') /\
    size self' h' = Returns (nrows two_agents, h').
Proof.
  apply (size_is_constant example_config 0%nat None [ONd (Arr2 two_agents)]
           two_agents [(zero_force, None); (braking_force, None)]).
  - reflexivity.
  - simpl. lia.
  - exact two_steps_shape.
Defined.

(** X5: an array of 7 or more columns given to the constructor stays the live
    state: after any run of steps the [state] property is still that very
    array, which therefore holds the stepped values. *)
Theorem wide_state_is_shared
  (config : SceneConfig.t) (st : loc) (g : option loc) (h : heap) (a : matrix)
  (inputs : list (matrix * option loc)) :
  h !! st = Some (ONd (Arr2 a)) -> (7 <= ncols a)%nat ->
  Forall (force_shape (nrows a)) inputs ->
  exists self' h' a',
    bind (__init__ st g config) (fun self => steps self inputs) h
      = Returns (self', h') /\
    state self' h' = Returns (st, h') /\
    h' !! st = Some (ONd (Arr2 a')) /\
    stores self' h' a'.
Proof.
  intros Hl Hc Hall.
  destruct (run_track st g config h a inputs Hl ltac:(lia) Hall)
    as (s & h' & st' & a' & v & E & (Hs & Hl' & _) & H7 & _).
  rewrite (H7 Hc) in *.
  exists s, h', a'. split; [exact E|].
  split; [unfold state; rewrite Hs; reflexivity|].
  split; [exact Hl'|]. exists st. split; assumption.
Qed.

Lemma wide_state_is_shared_witness :
  exists self' h' a',
    bind (__init__ 0%nat None example_config)
      (fun self => steps self [(zero_force, None); (braking_force, None)])
      [ONd (Arr2 two_agents)]
      = Returns (self', h') /\
    state self' h' = Returns (0%nat, h') /\
    h' !! 0%nat = Some (ONd (Arr2 a')) /\
    stores self' h' a'.
Proof.
  apply (wide_state_is_shared example_config 0%nat None [ONd (Arr2 two_agents)]
           two_agents [(zero_force, None); (braking_force, None)]).
  - reflexivity.
  - simpl. lia.
  - exact two_steps_shape.
Defined.

(** X6: an array of fewer than 7 columns given to the constructor is never
    written: the object works on its own padded copy, and after any run of
    steps the caller's array holds what it held. *)
Theorem narrow_state_is_copied
  (config : SceneConfig.t) (st : loc) (g : option loc) (h : heap) (a : matrix)
  (inputs : list (matrix * option loc)) :
  h !! st = Some (ONd (Arr2 a)) -> (4 <= ncols a)%nat -> (ncols a < 7)%nat ->
  Forall (force_shape (nrows a)) inputs ->
  exists self' h' st',
    bind (__init__ st g config) (fun self => steps self inputs) h
      = Returns (self', h') /\
    state self' h' = Returns (st', h') /\ st' <> st /\
    h' !! st = Some (ONd (Arr2 a)).
Proof.
  intros Hl Hc H6 Hall.
  pose proof (lookup_lt_Some _ _ _ Hl) as Hlt.
  destruct (run_track st g config h a inputs Hl Hc Hall)
    as (s & h' & st' & a' & v & E & (Hs & _) & _ & Hn).
  destruct (Hn H6) as [Hge Hsame].
  exists s, h', st'. split; [exact E|].
  split; [unfold state; rewrite Hs; reflexivity|].
  split; [lia|exact Hsame].
Qed.

Lemma narrow_state_is_copied_witness :
  exists self' h' st',
    bind (__init__ 0%nat None example_config)
      (fun self => steps self [(Matrix 2 [[1; 1]], None)])
      [ONd (Arr2 six_columns)]
      = Returns (self', h') /\
    state self' h' = Returns (st', h') /\ st' <> 0%nat /\
    h' !! 0%nat = Some (ONd (Arr2 six_columns)).
Proof.
  apply (narrow_state_is_copied example_config 0%nat None [ONd (Arr2 six_columns)]
           six_columns [(Matrix 2 [[1; 1]], None)]).
  - reflexivity.
  - simpl. lia.
  - simpl. lia.
  - repeat constructor.
Defined.

(** ** The views after construction from six columns *)

Lemma slices_of_padded (r : list R) (t : R) :
  length r = 6%nat ->
  slice 0 2 (r ++ [t]) = slice 0 2 r /\ slice 2 4 (r ++ [t]) = slice 2 4 r /\
  slice 4 6 (r ++ [t]) = slice 4 6 r /\ slice 6 7 (r ++ [t]) = [t].
Proof.
  destruct r as [|x0 [|x1 [|x2 [|x3 [|x4 [|x5 [|x6 r]]]]]]]; simpl; intros H;
    try discriminate.
  repeat split.
Qed.

Lemma view_eval self st a h lo hi :
  _state self = Some st -> h !! st = Some (ONd (Arr2 a)) ->
  (do st <- state self; do a <- get_matrix st; ret (cols lo hi a)) h
  = Returns (cols lo hi a, h).
Proof.
  intros Hs Hl. unfold state. rewrite Hs.
  rewrite (bind_eval (attr (Some st)) _ h st h eq_refl).
  rewrite (bind_eval _ _ _ _ _ (get_matrix_eval _ _ _ Hl)). reflexivity.
Qed.

(** X7: an object built from a six-column array shows the caller's values
    through [pos], [vel] and [goal], column for column, and the configured
    default relaxation time for every agent through [tau]. *)
Theorem six_column_views
  (config : SceneConfig.t) (st : loc) (g : option loc) (h : heap) (a : matrix) :
  h !! st = Some (ONd (Arr2 a)) -> wf_matrix a -> ncols a = 6%nat ->
  exists self h',
    __init__ st g config h = Returns (self, h') /\
    pos self h' = Returns (cols 0 2 a, h') /\
    vel self h' = Returns (cols 2 4 a, h') /\
    goal self h' = Returns (cols 4 6 a, h') /\
    tau self h'
    = Returns (Matrix 1 (map (fun _ => [SceneConfig.tau config]) (rows a)), h').
Proof.
  intros Hl Hwf H6.
  destruct (update_keeps (blank config) st g h a Hl)
    as (self & h' & E & (l & Hs & Hl') & _).
  exists self, h'. split; [rewrite __init___unfold; exact E|].
  unfold pos, vel, goal, tau.
  rewrite !(view_eval self l _ h' _ _ Hs Hl').
  assert (Hk : kept a (default_tau (blank config))
               = Matrix 7 (map (fun r => r ++ [SceneConfig.tau config]) (rows a))).
  { unfold kept. rewrite H6. reflexivity. }
  rewrite Hk. unfold cols. simpl. rewrite H6. simpl.
  unfold wf_matrix in Hwf. rewrite H6 in Hwf.
  assert (Hmaps :
    map (slice 0 2) (map (fun r => r ++ [SceneConfig.tau config]) (rows a))
      = map (slice 0 2) (rows a) /\
    map (slice 2 4) (map (fun r => r ++ [SceneConfig.tau config]) (rows a))
      = map (slice 2 4) (rows a) /\
    map (slice 4 6) (map (fun r => r ++ [SceneConfig.tau config]) (rows a))
      = map (slice 4 6) (rows a) /\
    map (slice 6 7) (map (fun r => r ++ [SceneConfig.tau config]) (rows a))
      = map (fun _ => [SceneConfig.tau config]) (rows a)).
  { clear - Hwf. induction (rows a) as [|r rs IH]; [repeat split|].
    inversion Hwf as [|r' rs' Hr Hrs]; subst.
    destruct (IH Hrs) as (I1 & I2 & I3 & I4).
    destruct (slices_of_padded r (SceneConfig.tau config) Hr) as (S1 & S2 & S3 & S4).
    cbn [map]. rewrite I1, I2, I3, I4, S1, S2, S3, S4. repeat split. }
  destruct Hmaps as (M1 & M2 & M3 & M4). rewrite M1, M2, M3, M4.
  repeat split.
Qed.

Lemma six_column_views_witness :
  exists self h',
    __init__ 0%nat None example_config [ONd (Arr2 six_columns)] = Returns (self, h') /\
    pos self h' = Returns (cols 0 2 six_columns, h') /\
    vel self h' = Returns (cols 2 4 six_columns, h') /\
    goal self h' = Returns (cols 4 6 six_columns, h') /\
    tau self h'
    = Returns (Matrix 1 (map (fun _ => [SceneConfig.tau example_config])
                           (rows six_columns)), h').
Proof.
  apply (six_column_views example_config 0%nat None [ONd (Arr2 six_columns)]
           six_columns).
  - reflexivity.
  - repeat constructor.
  - reflexivity.
Defined.

(** ** Groups across a step *)

(** X8: a [step] that is given a group list makes the object hold that list;
    a [step] without one leaves the object holding the list it held. *)
Theorem step_groups
  (self : PedState) (force : matrix) (g : option loc) (h : heap)
  (self' : PedState) (h' : heap) :
  step self force g h = Returns (self', h') ->
  _groups self' = match g with Some l => Some l | None => _groups self end.
Proof.
  unfold step. intros H.
  do 7 (apply bind_Returns in H as (? & ? & _ & H)).
  apply bind_Returns in H as (l & h8 & Hg & H).
  pose proof (update_groups _ _ _ _ _ _ H) as Hu. simpl in Hu. rewrite Hu.
  destruct g as [l'|].
  - inversion Hg. reflexivity.
  - unfold groups, attr in Hg. destruct (_groups self); inversion Hg. reflexivity.
Qed.

Lemma step_groups_witness :
  _groups
    (with_groups
       (assigned two_agents_ped 0%nat (stepped two_agents_ped two_agents zero_force two_agents_caps)
          (<[0%nat := ONd (Arr2 (stepped two_agents_ped two_agents zero_force two_agents_caps))]>
             two_agents_heap)) 5%nat)
  = Some 5%nat.
Proof.
  apply (step_groups two_agents_ped zero_force (Some 5%nat) two_agents_heap _
           (stored_heap two_agents_ped
              (stepped two_agents_ped two_agents zero_force two_agents_caps)
              (<[0%nat := ONd (Arr2 (stepped two_agents_ped two_agents zero_force
                                       two_agents_caps))]> two_agents_heap))).
  apply (step_result two_agents_ped zero_force (Some 5%nat) two_agents_heap 0%nat
           two_agents two_agents_caps 5%nat); try reflexivity.
  simpl. lia.
Defined.

(** ** A change of the agent count *)

Lemma step_mismatch_raises self force g h st a ms :
  _state self = Some st -> h !! st = Some (ONd (Arr2 a)) ->
  max_speeds self = Some ms ->
  (4 <= ncols a)%nat -> ncols force = 2%nat -> nrows force = nrows a ->
  length ms <> nrows a ->
  step self force g h = Raises ValueError.
Proof.
  intros Hs Hl Hms Hc Hf Hn Hne. unfold step.
  rewrite (bind_eval _ _ _ _ _ (vel_eval self st a h Hs Hl)).
  assert (E1 : mat_add (cols 2 4 a) (scale_l (d_t self) force)
               = Returns (Matrix (ncols (cols 2 4 a))
                   (zip_with (zip_with Rplus) (rows (cols 2 4 a))
                      (rows (scale_l (d_t self) force))))).
  { unfold mat_add. rewrite same_shape_true; [reflexivity| |].
    - cbn [ncols cols scale_l]. lia.
    - unfold nrows. cbn [rows cols scale_l]. rewrite !length_map.
      exact (eq_sym Hn). }
  rewrite (bind_lift _ _ _ _ E1). rewrite Hms.
  rewrite (bind_eval (ret ms) _ h ms h eq_refl).
  unfold capped_velocity, row_norms. cbn [rows cols scale_l].
  rewrite length_map, length_zip_with, !length_map.
  fold (nrows a). fold (nrows force). rewrite Hn, Nat.min_id.
  destruct (Nat.eqb_spec (length ms) (nrows a)) as [E|_]; [contradiction|].
  reflexivity.
Qed.

(** X9: [update] accepts a state with another number of agents, but the speed
    caps keep the old agent count, so the next [step] fails with a
    [ValueError] when the caps are divided by the desired speeds.  (Neither
    count is 1, which numpy would broadcast.) *)
Theorem step_after_resize_raises
  (config : SceneConfig.t) (st st2 : loc) (g g2 g3 : option loc) (h : heap)
  (a a2 force : matrix) :
  h !! st = Some (ONd (Arr2 a)) -> h !! st2 = Some (ONd (Arr2 a2)) ->
  (4 <= ncols a)%nat -> (4 <= ncols a2)%nat ->
  nrows a2 <> nrows a -> nrows a <> 1%nat -> nrows a2 <> 1%nat ->
  ncols force = 2%nat -> nrows force = nrows a2 ->
  (exists self1 h1,
      bind (__init__ st g config) (fun self => update self st2 g2) h
        = Returns (self1, h1)) /\
  bind (__init__ st g config)
    (fun self => bind (update self st2 g2) (fun self => step self force g3)) h
  = Raises ValueError.
Proof.
  intros Hl Hl2 Hc Hc2 Hne _ _ Hf Hn.
  pose proof (lookup_lt_Some _ _ _ Hl2) as Hlt2.
  destruct (init_running st g config h a Hl Hc)
    as (s0 & h0 & st0 & a0 & v & E0 & Hrun0 & _ & _ & _ & Hf0).
  destruct Hrun0 as (_ & _ & _ & _ & _ & Hi0 & Hv0 & Hms0).
  assert (Hl2' : h0 !! st2 = Some (ONd (Arr2 a2))).
  { rewrite Hf0 by exact Hlt2. exact Hl2. }
  pose proof (update_eval s0 st2 g2 h0 a2 Hl2') as E1.
  pose proof (stored_lookup s0 st2 a2 h0 Hl2') as Hst.
  rewrite stored_matrix_kept in Hst.
  assert (Han : anchored_speeds s0 a2 = v).
  { unfold anchored_speeds. rewrite Hi0. reflexivity. }
  assert (Hraise : forall gl hx,
            hx !! stored_loc st2 a2 h0
              = Some (ONd (Arr2 (kept a2 (default_tau s0)))) ->
            step (with_groups (assigned s0 st2 a2 h0) gl) force g3 hx
            = Raises ValueError).
  { intros gl hx Hx.
    apply (step_mismatch_raises _ force g3 hx (stored_loc st2 a2 h0)
             (kept a2 (default_tau s0))
             (map (fun s => max_speed_multiplier s0 * s) v)).
    - reflexivity.
    - exact Hx.
    - simpl. rewrite Han. reflexivity.
    - pose proof (kept_ncols a2 (default_tau s0)). lia.
    - exact Hf.
    - rewrite kept_nrows. exact Hn.
    - rewrite kept_nrows, length_map, Hv0. congruence. }
  split.
  - rewrite (bind_eval _ _ _ _ _ E0). rewrite E1.
    destruct g2; eexists; eexists; reflexivity.
  - rewrite (bind_eval _ _ _ _ _ E0).
    destruct g2 as [gl|].
    + rewrite (bind_eval _ _ _ _ _ E1). apply Hraise. exact Hst.
    + rewrite (bind_eval _ _ _ _ _ E1). apply Hraise.
      apply lookup_snoc_old. exact Hst.
Qed.

Lemma step_after_resize_raises_witness :
  (exists self1 h1,
      bind (__init__ 0%nat None example_config) (fun self => update self 1%nat None)
        [ONd (Arr2 two_agents); ONd (Arr2 three_agents)]
        = Returns (self1, h1)) /\
  bind (__init__ 0%nat None example_config)
    (fun self => bind (update self 1%nat None)
                   (fun self => step self three_zero_forces None))
    [ONd (Arr2 two_agents); ONd (Arr2 three_agents)]
  = Raises ValueError.
Proof.
  apply (step_after_resize_raises example_config 0%nat 1%nat None None None
           [ONd (Arr2 two_agents); ONd (Arr2 three_agents)]
           two_agents three_agents three_zero_forces);
    try reflexivity; unfold nrows; simpl; lia.
Defined.

(** ** Motion without force *)

Lemma next_row_drift dt mult k r :
  (4 <= length r)%nat -> 1 <= mult ->
  next_row dt (drift dt k r) [0; 0] (mult * norm (slice 2 4 r))
  = drift dt (S k) r.
Proof.
  intros Hlen Hmult.
  destruct r as [|px [|py [|vx [|vy rest]]]]; simpl in Hlen; try lia.
  unfold drift. rewrite next_row_shape. cbn zeta.
  change (slice 2 4 (px :: py :: vx :: vy :: rest)) with [vx; vy].
  set (d := [vx + dt * 0; vy + dt * 0]).
  assert (Hd : d = [vx; vy]).
  { unfold d. f_equal; [ring|]. f_equal. ring. }
  assert (Hle : norm d <= mult * norm [vx; vy]).
  { rewrite Hd. pose proof (norm_nonneg [vx; vy]) as H0. nra. }
  pose proof (cap_row_below d (mult * norm [vx; vy]) Hle) as Hcap.
  rewrite cap_row_factor in Hcap. unfold d in Hcap at 2 3. simpl in Hcap.
  inversion Hcap as [[E1 E2]]. rewrite E1, E2. rewrite E1, E2.
  rewrite S_INR. f_equal; [ring|]. f_equal; [ring|]. f_equal; [ring|].
  f_equal. ring.
Qed.

Lemma next_rows_drift dt mult k rows0 :
  Forall (fun r => (4 <= length r)%nat) rows0 -> 1 <= mult ->
  next_rows dt (map (drift dt k) rows0) (repeat [0; 0] (length rows0))
    (map (fun s => mult * s) (map norm (map (slice 2 4) rows0)))
  = map (drift dt (S k)) rows0.
Proof.
  intros Hall Hmult. induction Hall as [|r rs Hr _ IH]; [reflexivity|].
  cbn [map length repeat next_rows].
  rewrite (next_row_drift dt mult k r Hr Hmult), IH. reflexivity.
Qed.

Lemma drift_0 dt r : drift dt 0 r = r.
Proof.
  destruct r as [|px [|py [|vx [|vy rest]]]]; try reflexivity.
  unfold drift. simpl. f_equal; [ring|]. f_equal. ring.
Qed.

Lemma map_drift_0 dt rs : map (drift dt 0) rs = rs.
Proof. induction rs as [|r rs IH]; simpl; [reflexivity|]. rewrite drift_0, IH. reflexivity. Qed.

Lemma coasting_steps (n : nat) (st : loc) (rows0 : list (list R)) (c : nat)
  (dt mult : R) (k : nat) :
  Forall (fun r => (4 <= length r)%nat) rows0 -> (7 <= c)%nat ->
  length rows0 = n -> 1 <= mult ->
  forall (self : PedState) (hj : heap) (j : nat),
  _state self = Some st -> d_t self = dt -> max_speed_multiplier self = mult ->
  (exists gl, _groups self = Some gl) ->
  initial_speeds self = Some (map norm (map (slice 2 4) rows0)) ->
  max_speeds self
  = Some (map (fun s => mult * s) (map norm (map (slice 2 4) rows0))) ->
  hj !! st = Some (ONd (Arr2 (Matrix c (map (drift dt j) rows0)))) ->
  exists self' h',
    steps self (coasting n k) hj = Returns (self', h') /\
    _state self' = Some st /\
    h' !! st = Some (ONd (Arr2 (Matrix c (map (drift dt (j + k)) rows0)))).
Proof.
  intros Hall Hc Hn Hmult.
  induction k as [|k IH]; intros self hj j Hs Hdt Hmul Hg Hi Hms Hj.
  - exists self, hj. split; [reflexivity|]. split; [exact Hs|].
    rewrite Nat.add_0_r. exact Hj.
  - destruct Hg as [gl Hg]. cbn [coasting repeat steps].
    set (ms := map (fun s => mult * s) (map norm (map (slice 2 4) rows0))) in *.
    set (aj := Matrix c (map (drift dt j) rows0)) in *.
    assert (Hlen : length ms = nrows aj).
    { unfold ms, aj, nrows. simpl. rewrite !length_map. reflexivity. }
    assert (Hfn : nrows (Matrix 2 (repeat [0; 0] n)) = nrows aj).
    { unfold nrows, aj. simpl. rewrite repeat_length, length_map.
      symmetry. exact Hn. }
    assert (Hc4 : (4 <= ncols aj)%nat) by (simpl; lia).
    pose proof (step_result self (Matrix 2 (repeat [0; 0] n)) None hj st aj ms gl
                  Hs Hj Hms Hg Hc4 eq_refl Hfn Hlen) as E.
    assert (Hstep : stepped self aj (Matrix 2 (repeat [0; 0] n)) ms
                    = Matrix c (map (drift dt (S j)) rows0)).
    { unfold stepped, aj. simpl. f_equal. rewrite <- Hn, Hdt.
      apply next_rows_drift; assumption. }
    rewrite Hstep in E.
    set (a2 := Matrix c (map (drift dt (S j)) rows0)) in *.
    set (h2 := <[st := ONd (Arr2 a2)]> hj) in *.
    assert (Hloc : stored_loc st a2 h2 = st).
    { unfold stored_loc, a2. simpl.
      destruct (Nat.ltb_spec c 7); [lia|reflexivity]. }
    assert (Hheap : stored_heap self a2 h2 = h2).
    { unfold stored_heap, a2. simpl.
      destruct (Nat.ltb_spec c 7); [lia|reflexivity]. }
    rewrite Hheap in E. fold (coasting n k). rewrite (bind_eval _ _ _ _ _ E).
    assert (Han : anchored_speeds self a2 = map norm (map (slice 2 4) rows0)).
    { unfold anchored_speeds. rewrite Hi. reflexivity. }
    assert (Hl2 : h2 !! st = Some (ONd (Arr2 a2))).
    { apply list_lookup_insert_eq. eapply lookup_lt_Some. exact Hj. }
    destruct (IH (with_groups (assigned self st a2 h2) gl) h2 (S j))
      as (s2 & h3 & E2 & Hs2 & Hl3).
    + simpl. rewrite Hloc. reflexivity.
    + exact Hdt.
    + exact Hmul.
    + exists gl. reflexivity.
    + simpl. rewrite Han. reflexivity.
    + simpl. rewrite Han, Hmul. reflexivity.
    + exact Hl2.
    + exists s2, h3. split; [exact E2|]. split; [exact Hs2|].
      replace (j + S k)%nat with (S j + k)%nat by lia. exact Hl3.
Qed.

(** X10: without force an agent keeps its velocity.  For an object built from
    a well-formed state of 7 or more columns with a multiplier of at least 1,
    [k] steps with zero force leave every velocity, goal and tau as they were
    and move every position by [k * d_t] times the velocity. *)
Theorem coasting_is_uniform_motion
  (config : SceneConfig.t) (st : loc) (g : option loc) (h : heap)
  (c : nat) (rows0 : list (list R)) (k : nat) :
  h !! st = Some (ONd (Arr2 (Matrix c rows0))) ->
  wf_matrix (Matrix c rows0) -> (7 <= c)%nat ->
  1 <= SceneConfig.max_speed_multiplier config ->
  exists self' h',
    bind (__init__ st g config)
      (fun self => steps self (coasting (length rows0) k)) h
      = Returns (self', h') /\
    stores self' h' (Matrix c (map (drift (SceneConfig.dt_secs config) k) rows0)).
Proof.
  intros Hl Hwf Hc Hmult.
  set (a := Matrix c rows0) in *.
  assert (Hall : Forall (fun r => (4 <= length r)%nat) rows0).
  { unfold wf_matrix in Hwf. simpl in Hwf.
    eapply Forall_impl; [exact Hwf|]. intros r Hr. simpl in Hr. lia. }
  rewrite __init___unfold.
  pose proof (update_eval (blank config) st g h a Hl) as E0.
  assert (Hloc : stored_loc st a h = st).
  { unfold stored_loc, a. simpl. destruct (Nat.ltb_spec c 7); [lia|reflexivity]. }
  assert (Hheap : stored_heap (blank config) a h = h).
  { unfold stored_heap, a. simpl. destruct (Nat.ltb_spec c 7); [lia|reflexivity]. }
  assert (Han : anchored_speeds (blank config) a = map norm (map (slice 2 4) rows0)).
  { unfold anchored_speeds, stored_matrix, a. simpl.
    destruct (Nat.ltb_spec c 7); [lia|reflexivity]. }
  assert (Hl0 : forall hx : heap, hx !! st = Some (ONd (Arr2 a)) ->
            hx !! st = Some (ONd (Arr2 (Matrix c
                          (map (drift (SceneConfig.dt_secs config) 0) rows0))))).
  { intros hx Hx. rewrite map_drift_0. exact Hx. }
  rewrite Hheap in E0.
  assert (Hgo : forall (gl : loc) (hx : heap), hx !! st = Some (ONd (Arr2 a)) ->
            exists self' h',
              steps (with_groups (assigned (blank config) st a h) gl)
                (coasting (length rows0) k) hx = Returns (self', h') /\
              stores self' h'
                (Matrix c (map (drift (SceneConfig.dt_secs config) k) rows0))).
  { intros gl hx Hx.
    destruct (coasting_steps (length rows0) st rows0 c
                (SceneConfig.dt_secs config) (SceneConfig.max_speed_multiplier config)
                k Hall Hc eq_refl Hmult
                (with_groups (assigned (blank config) st a h) gl) hx 0%nat)
      as (s & h' & E & Hs & Hl').
    - simpl. rewrite Hloc. reflexivity.
    - reflexivity.
    - reflexivity.
    - exists gl. reflexivity.
    - simpl. rewrite Han. reflexivity.
    - simpl. rewrite Han. reflexivity.
    - apply Hl0. exact Hx.
    - exists s, h'. split; [exact E|]. exists st. split; assumption. }
  destruct g as [gl|].
  - rewrite (bind_eval _ _ _ _ _ E0). apply Hgo. exact Hl.
  - rewrite (bind_eval _ _ _ _ _ E0). apply Hgo. apply lookup_snoc_old. exact Hl.
Qed.

Lemma coasting_is_uniform_motion_witness :
  exists self' h',
    bind (__init__ 0%nat None example_config)
      (fun self => steps self (coasting (length (rows two_agents)) 3))
      [ONd (Arr2 two_agents)]
      = Returns (self', h') /\
    stores self' h'
      (Matrix 7 (map (drift (SceneConfig.dt_secs example_config) 3) (rows two_agents))).
Proof.
  apply (coasting_is_uniform_motion example_config 0%nat None [ONd (Arr2 two_agents)]
           7%nat (rows two_agents) 3%nat).
  - reflexivity.
  - exact two_agents_wf.
  - lia.
  - simpl. lra.
Defined.

(** ** Orientation of the descriptors *)

Lemma py_mod_range a b : 0 < b -> 0 <= py_mod a b < b.
Proof.
  intros Hb. unfold py_mod.
  destruct (base_Int_part (a / b)) as [Hlo Hhi].
  set (q := IZR (Int_part (a / b))) in *.
  assert (Ha : a = a / b * b) by (field; lra).
  split.
  - assert (q * b <= a / b * b) by (apply Rmult_le_compat_r; lra). lra.
  - assert (a / b * b < (q + 1) * b) by (apply Rmult_lt_compat_r; lra). lra.
Qed.

(** X11: the direction angle that [orient] gives a line, and the angle of its
    orthogonal vector derived from it, both lie in [0, 2 pi). *)
Theorem orient_range (line : Line2D) :
  0 <= orient line < 2 * PI /\
  0 <= py_mod (orient line + PI / 2) (2 * PI) < 2 * PI.
Proof.
  pose proof PI_RGT_0 as Hpi.
  split.
  - destruct line as [[[sx ex] sy] ey]. unfold orient. apply py_mod_range. lra.
  - apply py_mod_range. lra.
Qed.

(** The direction angle points along the vector, not against it. *)
Lemma atan2_along (dy dx : R) :
  dx <> 0 \/ dy <> 0 ->
  0 < dx * cos (atan2 dy dx) + dy * sin (atan2 dy dx).
Proof.
  intros Hnz.
  assert (Hsq : 0 < dx * dx + dy * dy).
  { destruct Hnz as [H|H].
    - pose proof (Rsqr_pos_lt dx H) as H1. pose proof (Rle_0_sqr dy) as H2.
      unfold Rsqr in *. lra.
    - pose proof (Rsqr_pos_lt dy H) as H1. pose proof (Rle_0_sqr dx) as H2.
      unfold Rsqr in *. lra. }
  assert (Hatan : forall u, 0 < cos (atan u)).
  { intros u. pose proof (atan_bound u) as [Hlo Hhi]. apply cos_gt_0; lra. }
  unfold atan2.
  destruct (Rlt_dec 0 dx) as [Hpos|Hnpos].
  - rewrite atan_direction.
    replace (dx * cos (atan (dy / dx)) + dy * (dy / dx * cos (atan (dy / dx))))
      with ((dx * dx + dy * dy) / dx * cos (atan (dy / dx))) by (field; lra).
    apply Rmult_lt_0_compat; [|apply Hatan].
    apply Rmult_lt_0_compat; [exact Hsq|apply Rinv_0_lt_compat; exact Hpos].
  - destruct (Rlt_dec dx 0) as [Hneg|Hnneg].
    + assert (Hs : sin (atan (dy / dx) - PI) = - sin (atan (dy / dx))).
      { pose proof (neg_sin (atan (dy / dx) - PI)) as H.
        replace (atan (dy / dx) - PI + PI) with (atan (dy / dx)) in H by ring.
        lra. }
      assert (Hc : cos (atan (dy / dx) - PI) = - cos (atan (dy / dx))).
      { pose proof (neg_cos (atan (dy / dx) - PI)) as H.
        replace (atan (dy / dx) - PI + PI) with (atan (dy / dx)) in H by ring.
        lra. }
      assert (Hval : 0 < dx * - cos (atan (dy / dx))
                         + dy * - (dy / dx * cos (atan (dy / dx)))).
      { replace (dx * - cos (atan (dy / dx))
                 + dy * - (dy / dx * cos (atan (dy / dx))))
          with ((dx * dx + dy * dy) / (- dx) * cos (atan (dy / dx)))
          by (field; lra).
        apply Rmult_lt_0_compat; [|apply Hatan].
        apply Rmult_lt_0_compat; [exact Hsq|apply Rinv_0_lt_compat; lra]. }
      destruct (Rle_dec 0 dy).
      * rewrite neg_sin, neg_cos, atan_direction. exact Hval.
      * rewrite Hs, Hc, atan_direction. exact Hval.
    + assert (dx = 0) by lra. subst dx.
      destruct (Rlt_dec 0 dy).
      * rewrite sin_PI2. lra.
      * destruct (Rlt_dec dy 0).
        -- rewrite sin_neg, sin_PI2. lra.
        -- destruct Hnz; lra.
Qed.

(** The direction angle of a vector of positive length [L] has cosine
    [dx / L] and sine [dy / L]. *)
Lemma atan2_unit (dy dx : R) :
  0 < norm [dx; dy] ->
  cos (atan2 dy dx) = dx / norm [dx; dy] /\
  sin (atan2 dy dx) = dy / norm [dx; dy].
Proof.
  intros HL. set (L := norm [dx; dy]) in *.
  assert (HL2 : L * L = dx * dx + dy * dy).
  { unfold L. rewrite norm_pair. apply sqrt_sqrt.
    pose proof (Rle_0_sqr dx) as H1. pose proof (Rle_0_sqr dy) as H2.
    unfold Rsqr in *. lra. }
  assert (Hnz : dx <> 0 \/ dy <> 0).
  { destruct (Req_dec_T dx 0) as [Hx|]; [|left; assumption].
    destruct (Req_dec_T dy 0) as [Hy|]; [|right; assumption].
    exfalso. subst. nra. }
  pose proof (atan2_along dy dx Hnz) as Hp.
  pose proof (atan2_direction dy dx) as Hq.
  pose proof (sin2_cos2 (atan2 dy dx)) as Hu. unfold Rsqr in Hu.
  set (c := cos (atan2 dy dx)) in *. set (s := sin (atan2 dy dx)) in *.
  set (P := dx * c + dy * s) in *.
  assert (HP2 : P * P = L * L).
  { rewrite HL2. unfold P.
    replace ((dx * c + dy * s) * (dx * c + dy * s))
      with ((dx * dx + dy * dy) * (s * s + c * c) - (dy * c - dx * s) * (dy * c - dx * s))
      by ring.
    rewrite Hu, Hq. ring. }
  assert (HPL : P = L) by nra.
  assert (Hdx : dx = L * c).
  { rewrite <- HPL. unfold P.
    replace ((dx * c + dy * s) * c) with (dx * (c * c) + (dy * c) * s) by ring.
    rewrite Hq. replace (dx * (c * c) + dx * s * s) with (dx * (s * s + c * c)) by ring.
    rewrite Hu. ring. }
  assert (Hdy : dy = L * s).
  { rewrite <- HPL. unfold P.
    replace ((dx * c + dy * s) * s) with ((dx * s) * c + dy * (s * s)) by ring.
    rewrite <- Hq. replace (dy * c * c + dy * (s * s)) with (dy * (s * s + c * c)) by ring.
    rewrite Hu. ring. }
  split.
  - replace (dx / L) with (L * c / L) by (rewrite <- Hdx; reflexivity).
    field. lra.
  - replace (dy / L) with (L * s / L) by (rewrite <- Hdy; reflexivity).
    field. lra.
Qed.

Lemma descriptor_lookup (obs_lines : list Line2D) (i : nat) (l : Line2D) :
  obs_lines !! i = Some l ->
  _update_obstacles_raw (Some obs_lines)
    = Returns (Arr2 (Matrix 6 (map descriptor obs_lines))) /\
  map descriptor obs_lines !! i = Some (descriptor l).
Proof.
  intros Hl. split.
  - apply _update_obstacles_raw_eval. intros ->. discriminate.
  - apply lookup_map_Some. exact Hl.
Qed.

(** X12: for a line of positive length [L] the orthogonal vector of its
    descriptor is the direction turned a quarter counter-clockwise:
    (ortho_x, ortho_y) = (-dy / L, dx / L) with (dx, dy) = end - start. *)
Theorem ortho_is_left_normal
  (obs_lines : list Line2D) (i : nat) (start_x end_x start_y end_y : R) :
  obs_lines !! i = Some (start_x, end_x, start_y, end_y) ->
  0 < norm [end_x - start_x; end_y - start_y] ->
  exists rows c s,
    _update_obstacles_raw (Some obs_lines) = Returns (Arr2 (Matrix 6 rows)) /\
    rows !! i = Some [start_x; start_y; end_x; end_y; c; s] /\
    c = - (end_y - start_y) / norm [end_x - start_x; end_y - start_y] /\
    s = (end_x - start_x) / norm [end_x - start_x; end_y - start_y].
Proof.
  intros Hl HL.
  destruct (descriptor_lookup obs_lines i _ Hl) as [E Hrow].
  destruct (atan2_unit (end_y - start_y) (end_x - start_x) HL) as [Hc Hs].
  eexists; eexists; eexists. split; [exact E|]. split; [exact Hrow|].
  rewrite cos_ortho_angle, sin_ortho_angle, Hc, Hs.
  split; [field|reflexivity]. lra.
Qed.

Lemma ortho_is_left_normal_witness :
  exists rows c s,
    _update_obstacles_raw (Some [(0, 10, 0, 0); (1, 4, 1, 5)])
      = Returns (Arr2 (Matrix 6 rows)) /\
    rows !! 1%nat = Some [1; 1; 4; 5; c; s] /\
    c = - (5 - 1) / norm [4 - 1; 5 - 1] /\
    s = (4 - 1) / norm [4 - 1; 5 - 1].
Proof.
  apply (ortho_is_left_normal [(0, 10, 0, 0); (1, 4, 1, 5)] 1%nat 1 4 1 5).
  - reflexivity.
  - replace (4 - 1) with 3 by lra. replace (5 - 1) with 4 by lra.
    rewrite norm_3_4. lra.
Defined.

Lemma atan2_origin : atan2 0 0 = 0.
Proof.
  unfold atan2.
  destruct (Rlt_dec 0 0) as [H|_]; [exfalso; lra|].
  destruct (Rlt_dec 0 0) as [H|_]; [exfalso; lra|]. reflexivity.
Qed.

(** X13: a line of length zero, whose start and end coincide, gets a
    descriptor all the same, with the orthogonal vector (0, 1). *)
Theorem point_obstacle_descriptor (obs_lines : list Line2D) (i : nat) (x y : R) :
  obs_lines !! i = Some (x, x, y, y) ->
  exists rows c s,
    _update_obstacles_raw (Some obs_lines) = Returns (Arr2 (Matrix 6 rows)) /\
    rows !! i = Some [x; y; x; y; c; s] /\ c = 0 /\ s = 1.
Proof.
  intros Hl. destruct (descriptor_lookup obs_lines i _ Hl) as [E Hrow].
  eexists; eexists; eexists. split; [exact E|]. split; [exact Hrow|].
  rewrite cos_ortho_angle, sin_ortho_angle.
  replace (y - y) with 0 by ring. replace (x - x) with 0 by ring.
  rewrite atan2_origin, sin_0, cos_0. split; [ring|reflexivity].
Qed.

Lemma point_obstacle_descriptor_witness :
  exists rows c s,
    _update_obstacles_raw (Some [(2, 2, 3, 3)]) = Returns (Arr2 (Matrix 6 rows)) /\
    rows !! 0%nat = Some [2; 3; 2; 3; c; s] /\ c = 0 /\ s = 1.
Proof.
  apply (point_obstacle_descriptor [(2, 2, 3, 3)] 0%nat 2 3). reflexivity.
Defined.

(** ** Where the sample points lie *)

Lemma cloud_lookup resolution (obs_lines : list Line2D) (i : nat) (l : Line2D) :
  0 <= resolution -> obs_lines !! i = Some l ->
  exists clouds cloud,
    _update_obstacles_linspace resolution (Some obs_lines) = Returns clouds /\
    clouds !! i = Some cloud /\ cloud_of resolution l cloud.
Proof.
  intros Hr Hl.
  destruct (sample_lines_clouds resolution obs_lines Hr) as (clouds & E & Hall).
  destruct (Forall2_lookup_l _ _ _ _ _ Hall Hl) as (cloud & Hc & Hof).
  exists clouds, cloud. split; [exact E|]. split; assumption.
Qed.

(** X14: a line shorter than one sample spacing (length times resolution
    below 1) gets no sample point at all: its cloud is the empty array. *)
Theorem short_line_has_no_samples
  (resolution : R) (obs_lines : list Line2D) (i : nat)
  (start_x end_x start_y end_y : R) :
  0 <= resolution ->
  obs_lines !! i = Some (start_x, end_x, start_y, end_y) ->
  norm [start_x - end_x; start_y - end_y] * resolution < 1 ->
  exists clouds,
    _update_obstacles_linspace resolution (Some obs_lines) = Returns clouds /\
    clouds !! i = Some (Arr1 []).
Proof.
  intros Hr Hl Hshort.
  destruct (cloud_lookup resolution obs_lines i _ Hr Hl) as (clouds & cloud & E & Hc & Hof).
  unfold cloud_of in Hof. destruct Hof as (n & pts & Hcl & Hlen & Hn & _).
  assert (En : n = 0%nat).
  { destruct n as [|n]; [reflexivity|]. exfalso. rewrite S_INR in Hn.
    pose proof (pos_INR n). lra. }
  rewrite En in Hlen. destruct pts; [|discriminate].
  exists clouds. split; [exact E|]. rewrite Hc, Hcl. reflexivity.
Qed.

Lemma short_line_has_no_samples_witness :
  exists clouds,
    _update_obstacles_linspace 10 (Some [(0, 10, 0, 0); (1, 1, 2, 2)])
      = Returns clouds /\
    clouds !! 1%nat = Some (Arr1 []).
Proof.
  apply (short_line_has_no_samples 10 [(0, 10, 0, 0); (1, 1, 2, 2)] 1%nat 1 1 2 2).
  - lra.
  - reflexivity.
  - rewrite norm_pair. replace ((1 - 1) * (1 - 1) + (2 - 2) * (2 - 2)) with 0 by lra.
    rewrite sqrt_0. lra.
Defined.

(** X15: a line with length times resolution at least 2 gets at least two
    sample points; the first is the start point, the last is the end point,
    and every sample is [start + t * (end - start)] for some [t] between 0
    and 1, so it lies on the segment. *)
Theorem samples_span_the_segment
  (resolution : R) (obs_lines : list Line2D) (i : nat)
  (start_x end_x start_y end_y : R) :
  0 <= resolution ->
  obs_lines !! i = Some (start_x, end_x, start_y, end_y) ->
  2 <= norm [start_x - end_x; start_y - end_y] * resolution ->
  exists clouds pts,
    _update_obstacles_linspace resolution (Some obs_lines) = Returns clouds /\
    clouds !! i = Some (Arr2 (Matrix 2 pts)) /\
    (2 <= length pts)%nat /\
    (exists x y, pts !! 0%nat = Some [x; y] /\ x = start_x /\ y = start_y) /\
    (exists x y, pts !! (length pts - 1)%nat = Some [x; y] /\
                 x = end_x /\ y = end_y) /\
    (forall j, (j < length pts)%nat ->
       exists x y t, pts !! j = Some [x; y] /\ 0 <= t <= 1 /\
                     x = start_x + t * (end_x - start_x) /\
                     y = start_y + t * (end_y - start_y)).
Proof.
  intros Hr Hl Hlong.
  destruct (cloud_lookup resolution obs_lines i _ Hr Hl) as (clouds & cloud & E & Hc & Hof).
  unfold cloud_of in Hof. destruct Hof as (n & pts & Hcl & Hlen & Hn & Hpts & _).
  assert (Hn2 : (2 <= n)%nat).
  { destruct n as [|[|n]]; [simpl in Hn; lra|simpl in Hn; lra|lia]. }
  assert (Hden : 0 < INR (n - 1)).
  { apply lt_0_INR. lia. }
  exists clouds, pts. split; [exact E|].
  split; [rewrite Hc, Hcl; destruct pts; [simpl in Hlen; lia|reflexivity]|].
  rewrite Hlen. split; [exact Hn2|]. split; [|split].
  - destruct (Hpts 0%nat ltac:(lia)) as (x & y & Hp & Ex & Ey).
    exists x, y. split; [exact Hp|]. unfold interpolate in *. simpl in Ex, Ey.
    split; lra.
  - destruct (Hpts (n - 1)%nat ltac:(lia)) as (x & y & Hp & Ex & Ey).
    exists x, y. split; [exact Hp|]. unfold interpolate in *.
    split; [rewrite Ex|rewrite Ey]; field; lra.
  - intros j Hj. destruct (Hpts j Hj) as (x & y & Hp & Ex & Ey).
    exists x, y, (INR j / INR (n - 1)). split; [exact Hp|].
    unfold interpolate in *. split; [|split; [rewrite Ex|rewrite Ey]; field; lra].
    assert (Hjn : INR j <= INR (n - 1)) by (apply le_INR; lia).
    pose proof (pos_INR j) as Hj0. split.
    + apply Rmult_le_pos; [exact Hj0|]. left. apply Rinv_0_lt_compat. exact Hden.
    + apply Rmult_le_reg_r with (INR (n - 1)); [exact Hden|].
      replace (INR j / INR (n - 1) * INR (n - 1)) with (INR j) by (field; lra). lra.
Qed.

Lemma samples_span_the_segment_witness :
  exists clouds pts,
    _update_obstacles_linspace 10 (Some [(0, 10, 0, 0)]) = Returns clouds /\
    clouds !! 0%nat = Some (Arr2 (Matrix 2 pts)) /\
    (2 <= length pts)%nat /\
    (exists x y, pts !! 0%nat = Some [x; y] /\ x = 0 /\ y = 0) /\
    (exists x y, pts !! (length pts - 1)%nat = Some [x; y] /\ x = 10 /\ y = 0) /\
    (forall j, (j < length pts)%nat ->
       exists x y t, pts !! j = Some [x; y] /\ 0 <= t <= 1 /\
                     x = 0 + t * (10 - 0) /\ y = 0 + t * (0 - 0)).
Proof.
  apply (samples_span_the_segment 10 [(0, 10, 0, 0)] 0%nat 0 10 0 0).
  - lra.
  - reflexivity.
  - rewrite horizontal_line_length. lra.
Defined.

(** X16: a line with length times resolution from 1 up to, but not, 2 gets a
    single sample point, and that point is its start: the end of such a line
    is not sampled. *)
Theorem single_sample_is_the_start
  (resolution : R) (obs_lines : list Line2D) (i : nat)
  (start_x end_x start_y end_y : R) :
  0 <= resolution ->
  obs_lines !! i = Some (start_x, end_x, start_y, end_y) ->
  1 <= norm [start_x - end_x; start_y - end_y] * resolution < 2 ->
  exists clouds x y,
    _update_obstacles_linspace resolution (Some obs_lines) = Returns clouds /\
    clouds !! i = Some (Arr2 (Matrix 2 [[x; y]])) /\
    x = start_x /\ y = start_y.
Proof.
  intros Hr Hl Hq.
  destruct (cloud_lookup resolution obs_lines i _ Hr Hl) as (clouds & cloud & E & Hc & Hof).
  unfold cloud_of in Hof. destruct Hof as (n & pts & Hcl & Hlen & Hn & Hpts & _).
  assert (En : n = 1%nat).
  { destruct n as [|[|n]]; [simpl in Hn; lra|reflexivity|].
    exfalso. rewrite !S_INR in Hn. pose proof (pos_INR n). lra. }
  rewrite En in Hlen, Hpts.
  destruct (Hpts 0%nat ltac:(lia)) as (x & y & Hp & Ex & Ey).
  destruct pts as [|p [|q pts]]; simpl in Hlen; try lia.
  simpl in Hp. inversion Hp; subst p.
  exists clouds, x, y. split; [exact E|].
  split; [rewrite Hc, Hcl; reflexivity|].
  unfold interpolate in *. simpl in Ex, Ey. split; lra.
Qed.

Lemma single_sample_is_the_start_witness :
  exists clouds x y,
    _update_obstacles_linspace 10 (Some [(0, 19 / 100, 0, 0)]) = Returns clouds /\
    clouds !! 0%nat = Some (Arr2 (Matrix 2 [[x; y]])) /\
    x = 0 /\ y = 0.
Proof.
  apply (single_sample_is_the_start 10 [(0, 19 / 100, 0, 0)] 0%nat 0 (19 / 100) 0 0).
  - lra.
  - reflexivity.
  - rewrite short_line_length. lra.
Defined.

(** ** A failed assignment of obstacles *)

(** X17: the [obstacles] setter is not all-or-nothing.  When it raises, the
    object already holds the new line list in [_orig_obstacles] while its
    sample clouds are still those of the old lines; assigning the empty list
    is such a case and leaves the old descriptors as well.  When it does not
    raise, the object is the one [set_obstacles] returns. *)
Theorem failed_set_obstacles_is_partial
  (self : EnvState) (obstacles : option (list Line2D)) :
  (forall self' e,
      set_obstacles_effect self obstacles = (self', Some e) ->
      set_obstacles self obstacles = Raises e /\
      _orig_obstacles self' = obstacles /\
      _obstacles_linspace self' = _obstacles_linspace self) /\
  (forall self',
      set_obstacles_effect self obstacles = (self', None) ->
      set_obstacles self obstacles = Returns self') /\
  set_obstacles_effect self (Some [])
  = (MkEnvState (Some []) (_resolution self) (_obstacles_linspace self)
       (_obstacles_raw self), Some ValueError).
Proof.
  split; [|split; [|reflexivity]].
  - intros self' e H. unfold set_obstacles_effect, set_obstacles in *.
    destruct (_update_obstacles_raw obstacles) as [raw|e1].
    + destruct (_update_obstacles_linspace (_resolution self) obstacles) as [lin|e2];
        inversion H; subst. repeat split.
    + inversion H; subst. repeat split.
  - intros self' H. unfold set_obstacles_effect, set_obstacles in *.
    destruct (_update_obstacles_raw obstacles) as [raw|e1]; [|discriminate].
    destruct (_update_obstacles_linspace (_resolution self) obstacles) as [lin|e2];
      inversion H; subst. reflexivity.
Qed.

Lemma failed_set_obstacles_is_partial_witness :
  set_obstacles empty_env (Some []) = Raises ValueError /\
  _orig_obstacles (MkEnvState (Some []) 10 [] (Arr1 [])) = Some [] /\
  _obstacles_linspace (MkEnvState (Some []) 10 [] (Arr1 []))
  = _obstacles_linspace empty_env.
Proof.
  apply (proj1 (failed_set_obstacles_is_partial empty_env (Some []))
           (MkEnvState (Some []) 10 [] (Arr1 [])) ValueError).
  reflexivity.
Defined.

(** ** The visualizable state *)

(** X18: the visualizable state of step [k] carries [k] as its time step, the
    position of every agent, and for every agent the segment from its
    position to its position plus its velocity; the live state array is left
    as it was. *)
Theorem visualizable_state_contents
  (k : Z) (h : heap) (st gl : loc) (a : matrix) (i : nat)
  (px py vx vy : R) (rest : list R) :
  h !! st = Some (ONd (Arr2 a)) -> (4 <= ncols a)%nat ->
  rows a !! i = Some (px :: py :: vx :: vy :: rest) ->
  exists vis h' positions planes,
    to_visualizable_state k (st, gl) h = Returns (vis, h') /\
    timestep vis = k /\
    h' !! pedestrian_positions vis = Some (ONd (Arr2 positions)) /\
    nrows positions = nrows a /\
    rows positions !! i = Some [px; py] /\
    h' !! ped_actions vis = Some (ONd (Arr3 planes)) /\
    length planes = nrows a /\
    planes !! i = Some (Matrix 2 [[px; py]; [px + vx; py + vy]]) /\
    h' !! st = Some (ONd (Arr2 a)).
Proof.
  intros Hl Hc Hr.
  rewrite (to_visualizable_state_eval k h st gl a Hl Hc).
  set (h' := h ++ [ONd (Arr2 (cols 0 2 a))] ++ [ONd (Arr2 (cols 2 4 a))]
               ++ [ONd (Arr3 (action_planes a))]).
  exists (MkVisualizableSimState k (length h) (S (S (length h)))), h',
    (cols 0 2 a), (action_planes a).
  split; [reflexivity|]. split; [reflexivity|].
  cbn [pedestrian_positions ped_actions].
  assert (Hc2 : ncols (cols 0 2 a) = 2%nat) by (cbn [ncols cols]; lia).
  split; [unfold h'; rewrite lookup_app_r by lia; rewrite Nat.sub_diag; reflexivity|].
  split; [unfold nrows; cbn [rows cols]; apply length_map|].
  assert (Hp : rows (cols 0 2 a) !! i = Some [px; py]).
  { cbn [rows cols]. apply (lookup_map_Some (slice 0 2) _ _ _ Hr). }
  assert (Hv : rows (cols 2 4 a) !! i = Some [vx; vy]).
  { cbn [rows cols]. apply (lookup_map_Some (slice 2 4) _ _ _ Hr). }
  split; [exact Hp|].
  split; [unfold h'; rewrite lookup_app_r by lia;
          replace (S (S (length h)) - length h)%nat with 2%nat by lia; reflexivity|].
  split.
  { unfold action_planes, nrows. cbn [rows cols].
    rewrite !length_zip_with, !length_map. lia. }
  split.
  { unfold action_planes. rewrite Hc2.
    apply (lookup_zip_with_pair (fun x y => Matrix 2 [x; y]) _ _ i
             [px; py] [px + vx; py + vy] Hp).
    apply (lookup_zip_with_pair (zip_with Rplus) _ _ i [px; py] [vx; vy] Hp Hv). }
  unfold h'. apply lookup_app_l_Some. exact Hl.
Qed.

Lemma visualizable_state_contents_witness :
  exists vis h' positions planes,
    to_visualizable_state 3 (0%nat, 1%nat) two_agents_heap = Returns (vis, h') /\
    timestep vis = 3%Z /\
    h' !! pedestrian_positions vis = Some (ONd (Arr2 positions)) /\
    nrows positions = nrows two_agents /\
    rows positions !! 1%nat = Some [0; 0] /\
    h' !! ped_actions vis = Some (ONd (Arr3 planes)) /\
    length planes = nrows two_agents /\
    planes !! 1%nat = Some (Matrix 2 [[0; 0]; [0 + 0; 0 + 1]]) /\
    h' !! 0%nat = Some (ONd (Arr2 two_agents)).
Proof.
  apply (visualizable_state_contents 3 two_agents_heap 0%nat 1%nat two_agents 1%nat
           0 0 0 1 [0; 10; 1 / 2]).
  - reflexivity.
  - simpl. lia.
  - reflexivity.
Defined.

(** ** Scaling a snapshot for drawing *)

Lemma imul_eval l k h a :
  h !! l = Some (ONd a) -> imul l k h = Returns (tt, <[l := ONd (nd_scale a k)]> h).
Proof. intros H. unfold imul. rewrite H. reflexivity. Qed.

Lemma scale_once self vis (h : heap) ap aq :
  h !! pedestrian_positions vis = Some (ONd ap) ->
  h !! ped_actions vis = Some (ONd aq) ->
  pedestrian_positions vis <> ped_actions vis ->
  _scale_pedestrian_state self vis h
  = Returns (vis, <[ped_actions vis := ONd (nd_scale aq (scaling self))]>
                    (<[pedestrian_positions vis := ONd (nd_scale ap (scaling self))]> h)).
Proof.
  intros Hp Hq Hne. unfold _scale_pedestrian_state.
  rewrite (bind_eval _ _ _ _ _ (imul_eval _ (scaling self) h ap Hp)).
  erewrite (bind_eval (imul (ped_actions vis) _) _ _ tt); [reflexivity|].
  apply imul_eval. rewrite list_lookup_insert_ne by exact Hne. exact Hq.
Qed.

(** X19: [_scale_pedestrian_state] multiplies the two arrays of the snapshot
    in place and touches nothing else on the heap, the live state included.
    It is not idempotent: scaling the same snapshot a second time multiplies
    the already scaled arrays again. *)
Theorem scaling_is_in_place_and_repeats
  (self : SimulationView) (vis : VisualizableSimState) (h : heap)
  (ap aq : ndarray) :
  h !! pedestrian_positions vis = Some (ONd ap) ->
  h !! ped_actions vis = Some (ONd aq) ->
  pedestrian_positions vis <> ped_actions vis ->
  exists h1 h2,
    _scale_pedestrian_state self vis h = Returns (vis, h1) /\
    h1 !! pedestrian_positions vis = Some (ONd (nd_scale ap (scaling self))) /\
    h1 !! ped_actions vis = Some (ONd (nd_scale aq (scaling self))) /\
    (forall l, l <> pedestrian_positions vis -> l <> ped_actions vis ->
               h1 !! l = h !! l) /\
    _scale_pedestrian_state self vis h1 = Returns (vis, h2) /\
    h2 !! pedestrian_positions vis
    = Some (ONd (nd_scale (nd_scale ap (scaling self)) (scaling self))) /\
    h2 !! ped_actions vis
    = Some (ONd (nd_scale (nd_scale aq (scaling self)) (scaling self))).
Proof.
  intros Hp Hq Hne.
  pose proof (lookup_lt_Some _ _ _ Hp) as Lp.
  pose proof (lookup_lt_Some _ _ _ Hq) as Lq.
  set (k := scaling self).
  set (h1 := <[ped_actions vis := ONd (nd_scale aq k)]>
               (<[pedestrian_positions vis := ONd (nd_scale ap k)]> h)).
  assert (Hp1 : h1 !! pedestrian_positions vis = Some (ONd (nd_scale ap k))).
  { unfold h1. rewrite list_lookup_insert_ne by congruence.
    apply list_lookup_insert_eq. exact Lp. }
  assert (Hq1 : h1 !! ped_actions vis = Some (ONd (nd_scale aq k))).
  { unfold h1. apply list_lookup_insert_eq. rewrite length_insert. exact Lq. }
  assert (L1 : length h1 = length h).
  { unfold h1. rewrite !length_insert. reflexivity. }
  set (h2 := <[ped_actions vis := ONd (nd_scale (nd_scale aq k) k)]>
               (<[pedestrian_positions vis := ONd (nd_scale (nd_scale ap k) k)]> h1)).
  exists h1, h2.
  split; [apply (scale_once self vis h ap aq Hp Hq Hne)|].
  split; [exact Hp1|]. split; [exact Hq1|]. split.
  { intros l H1 H2. unfold h1.
    rewrite !list_lookup_insert_ne by congruence. reflexivity. }
  split; [apply (scale_once self vis h1 _ _ Hp1 Hq1 Hne)|]. split.
  - unfold h2. rewrite list_lookup_insert_ne by congruence.
    apply list_lookup_insert_eq. lia.
  - unfold h2. apply list_lookup_insert_eq. rewrite length_insert. lia.
Qed.

Lemma scaling_is_in_place_and_repeats_witness :
  exists h1 h2,
    _scale_pedestrian_state default_view (MkVisualizableSimState 0 1%nat 2%nat)
      [ONd (Arr2 two_agents); ONd (Arr2 (cols 0 2 two_agents));
       ONd (Arr3 (action_planes two_agents))]
      = Returns (MkVisualizableSimState 0 1%nat 2%nat, h1) /\
    h1 !! 1%nat = Some (ONd (nd_scale (Arr2 (cols 0 2 two_agents)) 15)) /\
    h1 !! 2%nat = Some (ONd (nd_scale (Arr3 (action_planes two_agents)) 15)) /\
    (forall l, l <> 1%nat -> l <> 2%nat ->
               h1 !! l = [ONd (Arr2 two_agents); ONd (Arr2 (cols 0 2 two_agents));
                          ONd (Arr3 (action_planes two_agents))] !! l) /\
    _scale_pedestrian_state default_view (MkVisualizableSimState 0 1%nat 2%nat) h1
      = Returns (MkVisualizableSimState 0 1%nat 2%nat, h2) /\
    h2 !! 1%nat
    = Some (ONd (nd_scale (nd_scale (Arr2 (cols 0 2 two_agents)) 15) 15)) /\
    h2 !! 2%nat
    = Some (ONd (nd_scale (nd_scale (Arr3 (action_planes two_agents)) 15) 15)).
Proof.
  apply (scaling_is_in_place_and_repeats default_view
           (MkVisualizableSimState 0 1%nat 2%nat)
           [ONd (Arr2 two_agents); ONd (Arr2 (cols 0 2 two_agents));
            ONd (Arr3 (action_planes two_agents))]
           (Arr2 (cols 0 2 two_agents)) (Arr3 (action_planes two_agents))).
  - reflexivity.
  - reflexivity.
  - simpl. lia.
Defined.

(** ** The event queue of the view *)

Lemma process_event_scaling self e :
  1 <= scaling self -> 1 <= scaling (process_event self e).
Proof.
  intros H. destruct e as [| w h0 | k |]; simpl; try exact H.
  destruct k; simpl; try exact H; [lra|].
  destruct (Rlt_dec (scaling self - 1) 1); lra.
Qed.

Lemma process_batch_scaling batch : forall self,
  1 <= scaling self -> 1 <= scaling (fold_left process_event batch self).
Proof.
  induction batch as [|e batch IH]; intros self H; simpl; [exact H|].
  apply IH. apply process_event_scaling. exact H.
Qed.

(** X20: the zoom factor never drops below 1: when [scaling] is at least 1,
    it is still at least 1 after any sequence of events. *)
Theorem scaling_stays_at_least_one
  (self : SimulationView) (batches : list (list event)) :
  1 <= scaling self -> 1 <= scaling (_process_event_queue self batches).
Proof.
  revert self. induction batches as [|batch rest IH]; intros self H; simpl;
    [exact H|].
  destruct (is_exit_requested self); [exact H|].
  apply IH. apply process_batch_scaling. exact H.
Qed.

Lemma scaling_stays_at_least_one_witness :
  1 <= scaling (_process_event_queue default_view
                  [[KEYDOWN K_MINUS; KEYDOWN K_LEFT]; [KEYDOWN K_MINUS; QUIT]]).
Proof.
  apply (scaling_stays_at_least_one default_view
           [[KEYDOWN K_MINUS; KEYDOWN K_LEFT]; [KEYDOWN K_MINUS; QUIT]]).
  simpl. lra.
Defined.

Lemma process_event_exit self e :
  (is_exit_requested self = true -> is_exit_requested (process_event self e) = true) /\
  (is_abortion_requested self = true ->
   is_abortion_requested (process_event self e) = true).
Proof.
  destruct e as [| w h0 | k |]; simpl; try (split; intros H; exact H);
    try (split; reflexivity).
  destruct k; simpl; split; intros H; exact H.
Qed.

Lemma process_batch_exit batch : forall self,
  is_exit_requested self = true -> is_abortion_requested self = true ->
  is_exit_requested (fold_left process_event batch self) = true /\
  is_abortion_requested (fold_left process_event batch self) = true.
Proof.
  induction batch as [|e batch IH]; intros self H1 H2; simpl; [split; assumption|].
  destruct (process_event_exit self e) as [He Ha]. apply IH; auto.
Qed.

Lemma process_batch_quit batch : forall self,
  In QUIT batch ->
  is_exit_requested (fold_left process_event batch self) = true /\
  is_abortion_requested (fold_left process_event batch self) = true.
Proof.
  induction batch as [|e batch IH]; intros self Hin; simpl in *; [contradiction|].
  destruct Hin as [->|Hin].
  - apply process_batch_exit; reflexivity.
  - apply IH. exact Hin.
Qed.

(** X21: a QUIT event ends the loop after its own batch.  The batch that holds
    it is handled to its end, events after the QUIT included; both exit flags
    are then set, and no later batch is looked at. *)
Theorem quit_ends_the_loop
  (self : SimulationView) (batch : list event) (rest : list (list event)) :
  is_exit_requested self = false -> In QUIT batch ->
  _process_event_queue self (batch :: rest) = fold_left process_event batch self /\
  is_exit_requested (_process_event_queue self (batch :: rest)) = true /\
  is_abortion_requested (_process_event_queue self (batch :: rest)) = true.
Proof.
  intros Hno Hin. destruct (process_batch_quit batch self Hin) as [He Ha].
  assert (E : _process_event_queue self (batch :: rest)
              = fold_left process_event batch self).
  { simpl. rewrite Hno. destruct rest as [|b rest]; [reflexivity|].
    simpl. rewrite He. reflexivity. }
  rewrite E. repeat split; assumption.
Qed.

Lemma quit_ends_the_loop_witness :
  _process_event_queue default_view
    ([QUIT; KEYDOWN K_PLUS] :: [[KEYDOWN K_PLUS]])
  = fold_left process_event [QUIT; KEYDOWN K_PLUS] default_view /\
  is_exit_requested
    (_process_event_queue default_view
       ([QUIT; KEYDOWN K_PLUS] :: [[KEYDOWN K_PLUS]])) = true /\
  is_abortion_requested
    (_process_event_queue default_view
       ([QUIT; KEYDOWN K_PLUS] :: [[KEYDOWN K_PLUS]])) = true.
Proof.
  apply (quit_ends_the_loop default_view [QUIT; KEYDOWN K_PLUS] [[KEYDOWN K_PLUS]]).
  - reflexivity.
  - left. reflexivity.
Defined.

Lemma wrap64_small z : int64 z -> wrap64 z = z.
Proof.
  unfold int64, wrap64. intros H. rewrite Z.mod_small by lia. lia.
Qed.

Lemma wrap64_add z d : wrap64 (wrap64 z + d) = wrap64 (z + d).
Proof.
  unfold wrap64. f_equal.
  replace ((z + 2 ^ 63) mod 2 ^ 64 - 2 ^ 63 + d + 2 ^ 63)%Z
    with ((z + 2 ^ 63) mod 2 ^ 64 + d)%Z by lia.
  rewrite Zplus_mod_idemp_l. f_equal. lia.
Qed.

(** X22: opposite keys undo each other.  With [scaling] at least 1, a plus
    followed by a minus gives the zoom factor back; left followed by right,
    and up followed by down, give the offset back, also when the 64-bit offset
    wraps around in between. *)
Theorem opposite_keys_undo (self : SimulationView) :
  1 <= scaling self -> int64 (fst (offset self)) -> int64 (snd (offset self)) ->
  scaling (process_event (process_event self (KEYDOWN K_PLUS)) (KEYDOWN K_MINUS))
  = scaling self /\
  offset (process_event (process_event self (KEYDOWN K_LEFT)) (KEYDOWN K_RIGHT))
  = offset self /\
  offset (process_event (process_event self (KEYDOWN K_UP)) (KEYDOWN K_DOWN))
  = offset self.
Proof.
  intros Hs Hx Hy. destruct self as [w h0 s pr sc ex ab rd [ox oy]]. simpl in *.
  split; [|split].
  - destruct (Rlt_dec (s + 1 - 1) 1); lra.
  - f_equal. unfold Z.sub. rewrite wrap64_add.
    replace (ox + - (10) + 10)%Z with ox by lia. apply wrap64_small. exact Hx.
  - f_equal. unfold Z.sub. rewrite wrap64_add.
    replace (oy + - (10) + 10)%Z with oy by lia. apply wrap64_small. exact Hy.
Qed.

Lemma opposite_keys_undo_witness :
  scaling (process_event (process_event default_view (KEYDOWN K_PLUS))
             (KEYDOWN K_MINUS))
  = scaling default_view /\
  offset (process_event (process_event default_view (KEYDOWN K_LEFT))
            (KEYDOWN K_RIGHT))
  = offset default_view /\
  offset (process_event (process_event default_view (KEYDOWN K_UP))
            (KEYDOWN K_DOWN))
  = offset default_view.
Proof.
  apply (opposite_keys_undo default_view).
  - simpl. lra.
  - unfold int64. simpl. lia.
  - unfold int64. simpl. lia.
Defined.
